(** * scona.make_corr_matrices: a shallow embedding and its properties

    The development follows [src/scona/make_corr_matrices.py]:
    [get_non_numeric_cols], [split_groups], [create_residuals_df],
    [create_corrmat], [corrmat_from_regionalmeasures] and [save_mat].

    Python exceptions are values of [exn] carried by the [result] monad.
    A pandas frame is a record of row labels and typed, labelled columns.
    The routines of numpy, pandas and [scona.stats_functions] that the
    module calls but does not define ([residuals], [DataFrame.corr], the
    [repr] of a float, the parsing of a float, the test of numpy for a URL)
    are section variables.  [DataFrame.corr] is also given a model of its own,
    [DataFrame_corr], after pandas; the properties of the correlation
    matrix are stated with it. *)

From Stdlib Require Import ZArith List String Ascii Bool Lia Permutation.
From Stdlib Require Import Floats.SpecFloat.
From stdpp Require Import base option list strings gmap pretty.

Local Open Scope string_scope.
Local Open Scope Z_scope.
Local Open Scope list_scope.

(** ** Characters that cannot be written inside a literal *)

Definition tab : string := String (ascii_of_nat 9) EmptyString.
Definition newline : string := String (ascii_of_nat 10) EmptyString.
Definition dquote : string := String (ascii_of_nat 34) EmptyString.

(** ** Exceptions and the error monad *)

Inductive exn : Type :=
  | TypeError (msg : string)
  | ValueError (msg : string)
  | KeyError (key : string)
  | IndexError (msg : string)
  | FileNotFoundError (path : string)
  | FileExistsError (path : string)
  | NotADirectoryError (path : string)
  | IsADirectoryError (path : string)
  | LinAlgError (msg : string).

Inductive result (A : Type) : Type :=
  | Ok (a : A)
  | Raise (e : exn).
Arguments Ok {A} a.
Arguments Raise {A} e.

#[global] Instance result_ret : MRet result := fun A a => Ok a.
#[global] Instance result_bind : MBind result := fun A B f m =>
  match m with
  | Ok a => f a
  | Raise e => Raise e
  end.

(** [for x in xs: acc = body(acc, x)], stopping at the first exception. *)
Fixpoint for_each {A B : Type} (body : B -> A -> result B) (xs : list A) (acc : B)
  : result B :=
  match xs with
  | [] => Ok acc
  | x :: xs' => acc' ← body acc x; for_each body xs' acc'
  end.

(** [[f(x) for x in xs]], stopping at the first exception. *)
Fixpoint map_result {A B : Type} (f : A -> result B) (xs : list A) : result (list B) :=
  match xs with
  | [] => Ok []
  | x :: xs' => y ← f x; ys ← map_result f xs'; Ok (y :: ys)
  end.

Definition is_ok {A : Type} (r : result A) : bool :=
  match r with Ok _ => true | Raise _ => false end.

(** ** Columns, dtypes and frames *)

Inductive dtype : Type := float64 | int64 | bool_ | object_.

(** A column is a homogeneous numpy array; [object_] columns hold [str]. *)
Inductive column : Type :=
  | Float64 (v : list spec_float)
  | Int64 (v : list Z)
  | Bool_ (v : list bool)
  | Object (v : list string).

Inductive value : Type :=
  | VFloat (f : spec_float)
  | VInt (z : Z)
  | VBool (b : bool)
  | VStr (s : string).

Definition col_dtype (c : column) : dtype :=
  match c with
  | Float64 _ => float64
  | Int64 _ => int64
  | Bool_ _ => bool_
  | Object _ => object_
  end.

(** [c.values], element by element. *)
Definition col_values (c : column) : list value :=
  match c with
  | Float64 v => map VFloat v
  | Int64 v => map VInt v
  | Bool_ v => map VBool v
  | Object v => map VStr v
  end.

Definition col_length (c : column) : nat := length (col_values c).

(** [np.issubdtype(dt, np.number)]: the boolean dtype is not a number. *)
Definition issubdtype_number (dt : dtype) : bool :=
  match dt with
  | float64 | int64 => true
  | bool_ | object_ => false
  end.

(** A frame: its row labels (integers for a frame read from a file, column
    labels for the frame that [DataFrame.corr] returns) and its labelled
    columns. *)
Record DataFrame : Type := mkDataFrame {
  index : list value;
  columns : list (string * column)
}.

(** [pandas.RangeIndex(n)]: the row labels [0 .. n-1]. *)
Definition RangeIndex (n : nat) : list value :=
  map (fun i => VInt (Z.of_nat i)) (seq 0 n).

Definition labels (df : DataFrame) : list string := map fst (columns df).
Definition dtypes (df : DataFrame) : list dtype :=
  map (fun lc => col_dtype (snd lc)) (columns df).
Definition nrows (df : DataFrame) : nat := length (index df).

(** Every column has one entry per row label. *)
Definition well_formed (df : DataFrame) : Prop :=
  Forall (fun lc => col_length (snd lc) = nrows df) (columns df).

(** The columns of [df] carrying the label [name], in frame order. *)
Definition columns_labelled (df : DataFrame) (name : string) : list (string * column) :=
  List.filter (fun lc => String.eqb (fst lc) name) (columns df).

(** [df[names]] for a list of labels: [KeyError] on a missing label. *)
Fixpoint select_columns (df : DataFrame) (names : list string)
  : result (list (string * column)) :=
  match names with
  | [] => Ok []
  | n :: names' =>
      match columns_labelled df n with
      | [] => Raise (KeyError n)
      | found => rest ← select_columns df names'; Ok (found ++ rest)
      end
  end.

Definition getitem_list (df : DataFrame) (names : list string) : result DataFrame :=
  cs ← select_columns df names; Ok (mkDataFrame (index df) cs).

(** [df.loc[:, name]] on a frame whose labels are unique. *)
Definition loc_col (df : DataFrame) (name : string) : result column :=
  match columns_labelled df name with
  | [] => Raise (KeyError name)
  | lc :: _ => Ok (snd lc)
  end.

(** [df.iloc[:, i]]. *)
Definition iloc_col (df : DataFrame) (i : nat) : result column :=
  match nth_error (columns df) i with
  | Some lc => Ok (snd lc)
  | None => Raise (IndexError "single positional indexer is out-of-bounds")
  end.

(** [df[name] = c] for a one-dimensional array [c]: the array is written
    into every column labelled [name] (pandas tiles it over a repeated
    label); a new label is appended at the end. *)
Definition set_column (df : DataFrame) (name : string) (c : column) : result DataFrame :=
  if negb (Nat.eqb (col_length c) (nrows df)) then
    Raise (ValueError "Length of values does not match length of index")
  else
    match columns_labelled df name with
    | [] => Ok (mkDataFrame (index df) (columns df ++ [(name, c)]))
    | _ => Ok (mkDataFrame (index df)
                 (map (fun lc => if String.eqb (fst lc) name then (name, c) else lc)
                      (columns df)))
    end.

(** numpy's refusal to assign an array of [n] values to a target of [rows]
    rows and [k] columns: the wording when the target is a slice of the
    block, and when it is picked by a mask. *)
Definition broadcast_message (n rows k : nat) : string :=
  "could not broadcast input array from shape (" +:+ pretty n +:+ ",) into shape ("
    +:+ pretty rows +:+ "," +:+ pretty k +:+ ")".

Definition shape_mismatch_message (n rows k : nat) : string :=
  "shape mismatch: value array of shape (" +:+ pretty n
    +:+ ",) could not be broadcast to indexing result of shape ("
    +:+ pretty rows +:+ "," +:+ pretty k +:+ ")".

Definition dtype_eqb (a b : dtype) : bool :=
  match a, b with
  | float64, float64 | int64, int64 | bool_, bool_ | object_, object_ => true
  | _, _ => false
  end.

(** [Index.is_monotonic_increasing] for labels: no label is followed by a
    smaller one. *)
Fixpoint is_monotonic_increasing (l : list string) : bool :=
  match l with
  | a :: rest =>
      match rest with
      | b :: _ => String.leb a b && is_monotonic_increasing rest
      | [] => true
      end
  | [] => true
  end.

(** The value of [c] at position [j], over [rows] rows. *)
Definition col_constant (c : column) (j rows : nat) : column :=
  match c with
  | Float64 v => Float64 (match v !! j with Some a => replicate rows a | None => [] end)
  | Int64 v => Int64 (match v !! j with Some a => replicate rows a | None => [] end)
  | Bool_ v => Bool_ (match v !! j with Some a => replicate rows a | None => [] end)
  | Object v => Object (match v !! j with Some a => replicate rows a | None => [] end)
  end.

(** An array laid across the columns labelled [name]: the [j]-th of them is
    filled with the [j]-th value of the array, or with its only value. *)
Fixpoint fill_labelled (name : string) (c : column) (rows : nat) (single : bool)
    (j : nat) (cols : list (string * column)) : list (string * column) :=
  match cols with
  | [] => []
  | lc :: rest =>
      if String.eqb (fst lc) name
      then (name, col_constant c (if single then O else j) rows)
             :: fill_labelled name c rows single (S j) rest
      else lc :: fill_labelled name c rows single j rest
  end.

(** Whether the frame is one block that takes the values of [c] as they
    are: pandas keeps the columns of one dtype of a frame in one block. *)
Definition one_block (df : DataFrame) (c : column) : bool :=
  forallb (fun lc => dtype_eqb (col_dtype (snd lc)) (col_dtype c)) (columns df).

(** [df.loc[:, name] = c] for a one-dimensional array [c].  Under a label
    that the frame has once, or not yet, this is [df[name] = c].  Under a
    repeated label the target has a column for every occurrence and the
    array goes across the columns, not down the rows.  In a frame of one
    block numpy broadcasts: an array with as many values as the label has
    columns, or with one value, is laid across them, and any other raises
    [ValueError].  In a frame of several blocks pandas sets the columns one
    by one from an array with as many values as the label has columns, and
    raises [ValueError] for any other, unless the frame has no row and the
    array no value. *)
Definition loc_set_column (df : DataFrame) (name : string) (c : column)
  : result DataFrame :=
  match columns_labelled df name with
  | (_ :: _ :: _) as targets =>
      let n := col_length c in
      let k := length targets in
      let laid single :=
        mkDataFrame (index df) (fill_labelled name c (nrows df) single O (columns df)) in
      if one_block df c then
        if Nat.eqb n k || Nat.eqb n 1 then Ok (laid (Nat.eqb n 1))
        else if is_monotonic_increasing (labels df)
             then Raise (ValueError (broadcast_message n (nrows df) k))
             else Raise (ValueError (shape_mismatch_message n (nrows df) k))
      else
        if Nat.eqb (nrows df) 0 && Nat.eqb n 0 then Ok df
        else if Nat.eqb n k then Ok (laid false)
        else Raise (ValueError
                      "Must have equal len keys and value when setting with an iterable")
  | _ => set_column df name c
  end.

(** [df.drop(columns=names)] builds a new frame and leaves [df] alone. *)
Definition drop_columns (df : DataFrame) (names : list string) : result DataFrame :=
  match List.filter (fun n => negb (existsb (String.eqb n) (labels df))) names with
  | n :: _ => Raise (KeyError n)
  | [] => Ok (mkDataFrame (index df)
                (List.filter (fun lc => negb (existsb (String.eqb (fst lc)) names))
                        (columns df)))
  end.

(** Boolean-mask indexing [xs[mask]]: numpy arrays and [df.loc[mask, :]]. *)
Fixpoint mask_select {A : Type} (mask : list bool) (xs : list A) : list A :=
  match mask, xs with
  | b :: mask', x :: xs' => if b then x :: mask_select mask' xs' else mask_select mask' xs'
  | _, _ => []
  end.

Definition col_mask (mask : list bool) (c : column) : column :=
  match c with
  | Float64 v => Float64 (mask_select mask v)
  | Int64 v => Int64 (mask_select mask v)
  | Bool_ v => Bool_ (mask_select mask v)
  | Object v => Object (mask_select mask v)
  end.

(** [df.loc[mask, :]]: a new frame holding the rows where [mask] is true. *)
Definition loc_rows (mask : list bool) (df : DataFrame) : DataFrame :=
  mkDataFrame (mask_select mask (index df))
              (map (fun lc => (fst lc, col_mask mask (snd lc))) (columns df)).

(** ** Validation helpers *)

(** [get_non_numeric_cols(df)]: the labels whose dtype is not a number. *)
Definition get_non_numeric_cols (df : DataFrame) : list string :=
  let numeric := map issubdtype_number (dtypes df) in
  mask_select (map negb numeric) (labels df).

Definition ambiguous_truth : string :=
  "The truth value of an array with more than one element is ambiguous. Use a.any() or a.all()".

(** The truth value of a numpy array of labels, as [if non_numeric_cols:]
    computes it: an empty array is false (numpy 1.x, with a deprecation
    warning), a one-element array has the truth value of its element (a
    [str] is true unless empty), and a longer array raises [ValueError]. *)
Definition ndarray_bool (a : list string) : result bool :=
  match a with
  | [] => Ok false
  | [x] => Ok (negb (String.eqb x EmptyString))
  | _ => Raise (ValueError ambiguous_truth)
  end.

Definition non_numeric_message (cols : list string) : string :=
  "DataFrame columns " +:+ String.concat ", " cols +:+ " are non numeric".

(** [names + covars] where [covars] may be [None]. *)
Definition concat_none_message : string :=
  "can only concatenate list (not " +:+ dquote +:+ "NoneType" +:+ dquote +:+ ") to list".

Definition list_add (names : list string) (covars : option (list string))
  : result (list string) :=
  match covars with
  | Some cs => Ok (names ++ cs)
  | None => Raise (TypeError concat_none_message)
  end.

(** The design matrix handed to [residuals], kept as the expression that
    builds it. *)
Inductive array_like : Type :=
  | np_ones_like (c : column)
  | frame (d : DataFrame)
  | np_vstack (d : DataFrame)
  | transpose (x : array_like).

(** The binary64 value nearest to an integer. *)
Definition float_of_Z (z : Z) : spec_float := binary_normalize 53 1024 z 0 false.

Section Pipeline.

(** [scona.stats_functions.residuals(x, y)]. *)
Variable residuals : array_like -> column -> result column.
(** [pandas.DataFrame.corr(method=...)] on a frame of floats. *)
Variable corr : string -> DataFrame -> result DataFrame.
(** [float(s)] for a [str]. *)
Variable float_of_string : string -> option spec_float.

(** [create_residuals_df(df, names, covars)]. *)
Definition create_residuals_df (df : DataFrame) (names : list string)
    (covars : option (list string)) : result DataFrame :=
  requested ← list_add names covars;
  (* [names + covars] succeeded, so [covars] is a list from here on *)
  let covars := default [] covars in
  selected ← getitem_list df requested;
  let non_numeric_cols := get_non_numeric_cols selected in
  failed ← ndarray_bool non_numeric_cols;
  if failed : bool then Raise (TypeError (non_numeric_message non_numeric_cols))
  else
    df_res ← getitem_list df names;
    x ← (if Nat.ltb 1 (length covars) then
           sub ← getitem_list df covars; Ok (np_vstack sub)
         else if Nat.eqb (length covars) 1 then
           sub ← getitem_list df covars; Ok (frame sub)
         else
           c ← iloc_col df 0; Ok (np_ones_like c));
    for_each (fun df_res name =>
                y ← loc_col df name;
                r ← residuals (transpose x) y;
                loc_set_column df_res name r)
             names df_res.

(** [float(s)], raising [ValueError] when [s] is not a number. *)
Definition parse_float (s : string) : result spec_float :=
  match float_of_string s with
  | Some f => Ok f
  | None => Raise (ValueError ("could not convert string to float: " +:+ s))
  end.

(** [c.astype(float)]. *)
Definition col_astype_float (c : column) : result column :=
  match c with
  | Float64 v => Ok (Float64 v)
  | Int64 v => Ok (Float64 (map float_of_Z v))
  | Bool_ v => Ok (Float64 (map (fun b : bool => float_of_Z (if b then 1 else 0)) v))
  | Object v => fs ← map_result parse_float v; Ok (Float64 fs)
  end.

(** [df.astype(float)]. *)
Definition astype_float (df : DataFrame) : result DataFrame :=
  cs ← map_result (fun lc => c ← col_astype_float (snd lc); Ok (fst lc, c)) (columns df);
  Ok (mkDataFrame (index df) cs).

(** [create_corrmat(df_res, names, method)]; [names = None] selects every
    column. *)
Definition create_corrmat (df_res : DataFrame) (names : option (list string))
    (method : string) : result DataFrame :=
  let names := match names with None => labels df_res | Some ns => ns end in
  let non_numeric_cols := get_non_numeric_cols df_res in
  failed ← ndarray_bool non_numeric_cols;
  if failed : bool then Raise (TypeError (non_numeric_message non_numeric_cols))
  else
    selected ← getitem_list df_res names;
    floats ← astype_float selected;
    corr method floats.

(** [M.values]: the cells of a frame of floats, row by row. *)
Definition float_cells (c : column) : list spec_float :=
  match c with Float64 v => v | _ => [] end.

Fixpoint rows_of {A : Type} (n : nat) (cols : list (list A)) : list (list A) :=
  match n with
  | O => []
  | S n' => omap head cols :: rows_of n' (map (drop 1) cols)
  end.

Definition frame_values (df : DataFrame) : list (list spec_float) :=
  rows_of (nrows df) (map (fun lc => float_cells (snd lc)) (columns df)).

(** [corrmat_from_regionalmeasures(regional_measures, names, covars, method)]. *)
Definition corrmat_from_regionalmeasures (regional_measures : DataFrame)
    (names : list string) (covars : option (list string)) (method : string)
  : result (list (list spec_float)) :=
  df_res ← create_residuals_df regional_measures names covars;
  M ← create_corrmat df_res (Some names) method;
  Ok (frame_values M).

End Pipeline.

(** ** [pandas.DataFrame.corr]

    The routine is not part of the repository.  It is modelled after
    pandas: the numeric columns are taken as binary64 arrays, every pair of
    columns is reduced to one coefficient over the rows where both values
    are finite, and the coefficient of a pair is stored in both cells of
    the pair.  Pearson's coefficient is computed as [pandas._libs.algos.nancorr]
    does, with Welford's updates in binary64 arithmetic; Spearman's and
    Kendall's statistics of a pair of arrays are section variables. *)














Section Correlation.

(** The two rank statistics of a pair of arrays. *)
Variable spearman_pair : list spec_float -> list spec_float -> spec_float.
Variable kendall_pair : list spec_float -> list spec_float -> spec_float.


End Correlation.

(** ** Group partitioning *)

(** [a == b] between two cells of one column; NaN equals nothing and the
    two zeros are equal. *)
Definition value_eqb (a b : value) : bool :=
  match a, b with
  | VFloat x, VFloat y => SFeqb x y
  | VInt x, VInt y => Z.eqb x y
  | VBool x, VBool y => Bool.eqb x y
  | VStr x, VStr y => String.eqb x y
  | _, _ => false
  end.

(** [set(values)]: a value is added unless an equal one is already there.
    Python fixes no iteration order; the model iterates in insertion
    order. *)
Definition set_add (s : list value) (v : value) : list value :=
  if existsb (value_eqb v) s then s else s ++ [v].

Definition py_set (vs : list value) : list value := fold_left set_add vs [].

(** The loop [for v in vs: d[key(v)] = item(v)] on a dictionary. *)
Definition assign_all {A V : Type} (key : A -> string) (item : A -> V)
    (vs : list A) (d : gmap string V) : gmap string V :=
  fold_left (fun d v => <[key v := item v]> d) vs d.

(** The process-wide random stream: the draws still to come. *)
Definition RandomState : Type := nat -> nat.

Definition next_state (rng : RandomState) : RandomState := fun i => rng (S i).

(** Draw [n] times without replacement from [pool]. *)
Fixpoint draw_all {A : Type} (n : nat) (rng : RandomState) (pool : list A)
  : list A * RandomState :=
  match n with
  | O => ([], rng)
  | S n' =>
      let j := (rng O mod length pool)%nat in
      match pool !! j with
      | None => ([], rng)
      | Some x =>
          let '(rest, rng') := draw_all n' (next_state rng) (take j pool ++ drop (S j) pool) in
          (x :: rest, rng')
      end
  end.

(** [np.random.permutation(xs)]: a shuffled copy of [xs]. *)
Definition permutation {A : Type} (rng : RandomState) (xs : list A)
  : list A * RandomState :=
  draw_all (length xs) rng xs.

Definition np_random_permutation (rng : RandomState) (c : column)
  : column * RandomState :=
  match c with
  | Float64 v => let '(v', r) := permutation rng v in (Float64 v', r)
  | Int64 v => let '(v', r) := permutation rng v in (Int64 v', r)
  | Bool_ v => let '(v', r) := permutation rng v in (Bool_ v', r)
  | Object v => let '(v', r) := permutation rng v in (Object v', r)
  end.

Section Groups.

(** [repr] of a Python float. *)
Variable float_repr : spec_float -> string.

(** ['{}'.format(v)]. *)
Definition py_str (v : value) : string :=
  match v with
  | VFloat f => float_repr f
  | VInt z => pretty z
  | VBool b => if b then "True" else "False"
  | VStr s => s
  end.

(** ['{}_{}'.format(group_var, value)]. *)
Definition group_key (group_var : string) (v : value) : string :=
  group_var +:+ "_" +:+ py_str v.

(** [df[group_var] == value]. *)
Definition eq_mask (c : column) (v : value) : list bool :=
  map (fun x => value_eqb x v) (col_values c).

(** The outcome of a call: the random stream afterwards, the caller's
    frame object afterwards (the argument is mutated in place, not
    copied), and the returned dictionary. *)
Record split_outcome : Type := mkOutcome {
  rng_after : RandomState;
  df_after : DataFrame;
  split_dict : gmap string DataFrame
}.

(** [split_groups(df, group_var, shuffle)]. *)
Definition split_groups (rng : RandomState) (df : DataFrame) (group_var : string)
    (shuffle : bool) : result split_outcome :=
  let group_rand := group_var +:+ "_rand" in
  '(rng, df, group_var) ←
    (if shuffle then
       c ← loc_col df group_var;
       let '(shuffled, rng') := np_random_permutation rng c in
       df' ← set_column df group_rand shuffled;
       Ok (rng', df', group_rand)
     else Ok (rng, df, group_var));
  c ← loc_col df group_var;
  let split_dict :=
    assign_all (group_key group_var) (fun v => loc_rows (eq_mask c v) df)
               (py_set (col_values c)) ∅ in
  (* the frame that [drop] returns is thrown away *)
  _ ← (if shuffle then drop_columns df [group_rand] else Ok df);
  Ok (mkOutcome rng df split_dict).

End Groups.

(** ** Paths and the file system *)

Definition is_slash (c : ascii) : bool := Ascii.eqb c "/"%char.

Fixpoint has_slash (s : string) : bool :=
  match s with
  | EmptyString => false
  | String c s' => is_slash c || has_slash s'
  end.

(** [p[:p.rfind('/') + 1]]: everything up to and including the last slash. *)
Fixpoint head_part (s : string) : string :=
  match s with
  | EmptyString => EmptyString
  | String c s' => if has_slash s then String c (head_part s') else EmptyString
  end.

(** [p[p.rfind('/') + 1:]]: what follows the last slash, [os.path.basename]. *)
Fixpoint os_path_basename (s : string) : string :=
  match s with
  | EmptyString => EmptyString
  | String c s' => if has_slash s then os_path_basename s' else s
  end.

Fixpoint all_slashes (s : string) : bool :=
  match s with
  | EmptyString => true
  | String c s' => is_slash c && all_slashes s'
  end.

(** [s.rstrip('/')]. *)
Fixpoint rstrip_slash (s : string) : string :=
  match s with
  | EmptyString => EmptyString
  | String c s' =>
      match rstrip_slash s' with
      | EmptyString => if is_slash c then EmptyString else String c EmptyString
      | r => String c r
      end
  end.

Definition is_empty (s : string) : bool :=
  match s with EmptyString => true | _ => false end.

(** [os.path.dirname(p)] of [posixpath]. *)
Definition os_path_dirname (p : string) : string :=
  let head := head_part p in
  if negb (is_empty head) && negb (all_slashes head) then rstrip_slash head else head.

(** [p.split('/')]. *)
Fixpoint split_slash (s : string) : list string :=
  match s with
  | EmptyString => [EmptyString]
  | String c s' =>
      if is_slash c then EmptyString :: split_slash s'
      else match split_slash s' with
           | x :: xs => String c x :: xs
           | [] => [String c EmptyString]
           end
  end.

(** A component that names an entry: neither empty nor [.]. *)
Definition proper (c : string) : bool :=
  negb (is_empty c) && negb (String.eqb c ".").

Definition components (p : string) : list string := List.filter proper (split_slash p).

Definition is_absolute (p : string) : bool :=
  match p with String c _ => is_slash c | EmptyString => false end.

(** Where a path leads: the names to follow from the current directory, or
    from the root (written as a first component [/]) for an absolute path.
    The empty path leads nowhere.  Empty and [.] components are skipped;
    [..] and symbolic links are not interpreted. *)
Definition location : Type := list string.

Definition base_of (p : string) : location := if is_absolute p then ["/"] else [].

Definition resolve (p : string) : option location :=
  if is_empty p then None else Some (base_of p ++ components p).

(** The compressed formats that numpy's file opener knows. *)
Inductive codec : Type := gzip | bz2 | lzma.

(** What a regular file holds: text, or a stream of a compressed format
    that decompresses to the text. *)
Inductive file_content : Type :=
  | Text (text : string)
  | Compressed (c : codec) (text : string).

Inductive node : Type :=
  | Dir
  | File (content : file_content).

(** The entries below the current directory and the root, by location. *)
Abbreviation FileSystem := (gmap (list string) node).

Definition is_base (loc : location) : bool :=
  match loc with
  | [] => true
  | [r] => String.eqb r "/"
  | _ => false
  end.

(** The current directory and the root always exist. *)
Definition node_at (fs : FileSystem) (loc : location) : option node :=
  if is_base loc then Some Dir else fs !! loc.

Definition is_dir_node (n : option node) : bool :=
  match n with Some Dir => true | _ => false end.

(** In a file system every entry lies in a directory. *)
Definition tree_closed (fs : FileSystem) : Prop :=
  forall loc n, fs !! loc = Some n ->
                node_at fs (removelast loc) = Some Dir.

(** [os.path.isdir(p)]. *)
Definition os_path_isdir (fs : FileSystem) (p : string) : bool :=
  match resolve p with
  | Some loc => is_dir_node (node_at fs loc)
  | None => false
  end.

(** The pieces of a path between slashes that are not empty; [.] is
    one. *)
Definition pieces (p : string) : list string :=
  List.filter (fun c => negb (is_empty c)) (split_slash p).

(** Whether the last piece of the path is [.]. *)
Definition ends_in_dot (p : string) : bool :=
  match last (pieces p) with
  | Some c => String.eqb c "."
  | None => false
  end.

(** The pieces of a split path up to and including the first one that is
    not empty. *)
Fixpoint through_nonempty (split : list string) : list string :=
  match split with
  | [] => []
  | p :: rest => if is_empty p then p :: through_nonempty rest else [p]
  end.

(** The pieces of a split path up to its [n]-th name, and on to the next
    piece that is not empty. *)
Fixpoint through_next (n : nat) (split : list string) : list string :=
  match split with
  | [] => []
  | p :: rest =>
      if proper p then
        match n with
        | O => p :: through_nonempty rest
        | S n' => p :: through_next n' rest
        end
      else p :: through_next n rest
  end.

(** The path that [os.makedirs(name)] hands to [mkdir] when the [n]-th name
    of [name] is a regular file: the path up to the piece after it. *)
Definition blocked_mkdir (name : string) (n : nat) : string :=
  String.concat "/" (through_next n (split_slash name)).

(** The directories of [todo] are entered below [done], and created when
    missing; a regular file in the way stops the walk. *)
Fixpoint make_each (name : string) (fs : FileSystem) (done todo : location)
  : result unit * FileSystem :=
  match todo with
  | [] => (Ok tt, fs)
  | c :: todo' =>
      let loc := done ++ [c] in
      match node_at fs loc with
      | Some Dir => make_each name fs loc todo'
      | Some (File _) =>
          (Raise (NotADirectoryError
                    (blocked_mkdir name (length done - length (base_of name)))), fs)
      | None => make_each name (<[loc := Dir]> fs) loc todo'
      end
  end.

(** [os.makedirs(name)] with [exist_ok=False].  Where the path leads to a
    regular file, [mkdir] reports that the file exists, unless the path
    ends in [.] and so asks for a directory. *)
Definition os_makedirs (fs : FileSystem) (name : string) : result unit * FileSystem :=
  match resolve name with
  | None => (Raise (FileNotFoundError name), fs)
  | Some loc =>
      match node_at fs loc with
      | Some Dir => (Raise (FileExistsError name), fs)
      | Some (File _) =>
          if ends_in_dot name then
            (Raise (NotADirectoryError
                      (blocked_mkdir name (length (components name) - 1))), fs)
          else (Raise (FileExistsError name), fs)
      | None => make_each name fs (base_of name) (components name)
      end
  end.

(** [open(name, 'w')] followed by the writing of [content] and a close.  A
    name that ends in a slash or in [.] asks for a directory. *)
Definition write_file (fs : FileSystem) (name : string) (content : file_content)
  : result unit * FileSystem :=
  match resolve name with
  | None => (Raise (FileNotFoundError name), fs)
  | Some loc =>
      if proper (os_path_basename name) then
        match node_at fs loc with
        | Some Dir => (Raise (IsADirectoryError name), fs)
        | _ =>
            match node_at fs (removelast loc) with
            | Some Dir => (Ok tt, <[loc := File content]> fs)
            | Some (File _) => (Raise (NotADirectoryError name), fs)
            | None => (Raise (FileNotFoundError name), fs)
            end
        end
      else
        match node_at fs loc with
        | Some Dir => (Raise (IsADirectoryError name), fs)
        | Some (File _) => (Raise (NotADirectoryError name), fs)
        | None =>
            if is_empty (os_path_basename name)
            then (Raise (IsADirectoryError name), fs)
            else (Raise (FileNotFoundError name), fs)
        end
  end.

(** [open(name).read()]: the text of a file that holds text. *)
Definition read_text (fs : FileSystem) (name : string) : option string :=
  match resolve name with
  | Some loc => match node_at fs loc with Some (File (Text t)) => Some t | _ => None end
  | None => None
  end.

(** ** The extension of a file name *)

Definition is_dot (c : ascii) : bool := Ascii.eqb c "."%char.

Fixpoint has_dot (s : string) : bool :=
  match s with
  | EmptyString => false
  | String c s' => is_dot c || has_dot s'
  end.

Fixpoint all_dots (s : string) : bool :=
  match s with
  | EmptyString => true
  | String c s' => is_dot c && all_dots s'
  end.

(** [s[:s.rfind('.')]]: what precedes the last dot. *)
Fixpoint before_last_dot (s : string) : string :=
  match s with
  | EmptyString => EmptyString
  | String c s' => if has_dot s' then String c (before_last_dot s') else EmptyString
  end.

(** [s[s.rfind('.'):]]: the last dot and what follows it. *)
Fixpoint from_last_dot (s : string) : string :=
  match s with
  | EmptyString => EmptyString
  | String c s' =>
      if has_dot s' then from_last_dot s' else if is_dot c then s else EmptyString
  end.

(** [os.path.splitext(p)[1]]: the extension of the last name of the path;
    leading dots of that name do not start an extension. *)
Definition os_path_splitext_ext (p : string) : string :=
  let b := os_path_basename p in
  if all_dots (before_last_dot b) then EmptyString else from_last_dot b.

(** The opener that [numpy.lib._datasource] picks for a file name. *)
Definition file_opener (name : string) : option codec :=
  let ext := os_path_splitext_ext name in
  if String.eqb ext ".gz" then Some gzip
  else if String.eqb ext ".bz2" then Some bz2
  else if String.eqb ext ".xz" || String.eqb ext ".lzma" then Some lzma
  else None.

(** What a file of that name holds once [text] was written through its
    opener. *)
Definition written (name : string) (text : string) : file_content :=
  match file_opener name with
  | None => Text text
  | Some c => Compressed c text
  end.

(** ** Writing the matrix *)

(** The decimal digit [d mod 10] as a character. *)
Definition digit_char (d : Z) : ascii := ascii_of_nat (48 + Z.to_nat (d mod 10)).

(** The last [k] decimal digits of [n], most significant first. *)
Fixpoint fixed_digits (k : nat) (n : Z) : string :=
  match k with
  | O => EmptyString
  | S k' => fixed_digits k' (n / 10) +:+ String (digit_char n) EmptyString
  end.

(** The integer nearest to [num / den], ties to even ([den > 0]). *)
Definition round_half_even (num den : Z) : Z :=
  let q := num / den in
  let r := num mod den in
  match Z.compare (2 * r) den with
  | Lt => q
  | Gt => q + 1
  | Eq => if Z.even q then q else q + 1
  end.

(** The magnitude [m * 2^e], in units of [10^-5], correctly rounded. *)
Definition scaled_magnitude (m : positive) (e : Z) : Z :=
  if 0 <=? e then Z.pos m * 2 ^ e * 100000
  else round_half_even (Z.pos m * 100000) (2 ^ (- e)).

(** ['%.5f' % x] for a binary64 value. *)
Definition format_5f (x : spec_float) : string :=
  match x with
  | S754_nan => "nan"
  | S754_infinity s => if s then "-inf" else "inf"
  | S754_zero s => (if s then "-" else EmptyString) +:+ "0.00000"
  | S754_finite s m e =>
      let n := scaled_magnitude m e in
      (if s then "-" else EmptyString)
        +:+ pretty (n / 100000) +:+ "." +:+ fixed_digits 5 (n mod 100000)
  end.

(** How often a character occurs in a string. *)
Fixpoint count_char (c : ascii) (s : string) : nat :=
  match s with
  | EmptyString => O
  | String d s' => ((if Ascii.eqb d c then 1 else 0) + count_char c s')%nat
  end.

Definition newline_char : ascii := ascii_of_nat 10.

(** One line of [np.savetxt]: the cells joined by the delimiter. *)
Definition format_row (delimiter : string) (row : list spec_float) : string :=
  String.concat delimiter (map format_5f row).

(** The text [np.savetxt] writes for a two-dimensional array: no header, no
    footer, every row followed by [newline]. *)
Definition savetxt_text (delimiter newline : string) (M : list (list spec_float)) : string :=
  String.concat EmptyString (map (fun row => format_row delimiter row +:+ newline) M).

Section Saving.

(** [DataSource._isurl(name)] of numpy: whether [urllib.parse] finds a
    scheme and a net location in the name; [urllib.parse] raises
    [ValueError] on a net location it cannot accept. *)
Variable isurl : string -> result bool.

(** [np.savetxt(name, M, fmt='%.5f', delimiter=..., newline=...)]: the
    file is created empty; numpy then refuses a name that is a URL, and
    otherwise opens the file again through the opener of its extension and
    writes the text. *)
Definition np_savetxt (fs : FileSystem) (name : string) (M : list (list spec_float))
    (delimiter newline : string) : result unit * FileSystem :=
  let '(created, fs) := write_file fs name (Text EmptyString) in
  match created with
  | Raise e => (Raise e, fs)
  | Ok _ =>
      match isurl name with
      | Raise e => (Raise e, fs)
      | Ok true => (Raise (ValueError "URLs are not writeable"), fs)
      | Ok false => write_file fs name (written name (savetxt_text delimiter newline M))
      end
  end.

(** [save_mat(M, name)], the same in [scona] and in the older scripts
    module: the outcome and the file system afterwards. *)
Definition save_mat (fs : FileSystem) (M : list (list spec_float)) (name : string)
  : result unit * FileSystem :=
  let dirname := os_path_dirname name in
  let '(made, fs) :=
    if negb (os_path_isdir fs dirname) then os_makedirs fs dirname else (Ok tt, fs) in
  match made with
  | Raise e => (Raise e, fs)
  | Ok _ => np_savetxt fs name M tab newline
  end.

End Saving.

(** ** Sample data *)

Definition f_one : spec_float := S754_finite false 4503599627370496 (-52).
Definition f_half : spec_float := S754_finite false 4503599627370496 (-53).
Definition f_two : spec_float := S754_finite false 4503599627370496 (-51).

Definition sample_matrix : list (list spec_float) :=
  [[f_one; f_half]; [f_half; f_one]].

Definition empty_fs : FileSystem := ∅.


Definition two_text_columns : DataFrame :=
  {| index := RangeIndex 2;
     columns := [("a", Object ["x"; "y"]); ("b", Object ["u"; "v"])] |}.

Definition one_text_column : DataFrame :=
  {| index := RangeIndex 2;
     columns := [("a", Float64 [f_one; f_two]); ("b", Object ["x"; "y"])] |}.

(** The rows of a frame: each row label with the cells of that row. *)
Definition rows (df : DataFrame) : list (value * list value) :=
  combine (index df)
          (rows_of (nrows df) (map (fun lc => col_values (snd lc)) (columns df))).

Definition is_float (v : value) : bool :=
  match v with VFloat _ => true | _ => false end.

(** On these values [==] is identity: none is NaN, and the two zeros of
    opposite sign do not both occur. *)
Definition eq_is_identity (vals : list value) : Prop :=
  forall v w, In v vals -> In w vals -> (value_eqb v w = true <-> v = w).

(** Different values among these print differently. *)
Definition prints_apart (float_repr : spec_float -> string) (vals : list value) : Prop :=
  forall v w, In v vals -> In w vals ->
              py_str float_repr v = py_str float_repr w -> v = w.

Definition nan_groups : DataFrame :=
  {| index := RangeIndex 2;
     columns := [("group", Float64 [f_one; S754_nan]);
                 ("thickness", Float64 [f_half; f_two])] |}.

Definition sample_groups : DataFrame :=
  {| index := RangeIndex 5;
     columns := [("group", Object ["A"; "A"; "B"; "B"; "B"]);
                 ("thickness", Float64 [f_one; f_two; f_half; f_one; f_two])] |}.

Definition sample_measures : DataFrame :=
  {| index := RangeIndex 3;
     columns := [("region_a", Float64 [f_one; f_two; f_half]);
                 ("region_b", Float64 [f_half; f_one; f_two]);
                 ("age", Int64 [21; 34; 55])] |}.

(** A stand-in for [DataSource._isurl]: the names of the samples have no
    scheme. *)
Definition no_url (name : string) : result bool := Ok false.

(** A stand-in for the regression routine: a perfect fit, all residuals
    zero. *)
Definition perfect_fit (x : array_like) (y : column) : result column :=
  Ok (Float64 (map (fun _ => S754_zero false) (col_values y))).

(** A stand-in for [repr] on floats: five decimals. *)
Definition fixed_repr (f : spec_float) : string := format_5f f.

(** ** The older scripts module and its command-line wrapper

    [src/BrainNetworksInPython/scripts/make_corr_matrices.py] holds an
    earlier [create_residuals_df] and [create_corrmat], without validation;
    its [save_mat] is the one above.  The wrapper
    [wrappers/corrmat_from_regionalmeasures.py] imports that module. *)

Module Scripts.

Section Pipeline.

Variable residuals : array_like -> column -> result column.
Variable corr : string -> DataFrame -> result DataFrame.

(** [create_residuals_df(df, names, covars_list)]: the residuals are
    written into a copy of the whole frame. *)
Definition create_residuals_df (df : DataFrame) (names covars_list : list string)
  : result DataFrame :=
  let df_res := df in
  x ← (if Nat.ltb 1 (length covars_list) then
         sub ← getitem_list df covars_list; Ok (np_vstack sub)
       else if Nat.eqb (length covars_list) 1 then
         sub ← getitem_list df covars_list; Ok (frame sub)
       else
         c ← iloc_col df 0; Ok (np_ones_like c));
  for_each (fun df_res name =>
              y ← loc_col df name;
              r ← residuals (transpose x) y;
              loc_set_column df_res name r)
           names df_res.

(** [create_corrmat(df_residuals, names, method)]. *)
Definition create_corrmat (df_residuals : DataFrame) (names : list string)
    (method : string) : result DataFrame :=
  selected ← getitem_list df_residuals names;
  corr method selected.

End Pipeline.

End Scripts.

Module Wrappers.

Section CommandLine.

(** [useful_functions.read_in_data]: the frame, the region names and the
    covariate names read from the files; it only reads. *)
Variable read_in_data :
  FileSystem -> string -> string -> option string -> bool ->
  result (DataFrame * list string * list string).
Variable residuals : array_like -> column -> result column.
Variable corr : string -> DataFrame -> result DataFrame.
Variable isurl : string -> result bool.

(** [corrmat_from_regionalmeasures(regional_measures_file, names_file,
    output_name, covars_file, names_308_style, method)] of the wrapper: the
    outcome and the file system afterwards. *)
Definition corrmat_from_regionalmeasures (fs : FileSystem)
    (regional_measures_file names_file output_name : string)
    (covars_file : option string) (names_308_style : bool) (method : string)
  : result unit * FileSystem :=
  match read_in_data fs regional_measures_file names_file covars_file names_308_style with
  | Raise e => (Raise e, fs)
  | Ok (df, names, covars_list) =>
      match Scripts.create_residuals_df residuals df names covars_list with
      | Raise e => (Raise e, fs)
      | Ok df_res =>
          match Scripts.create_corrmat corr df_res names method with
          | Raise e => (Raise e, fs)
          | Ok M => save_mat isurl fs (frame_values M) output_name
          end
      end
  end.

End CommandLine.

End Wrappers.

(** Further sample data. *)

Definition flagged_measures : DataFrame :=
  {| index := RangeIndex 3;
     columns := [("region_a", Float64 [f_one; f_two; f_half]);
                 ("region_b", Float64 [f_half; f_one; f_two]);
                 ("male", Bool_ [true; false; true])] |}.

(** The columns [cols] once every column whose label is among [names] has
    been replaced by the column [r] gives for its label. *)
Definition replace_columns (r : string -> column) (names : list string)
    (cols : list (string * column)) : list (string * column) :=
  map (fun lc => if existsb (String.eqb (fst lc)) names then (fst lc, r (fst lc)) else lc)
      cols.

(** The design matrix that [create_residuals_df] builds, as a relation
    between the frame, the covariates and the array. *)
Definition design_of (df : DataFrame) (covars : list string) (x : array_like) : Prop :=
  match covars with
  | [] => exists c, iloc_col df 0 = Ok c /\ x = np_ones_like c
  | [_] => exists sub, getitem_list df covars = Ok sub /\ x = frame sub
  | _ => exists sub, getitem_list df covars = Ok sub /\ x = np_vstack sub
  end.

(** The residual of the column labelled [n], when there is one. *)
Definition residual_of (residuals : array_like -> column -> result column)
    (df : DataFrame) (x : array_like) (n : string) : column :=
  match loc_col df n with
  | Ok y => match residuals x y with Ok r => r | Raise _ => Float64 [] end
  | Raise _ => Float64 []
  end.

(** A frame of residuals: float columns only. *)
Definition residual_sample : DataFrame :=
  {| index := RangeIndex 3;
     columns := [("region_a", Float64 [f_half; f_one; f_two]);
                 ("region_b", Float64 [f_two; f_half; f_one])] |}.

(** A stand-in for [DataFrame.corr]: the frame itself. *)
Definition echo_corr (method : string) (df : DataFrame) : result DataFrame := Ok df.

(** A frame whose only column holds numbers as text under an empty
    label. *)
Definition unlabelled_text (idx : list value) (cells : list string) : DataFrame :=
  {| index := idx; columns := [(EmptyString, Object cells)] |}.

(** A stand-in for [float] on the texts of the samples. *)
Definition sample_float_of_string (s : string) : option spec_float :=
  if String.eqb s "1.0" then Some f_one
  else if String.eqb s "0.5" then Some f_half
  else if String.eqb s "2.0" then Some f_two
  else None.

(** A stand-in for the reader of the command-line wrapper: the sample
    measures, two regions and one covariate, whatever the files. *)
Definition sample_reader (fs : FileSystem) (regional_measures_file names_file : string)
    (covars_file : option string) (names_308_style : bool)
  : result (DataFrame * list string * list string) :=
  Ok (sample_measures, ["region_a"; "region_b"], ["age"]).

(** A frame that already has a column under the label that shuffling
    uses. *)
Definition taken_rand_label : DataFrame :=
  {| index := RangeIndex 3;
     columns := [("group", Object ["A"; "B"; "A"]);
                 ("group_rand", Float64 [f_one; f_two; f_half]);
                 ("thickness", Float64 [f_half; f_half; f_one])] |}.

(** A file system with a regular file where [save_mat] would need a
    directory. *)
Definition blocked_fs : FileSystem := {[ ["out"] := File (Text "notes") ]}.

(** Discharges [Forall] side conditions over the columns of a literal
    frame. *)
Ltac literal_columns :=
  repeat (apply List.Forall_cons;
          [eexists; first [split; [simpl; eauto 10|reflexivity] | simpl; eauto 10]|]);
  apply List.Forall_nil.

Ltac literal_nodup := repeat constructor; simpl; intuition discriminate.






(** * Properties *)

(** ** The default covariates *)

Lemma list_add_None names : list_add names None = Raise (TypeError concat_none_message).
Proof. reflexivity. Qed.

(** C9: with [covars] left at [None], [corrmat_from_regionalmeasures] raises
    the [TypeError] of the list concatenation [names + covars], whatever
    the frame, the names, the method and the numerical routines are: no
    validation and no computation is reached, and no matrix is produced. *)
Theorem corrmat_default_covars_raises :
  forall residuals corr float_of_string regional_measures names method,
    corrmat_from_regionalmeasures residuals corr float_of_string
      regional_measures names None method
    = Raise (TypeError concat_none_message).
Proof.
  intros. unfold corrmat_from_regionalmeasures, create_residuals_df.
  rewrite list_add_None. reflexivity.
Qed.

(** ** Bare file names *)

Lemma head_part_no_slash s : has_slash s = false -> head_part s = EmptyString.
Proof. destruct s as [|c s]; simpl; [reflexivity|]. intros ->. reflexivity. Qed.

Lemma dirname_no_slash s : has_slash s = false -> os_path_dirname s = EmptyString.
Proof. intros H. unfold os_path_dirname. rewrite (head_part_no_slash _ H). reflexivity. Qed.

(** C10: for a destination without a directory part, [os.path.dirname] is
    the empty string, [os.makedirs] raises [FileNotFoundError] on it, and
    [save_mat] leaves the file system as it was: no file is written. *)
Theorem save_mat_bare_filename_raises :
  forall isurl fs M name,
    has_slash name = false ->
    os_path_dirname name = EmptyString /\
    os_path_isdir fs "." = true /\
    save_mat isurl fs M name = (Raise (FileNotFoundError EmptyString), fs).
Proof.
  intros isurl fs M name H. pose proof (dirname_no_slash _ H) as Hd.
  split; [exact Hd|]. split; [reflexivity|].
  unfold save_mat. rewrite Hd. reflexivity.
Qed.

Lemma save_mat_bare_filename_witness :
  has_slash "m.txt" = false /\
  save_mat no_url empty_fs sample_matrix "m.txt"
  = (Raise (FileNotFoundError EmptyString), empty_fs).
Proof.
  split; [reflexivity|].
  apply (save_mat_bare_filename_raises no_url empty_fs sample_matrix "m.txt"). reflexivity.
Defined.

(** ** Validation of the requested columns *)

Section Validation.

Variable residuals : array_like -> column -> result column.
Variable corr : string -> DataFrame -> result DataFrame.
Variable float_of_string : string -> option spec_float.

(** When the requested columns hold exactly one offender with a non-empty
    label, the residual step raises the [TypeError] naming it, and the
    numerical routine is not consulted. *)
Lemma create_residuals_df_one_offender df names covars selected bad :
  getitem_list df (names ++ covars) = Ok selected ->
  get_non_numeric_cols selected = [bad] ->
  bad <> EmptyString ->
  create_residuals_df residuals df names (Some covars)
  = Raise (TypeError ("DataFrame columns " +:+ bad +:+ " are non numeric")).
Proof.
  intros Hsel Hbad Hne. unfold create_residuals_df. simpl.
  rewrite Hsel. simpl. rewrite Hbad. simpl.
  destruct (String.eqb_spec bad EmptyString) as [->|_]; [contradiction|reflexivity].
Qed.

(** With two or more offenders the truth value of the array is ambiguous
    and the step raises [ValueError] instead. *)
Lemma create_residuals_df_many_offenders df names covars selected b1 b2 bs :
  getitem_list df (names ++ covars) = Ok selected ->
  get_non_numeric_cols selected = b1 :: b2 :: bs ->
  create_residuals_df residuals df names (Some covars)
  = Raise (ValueError ambiguous_truth).
Proof.
  intros Hsel Hbad. unfold create_residuals_df. simpl.
  rewrite Hsel. simpl. rewrite Hbad. reflexivity.
Qed.

Lemma create_corrmat_one_offender df_res names method bad :
  get_non_numeric_cols df_res = [bad] ->
  bad <> EmptyString ->
  create_corrmat corr float_of_string df_res names method
  = Raise (TypeError ("DataFrame columns " +:+ bad +:+ " are non numeric")).
Proof.
  intros Hbad Hne. unfold create_corrmat. rewrite Hbad. simpl.
  destruct (String.eqb_spec bad EmptyString) as [->|_]; [contradiction|reflexivity].
Qed.

Lemma create_corrmat_many_offenders df_res names method b1 b2 bs :
  get_non_numeric_cols df_res = b1 :: b2 :: bs ->
  create_corrmat corr float_of_string df_res names method
  = Raise (ValueError ambiguous_truth).
Proof. intros Hbad. unfold create_corrmat. rewrite Hbad. reflexivity. Qed.

(** When every column of the frame is numeric, [create_corrmat] is
    [DataFrame.corr] on the selected columns cast to float. *)
Lemma create_corrmat_delegates df_res names method selected floats :
  get_non_numeric_cols df_res = [] ->
  getitem_list df_res (match names with None => labels df_res | Some ns => ns end)
  = Ok selected ->
  astype_float float_of_string selected = Ok floats ->
  create_corrmat corr float_of_string df_res names method = corr method floats.
Proof.
  intros Hnum Hsel Hfl. unfold create_corrmat. rewrite Hnum. simpl.
  rewrite Hsel. simpl. rewrite Hfl. reflexivity.
Qed.

(** C1: on a frame whose two requested columns [a] and [b] both hold text,
    the validation of [create_residuals_df] and the one of [create_corrmat]
    raise [ValueError] (the ambiguous truth value of a two-element array),
    not the [TypeError] listing [a, b] that the specification and the
    docstring promise. *)
Theorem validation_two_offenders_value_error :
  get_non_numeric_cols two_text_columns = ["a"; "b"] /\
  create_residuals_df residuals two_text_columns ["a"; "b"] (Some [])
  = Raise (ValueError ambiguous_truth) /\
  create_corrmat corr float_of_string two_text_columns (Some ["a"; "b"]) "pearson"
  = Raise (ValueError ambiguous_truth).
Proof. repeat split; reflexivity. Qed.

(** C3: [create_corrmat] validates the whole frame, not the selection: with
    the numeric column [a] selected and the text column [b] left out, the
    selection passes the check on its own, yet the call raises the
    [TypeError] naming [b]. *)
Theorem create_corrmat_checks_unselected_columns :
  (exists selected, getitem_list one_text_column ["a"] = Ok selected /\
                    get_non_numeric_cols selected = []) /\
  create_corrmat corr float_of_string one_text_column (Some ["a"]) "pearson"
  = Raise (TypeError "DataFrame columns b are non numeric").
Proof.
  split; [|reflexivity].
  eexists. split; reflexivity.
Qed.

End Validation.

(** ** The shape of the residual frame *)

Lemma filter_label_unique (l : list (string * column)) n c :
  List.NoDup (map fst l) -> In (n, c) l ->
  List.filter (fun lc => String.eqb (fst lc) n) l = [(n, c)].
Proof.
  induction l as [|[m d] l IH]; simpl; intros Hnd Hin; [contradiction|].
  apply List.NoDup_cons_iff in Hnd as [Hfresh Hnd].
  destruct Hin as [Heq|Hin].
  - inversion Heq; subst. rewrite String.eqb_refl. f_equal.
    clear IH Hnd. induction l as [|[m d] l IH]; simpl; [reflexivity|].
    simpl in Hfresh. destruct (String.eqb_spec m n) as [->|_].
    + exfalso. apply Hfresh. now left.
    + apply IH. intros H. apply Hfresh. now right.
  - destruct (String.eqb_spec m n) as [->|_].
    + exfalso. apply Hfresh. change n with (fst (n, c)). now apply List.in_map.
    + now apply IH.
Qed.

Lemma columns_labelled_unique df n c :
  List.NoDup (labels df) -> In (n, c) (columns df) -> columns_labelled df n = [(n, c)].
Proof. apply filter_label_unique. Qed.

Lemma loc_col_unique df n c :
  List.NoDup (labels df) -> In (n, c) (columns df) -> loc_col df n = Ok c.
Proof.
  intros Hnd Hin. unfold loc_col. now rewrite (columns_labelled_unique _ _ _ Hnd Hin).
Qed.

Lemma select_columns_ok df names :
  List.NoDup (labels df) ->
  Forall (fun n => exists c, In (n, c) (columns df)) names ->
  exists cs, select_columns df names = Ok cs /\ map fst cs = names /\
             Forall (fun lc => In lc (columns df)) cs.
Proof.
  intros Hnd. induction 1 as [|n names [c Hc] _ [cs (Hcs & Hfst & Hin)]]; simpl.
  - exists []. repeat split; constructor.
  - rewrite (columns_labelled_unique _ _ _ Hnd Hc), Hcs. simpl.
    exists ((n, c) :: cs). split; [reflexivity|]. split; [simpl; now rewrite Hfst|now constructor].
Qed.

(** The labels returned by [get_non_numeric_cols] are those of the columns
    whose dtype is not a number, in frame order. *)
Lemma get_non_numeric_cols_filter df :
  get_non_numeric_cols df
  = map fst (List.filter (fun lc => negb (issubdtype_number (col_dtype (snd lc))))
                         (columns df)).
Proof.
  unfold get_non_numeric_cols, dtypes, labels.
  induction (columns df) as [|[n c] l IH]; simpl; [reflexivity|].
  destruct (issubdtype_number (col_dtype c)); simpl; now rewrite IH.
Qed.

Lemma get_non_numeric_cols_nil df :
  Forall (fun lc => issubdtype_number (col_dtype (snd lc)) = true) (columns df) ->
  get_non_numeric_cols df = [].
Proof.
  intros H. rewrite get_non_numeric_cols_filter.
  induction H as [|lc l Hlc _ IH]; simpl; [reflexivity|]. now rewrite Hlc.
Qed.

Lemma set_column_present df name c :
  In name (labels df) -> col_length c = nrows df ->
  set_column df name c
  = Ok (mkDataFrame (index df)
          (map (fun lc => if String.eqb (fst lc) name then (name, c) else lc) (columns df))).
Proof.
  intros Hin Hlen. unfold set_column. rewrite Hlen, Nat.eqb_refl. simpl.
  destruct (columns_labelled df name) as [|lc l] eqn:E; [|reflexivity].
  exfalso. unfold labels in Hin. apply List.in_map_iff in Hin as ([m d] & Hm & Hin).
  simpl in Hm; subst m.
  assert (In (name, d) (columns_labelled df name)) as Hmem.
  { apply List.filter_In. split; [exact Hin|apply String.eqb_refl]. }
  now rewrite E in Hmem.
Qed.

Lemma replace_labels name c (l : list (string * column)) :
  map fst (map (fun lc => if String.eqb (fst lc) name then (name, c) else lc) l) = map fst l.
Proof.
  induction l as [|[m d] l IH]; simpl; [reflexivity|]. rewrite IH. f_equal.
  destruct (String.eqb_spec m name); simpl; congruence.
Qed.

(** Under unique labels the two ways of assigning a column agree. *)
Lemma loc_set_column_unique df name c :
  List.NoDup (labels df) -> loc_set_column df name c = set_column df name c.
Proof.
  intros Hnd. unfold loc_set_column.
  destruct (columns_labelled df name) as [|[m d] [|lc l]] eqn:E; try reflexivity.
  exfalso.
  assert (In (m, d) (columns_labelled df name)) as Hin by (rewrite E; now left).
  apply List.filter_In in Hin as [Hin Hm]. simpl in Hm. apply String.eqb_eq in Hm. subst m.
  rewrite (columns_labelled_unique _ _ _ Hnd Hin) in E. discriminate.
Qed.

Lemma loc_set_column_present df name c :
  List.NoDup (labels df) -> In name (labels df) -> col_length c = nrows df ->
  loc_set_column df name c
  = Ok (mkDataFrame (index df)
          (map (fun lc => if String.eqb (fst lc) name then (name, c) else lc) (columns df))).
Proof.
  intros Hnd Hin Hlen. rewrite (loc_set_column_unique _ _ _ Hnd).
  now apply set_column_present.
Qed.

(** Under a repeated label the assignment through [.loc] fails for an
    array of two or more values that has not one value for every column
    under the label. *)
Lemma loc_set_column_repeated df name c lc1 lc2 rest :
  columns_labelled df name = lc1 :: lc2 :: rest ->
  (1 < col_length c)%nat ->
  col_length c <> S (S (length rest)) ->
  exists msg, loc_set_column df name c = Raise (ValueError msg).
Proof.
  intros E Hn Hk. unfold loc_set_column. rewrite E. cbv zeta.
  change (length (lc1 :: lc2 :: rest)) with (S (S (length rest))).
  assert (Nat.eqb (col_length c) (S (S (length rest))) = false) as ->
    by now apply Nat.eqb_neq.
  assert (Nat.eqb (col_length c) 1 = false) as -> by (apply Nat.eqb_neq; lia).
  assert (Nat.eqb (col_length c) 0 = false) as -> by (apply Nat.eqb_neq; lia).
  rewrite andb_false_r. simpl.
  destruct (one_block df c); [destruct (is_monotonic_increasing (labels df))|];
    eexists; reflexivity.
Qed.

Section Residuals.

Variable residuals : array_like -> column -> result column.

(** The loop over [names]: each pass replaces one column of [df_res] and
    keeps its labels, row labels and shape. *)
Lemma residual_loop_shape df x names df_res :
  Forall (fun n => In n (labels df_res) /\
                   exists y r, loc_col df n = Ok y /\ residuals x y = Ok r /\
                               col_length r = nrows df_res) names ->
  List.NoDup (labels df_res) ->
  well_formed df_res ->
  exists out,
    for_each (fun df_res name =>
                y ← loc_col df name; r ← residuals x y; loc_set_column df_res name r)
             names df_res = Ok out /\
    labels out = labels df_res /\ index out = index df_res /\ well_formed out.
Proof.
  intros H. revert df_res H.
  induction names as [|n names IH]; intros df_res H Hnd Hwf; simpl.
  - exists df_res. repeat split; assumption.
  - apply List.Forall_cons_iff in H as [(Hin & y & r & Hy & Hr & Hlen) H].
    rewrite Hy. simpl. rewrite Hr. simpl.
    rewrite (loc_set_column_present _ _ _ Hnd Hin Hlen). simpl.
    set (df1 := mkDataFrame _ _).
    assert (labels df1 = labels df_res) as Hl by apply replace_labels.
    destruct (IH df1) as (out & Hout & Hlab & Hidx & Hwf').
    + eapply List.Forall_impl; [|exact H]. intros m (Hm & Hm'). split; [now rewrite Hl|exact Hm'].
    + now rewrite Hl.
    + unfold well_formed, df1. simpl. apply List.Forall_map.
      eapply List.Forall_impl; [|exact Hwf]. intros [m d] Hd. simpl in *.
      destruct (String.eqb m n); simpl; [exact Hlen|exact Hd].
    + exists out. repeat split; [exact Hout|congruence|exact Hidx|exact Hwf'].
Qed.

(** C4 (amended): on a well-formed frame with unique labels whose requested
    columns exist and are numeric, for a non-empty list of region names
    that names no region twice and any list of covariates (none, one or
    several), and with a [residuals] routine that returns one value per
    observation, [create_residuals_df] returns a frame whose labels are
    exactly the region names, in order, and whose row labels (hence row
    count and row order) are those of the input. *)
Theorem create_residuals_df_shape :
  forall df names covars,
    well_formed df ->
    List.NoDup (labels df) ->
    names <> [] ->
    List.NoDup names ->
    Forall (fun n => exists c, In (n, c) (columns df) /\
                               issubdtype_number (col_dtype c) = true)
           (names ++ covars) ->
    (forall x n y, In n names -> loc_col df n = Ok y ->
                   exists r, residuals x y = Ok r /\ col_length r = col_length y) ->
    exists df_res,
      create_residuals_df residuals df names (Some covars) = Ok df_res /\
      labels df_res = names /\
      index df_res = index df /\
      nrows df_res = nrows df /\
      well_formed df_res.
Proof.
  intros df names covars Hwf Hnd Hne Hnames Hreq Hres.
  assert (Forall (fun n => exists c, In (n, c) (columns df)) (names ++ covars)) as Hex.
  { eapply List.Forall_impl; [|exact Hreq]. intros n (c & Hc & _). now exists c. }
  destruct (select_columns_ok df _ Hnd Hex) as (sel & Hsel & Hsel_l & Hsel_in).
  pose proof Hex as Hex'. apply List.Forall_app in Hex' as [Hex_n Hex_c].
  destruct (select_columns_ok df _ Hnd Hex_n) as (cs & Hcs & Hcs_l & Hcs_in).
  destruct (select_columns_ok df _ Hnd Hex_c) as (cv & Hcv & _ & _).
  unfold create_residuals_df, getitem_list. simpl.
  rewrite Hsel. simpl.
  rewrite get_non_numeric_cols_nil; simpl.
  2:{ rewrite List.Forall_forall in Hsel_in, Hreq. apply List.Forall_forall.
      intros [n c] Hin. simpl.
      assert (In n (names ++ covars)) as Hn.
      { rewrite <- Hsel_l. change n with (fst (n, c)). now apply List.in_map. }
      destruct (Hreq _ Hn) as (c' & Hc' & Hnum).
      pose proof (loc_col_unique _ _ _ Hnd Hc') as E1.
      pose proof (loc_col_unique _ _ _ Hnd (Hsel_in _ Hin)) as E2.
      congruence. }
  rewrite Hcs. simpl.
  assert (exists x, (if Nat.ltb 1 (length covars)
                     then sub ← (cs0 ← select_columns df covars;
                                 Ok (mkDataFrame (index df) cs0)); Ok (np_vstack sub)
                     else if Nat.eqb (length covars) 1
                          then sub ← (cs0 ← select_columns df covars;
                                      Ok (mkDataFrame (index df) cs0)); Ok (frame sub)
                          else c ← iloc_col df 0; Ok (np_ones_like c)) = Ok x) as [x Hx].
  { rewrite Hcv. simpl.
    destruct (Nat.ltb 1 (length covars)); [eexists; reflexivity|].
    destruct (Nat.eqb (length covars) 1); [eexists; reflexivity|].
    unfold iloc_col. destruct names as [|n names]; [contradiction|].
    apply List.Forall_cons_iff in Hex_n as [[c Hc] _].
    destruct (columns df) as [|lc l]; [contradiction|]. simpl. eexists; reflexivity. }
  rewrite Hx. simpl.
  set (df0 := mkDataFrame (index df) cs).
  destruct (residual_loop_shape df (transpose x) names df0) as (out & Hout & Hl & Hi & Hw).
  - rewrite List.Forall_forall in Hex_n. apply List.Forall_forall. intros n Hn.
    split; [unfold labels, df0; simpl; now rewrite Hcs_l|].
    destruct (Hex_n _ Hn) as [c Hc].
    pose proof (loc_col_unique _ _ _ Hnd Hc) as Hy.
    destruct (Hres (transpose x) n c Hn Hy) as (r & Hr & Hlen).
    exists c, r. repeat split; [exact Hy|exact Hr|].
    rewrite Hlen. pose proof Hwf as Hwf0. unfold well_formed in Hwf0. rewrite List.Forall_forall in Hwf0.
    apply (Hwf0 _ Hc).
  - unfold labels, df0. simpl. now rewrite Hcs_l.
  - unfold well_formed in *. unfold df0. simpl. rewrite List.Forall_forall in Hcs_in, Hwf.
    apply List.Forall_forall. intros lc Hlc. apply Hwf, Hcs_in, Hlc.
  - exists out. repeat split; [exact Hout|now rewrite Hl|exact Hi| |exact Hw].
    unfold nrows. now rewrite Hi.
Qed.

End Residuals.

Lemma create_residuals_df_shape_witness :
  exists df_res,
    create_residuals_df perfect_fit sample_measures ["region_a"; "region_b"] (Some ["age"])
    = Ok df_res /\
    labels df_res = ["region_a"; "region_b"] /\
    index df_res = RangeIndex 3 /\
    nrows df_res = 3%nat /\
    well_formed df_res.
Proof.
  apply (create_residuals_df_shape perfect_fit sample_measures
           ["region_a"; "region_b"] ["age"]).
  - repeat constructor.
  - repeat constructor; simpl; intuition discriminate.
  - discriminate.
  - repeat constructor; simpl; intuition discriminate.
  - repeat (apply List.Forall_cons;
            [eexists; split; [simpl; eauto 10|reflexivity]|]).
    apply List.Forall_nil.
  - intros x n y _ _. eexists. split; [reflexivity|].
    unfold col_length. simpl. now rewrite !length_map.
Defined.

(** C4, the input on which the sentence fails: every requested column of
    the sample is numeric and the list of names is not empty, but it names
    [region_a] twice. The copy [df[names]] then has two columns under that
    label, the first assignment [df_res.loc[:, name] = ...] meets a
    target of three rows and two columns for an array of three values, and
    the call raises [ValueError] instead of returning a frame. *)
Lemma create_residuals_df_repeated_name_raises :
  ["region_a"; "region_a"] <> [] /\
  Forall (fun n => exists c, In (n, c) (columns sample_measures) /\
                             issubdtype_number (col_dtype c) = true)
         (["region_a"; "region_a"] ++ []) /\
  getitem_list sample_measures ["region_a"; "region_a"]
  = Ok (mkDataFrame (RangeIndex 3)
          [("region_a", Float64 [f_one; f_two; f_half]);
           ("region_a", Float64 [f_one; f_two; f_half])]) /\
  create_residuals_df perfect_fit sample_measures ["region_a"; "region_a"] (Some [])
  = Raise (ValueError "could not broadcast input array from shape (3,) into shape (3,2)").
Proof.
  split; [discriminate|]. split.
  - repeat (apply List.Forall_cons;
            [eexists; split; [simpl; eauto 10|reflexivity]|]).
    apply List.Forall_nil.
  - split; reflexivity.
Qed.

(** ** Group partitioning: values, keys and the dictionary *)

Lemma value_eqb_eq a b : is_float a = false -> value_eqb a b = true <-> a = b.
Proof.
  destruct a as [f|z|x|s], b as [f'|z'|x'|s']; simpl; intros Hf;
    try discriminate; try (split; [discriminate|intros H; discriminate H]).
  - rewrite Z.eqb_eq. split; congruence.
  - rewrite Bool.eqb_true_iff. split; congruence.
  - rewrite String.eqb_eq. split; congruence.
Qed.

Lemma value_eqb_refl a : is_float a = false -> value_eqb a a = true.
Proof. intros H. now apply value_eqb_eq. Qed.

Lemma eq_is_identity_incl l l' :
  (forall v, In v l' -> In v l) -> eq_is_identity l -> eq_is_identity l'.
Proof. intros Hincl H v w Hv Hw. apply H; now apply Hincl. Qed.

Lemma existsb_value_eqb v s :
  (forall w, In w s -> (value_eqb v w = true <-> v = w)) ->
  existsb (value_eqb v) s = true <-> In v s.
Proof.
  intros Hid. rewrite existsb_exists. split.
  - intros (w & Hw & E). apply (Hid _ Hw) in E. now subst.
  - intros H. exists v. split; [exact H|now apply (Hid _ H)].
Qed.

(** Where [==] is identity, [set(values)] lists each value once. *)
Lemma fold_set_add_spec vs : forall acc,
  eq_is_identity (acc ++ vs) ->
  List.NoDup acc ->
  List.NoDup (fold_left set_add vs acc) /\
  (forall v, In v (fold_left set_add vs acc) <-> In v acc \/ In v vs).
Proof.
  induction vs as [|x vs IH]; intros acc Hid Hnd; simpl.
  - split; [exact Hnd|]. intros v. tauto.
  - assert (forall w, In w acc -> (value_eqb x w = true <-> x = w)) as Hx.
    { intros w Hw. apply Hid; rewrite in_app_iff; [right; now left|now left]. }
    unfold set_add at 2 4. destruct (existsb (value_eqb x) acc) eqn:E.
    + apply (existsb_value_eqb _ _ Hx) in E.
      destruct (IH acc) as [H1 H2]; [|exact Hnd|].
      { eapply eq_is_identity_incl; [|exact Hid]. intros v.
        rewrite !in_app_iff. simpl. tauto. }
      split; [exact H1|]. intros v. rewrite H2. intuition (subst; auto).
    + assert (~ In x acc) as Hnot.
      { intros Hin. apply (existsb_value_eqb _ _ Hx) in Hin. congruence. }
      destruct (IH (acc ++ [x])) as [H1 H2].
      { eapply eq_is_identity_incl; [|exact Hid]. intros v.
        rewrite !in_app_iff. simpl. tauto. }
      { apply List.NoDup_rev in Hnd. rewrite <- (rev_involutive (acc ++ [x])).
        apply List.NoDup_rev. rewrite rev_app_distr. simpl. constructor.
        - now rewrite <- in_rev.
        - exact Hnd. }
      split; [exact H1|]. intros v. rewrite H2, in_app_iff. simpl. tauto.
Qed.

Lemma py_set_spec vs :
  eq_is_identity vs ->
  List.NoDup (py_set vs) /\ (forall v, In v (py_set vs) <-> In v vs).
Proof.
  intros Hid. destruct (fold_set_add_spec vs [] Hid (List.NoDup_nil _)) as [H1 H2].
  split; [exact H1|]. intros v. rewrite (H2 v). simpl. tauto.
Qed.

(** Whatever [==] does, the set holds values of the list only. *)
Lemma py_set_incl vs v : In v (py_set vs) -> In v vs.
Proof.
  unfold py_set.
  assert (forall acc, In v (fold_left set_add vs acc) -> In v acc \/ In v vs) as H.
  { induction vs as [|x vs IH]; intros acc Hin; simpl in *; [now left|].
    apply IH in Hin as [Hin|Hin]; [|tauto].
    unfold set_add in Hin. destruct (existsb _ _); [now left|].
    apply in_app_or in Hin as [Hin|[<-|[]]]; tauto. }
  intros Hin. apply H in Hin as [[]|Hin]. exact Hin.
Qed.

Section Dictionary.

Context {A V : Type}.
Variable key : A -> string.
Variable item : A -> V.

Lemma assign_all_other vs : forall d k,
  ~ In k (map key vs) -> assign_all key item vs d !! k = d !! k.
Proof.
  induction vs as [|x vs IH]; intros d k Hk; simpl; [reflexivity|].
  simpl in Hk. unfold assign_all in *. simpl. rewrite IH by tauto.
  apply lookup_insert_ne. intros E. apply Hk. now left.
Qed.

Lemma assign_all_lookup vs : forall d v,
  In v vs -> (forall w, In w vs -> key w = key v -> w = v) ->
  assign_all key item vs d !! key v = Some (item v).
Proof.
  induction vs as [|x vs IH]; intros d v Hin Hinj; simpl; [contradiction|].
  unfold assign_all in *. simpl.
  destruct (in_dec String.eq_dec (key v) (map key vs)) as [Hlater|Hlast].
  - apply in_map_iff in Hlater as (w & Hw & Hwin).
    assert (w = v) as -> by (apply Hinj; [now right|exact Hw]).
    apply IH; [exact Hwin|]. intros w' Hw'. apply Hinj. now right.
  - pose proof (assign_all_other vs (<[key x := item x]> d) (key v) Hlast) as E.
    unfold assign_all in E. rewrite E.
    destruct Hin as [->|Hin].
    + apply lookup_insert_eq.
    + exfalso. apply Hlast. now apply in_map.
Qed.

Lemma assign_all_inv vs : forall d k y,
  assign_all key item vs d !! k = Some y ->
  d !! k = Some y \/ exists v, In v vs /\ k = key v /\ y = item v.
Proof.
  induction vs as [|x vs IH]; intros d k y H; [now left|].
  unfold assign_all in *. simpl in H. apply IH in H as [H|(v & Hv & Hk & Hy)].
  - destruct (String.eq_dec (key x) k) as [E|E].
    + subst k. rewrite lookup_insert_eq in H. inversion H; subst.
      right. exists x. repeat split. now left.
    + rewrite lookup_insert_ne in H by exact E. now left.
  - right. exists v. repeat split; [now right|exact Hk|exact Hy].
Qed.

Lemma assign_all_to_list vs : forall d,
  List.NoDup (map key vs) ->
  (forall v, In v vs -> d !! key v = None) ->
  map_to_list (assign_all key item vs d) ≡ₚ map (fun v => (key v, item v)) vs ++ map_to_list d.
Proof.
  induction vs as [|x vs IH]; intros d Hnd Hfresh; [reflexivity|].
  simpl in Hnd. apply List.NoDup_cons_iff in Hnd as [Hx Hnd].
  unfold assign_all in *. simpl. rewrite IH.
  - rewrite map_to_list_insert by (apply Hfresh; now left).
    now rewrite Permutation_middle.
  - exact Hnd.
  - intros v Hv. rewrite lookup_insert_ne.
    + apply Hfresh. now right.
    + intros E. apply Hx. rewrite E. now apply in_map.
Qed.

End Dictionary.

Section GroupFacts.

Variable float_repr : spec_float -> string.

Lemma categorical_values c :
  col_dtype c <> float64 -> Forall (fun v => is_float v = false) (col_values c).
Proof.
  intros H. apply List.Forall_forall. intros v Hv.
  destruct c; simpl in *; [congruence| | |];
    apply in_map_iff in Hv as (x & <- & _); reflexivity.
Qed.

(** Within one column that is not of floats, distinct values print
    differently. *)
Lemma py_str_inj c v w :
  col_dtype c <> float64 ->
  In v (col_values c) -> In w (col_values c) ->
  py_str float_repr v = py_str float_repr w -> v = w.
Proof.
  intros H Hv Hw E. destruct c; simpl in *; [congruence| | |];
    apply in_map_iff in Hv as (x & <- & _);
    apply in_map_iff in Hw as (y & <- & _); simpl in E.
  - f_equal. now apply (inj pretty).
  - destruct x, y; try reflexivity; discriminate.
  - now f_equal.
Qed.

Lemma group_key_inj g c v w :
  col_dtype c <> float64 ->
  In v (col_values c) -> In w (col_values c) ->
  group_key float_repr g v = group_key float_repr g w -> v = w.
Proof.
  intros H Hv Hw E. unfold group_key in E.
  apply (inj (String.app g)) in E. apply (inj (String.app "_")) in E.
  eapply py_str_inj; eassumption.
Qed.

(** A column that is not of floats has both properties. *)
Lemma categorical_plain c :
  col_dtype c <> float64 ->
  eq_is_identity (col_values c) /\ prints_apart float_repr (col_values c).
Proof.
  intros H. pose proof (categorical_values c H) as Hnf.
  rewrite List.Forall_forall in Hnf. split.
  - intros v w Hv _. apply value_eqb_eq. now apply Hnf.
  - intros v w Hv Hw. now apply (py_str_inj c).
Qed.

Lemma group_key_apart g vals v w :
  prints_apart float_repr vals -> In v vals -> In w vals ->
  group_key float_repr g v = group_key float_repr g w -> v = w.
Proof.
  intros H Hv Hw E. unfold group_key in E.
  apply (inj (String.app g)) in E. apply (inj (String.app "_")) in E.
  now apply H.
Qed.

End GroupFacts.

(** ** Group partitioning: rows *)

Lemma mask_select_map {A B : Type} (f : A -> B) mask : forall l,
  mask_select mask (map f l) = map f (mask_select mask l).
Proof.
  induction mask as [|b mask IH]; intros [|x l]; simpl; try reflexivity.
  destruct b; simpl; now rewrite IH.
Qed.

Lemma col_values_mask mask c :
  col_values (col_mask mask c) = mask_select mask (col_values c).
Proof. destruct c; simpl; now rewrite mask_select_map. Qed.

Lemma length_mask_select_le {A : Type} mask : forall l : list A,
  (length (mask_select mask l) <= length l)%nat.
Proof.
  induction mask as [|b mask IH]; intros [|x l]; simpl; try lia.
  destruct b; simpl; specialize (IH l); lia.
Qed.

Lemma mask_select_true {A : Type} mask (x : A) l :
  mask_select (true :: mask) (x :: l) = x :: mask_select mask l.
Proof. reflexivity. Qed.

Lemma mask_select_false {A : Type} mask (x : A) l :
  mask_select (false :: mask) (x :: l) = mask_select mask l.
Proof. reflexivity. Qed.

Lemma rows_of_S {A : Type} n (cols : list (list A)) :
  rows_of (S n) cols = omap head cols :: rows_of n (map (drop 1) cols).
Proof. reflexivity. Qed.

Lemma combine_cons {A B : Type} (x : A) (y : B) l l' :
  combine (x :: l) (y :: l') = (x, y) :: combine l l'.
Proof. reflexivity. Qed.

(** Selecting rows of the transposed columns is selecting in each column. *)
Lemma rows_of_mask_select {A R : Type} mask : forall (idx : list R) (cols : list (list A)),
  length idx = length mask ->
  Forall (fun c => length c = length mask) cols ->
  combine (mask_select mask idx)
          (rows_of (length (mask_select mask idx)) (map (mask_select mask) cols))
  = mask_select mask (combine idx (rows_of (length idx) cols)).
Proof.
  induction mask as [|b mask IH]; intros [|i idx] cols Hlen Hcols;
    simpl in Hlen; try discriminate; [reflexivity|].
  assert (Forall (fun c => length c = length mask) (map (drop 1) cols)) as Htl.
  { apply List.Forall_map. eapply List.Forall_impl; [|exact Hcols].
    intros [|x c] H; simpl in *; [discriminate|]. rewrite drop_0. lia. }
  assert (map (mask_select mask) (map (drop 1) cols)
          = map (drop 1) (map (mask_select (true :: mask)) cols)) as Htrue.
  { rewrite !map_map. apply map_ext_Forall.
    eapply List.Forall_impl; [|exact Hcols].
    intros [|x c] H; simpl in *; [discriminate|]. now rewrite !drop_0. }
  assert (map (mask_select mask) (map (drop 1) cols)
          = map (mask_select (false :: mask)) cols) as Hfalse.
  { rewrite map_map. apply map_ext_Forall.
    eapply List.Forall_impl; [|exact Hcols].
    intros [|x c] H; simpl in *; [discriminate|]. now rewrite drop_0. }
  assert (omap head (map (mask_select (true :: mask)) cols) = omap head cols) as Hhd.
  { clear -Hcols. induction Hcols as [|[|x c] cols H _ IHc];
      [reflexivity|discriminate|]. simpl. f_equal. exact IHc. }
  specialize (IH idx (map (drop 1) cols) ltac:(lia) Htl).
  change (length (i :: idx)) with (S (length idx)).
  rewrite (rows_of_S (length idx)), combine_cons.
  destruct b.
  - rewrite !mask_select_true.
    change (length (i :: mask_select mask idx)) with (S (length (mask_select mask idx))).
    rewrite rows_of_S, combine_cons, Hhd, <- Htrue. f_equal. exact IH.
  - rewrite !mask_select_false, <- Hfalse. exact IH.
Qed.

Lemma rows_loc_rows mask df :
  well_formed df -> length mask = nrows df ->
  rows (loc_rows mask df) = mask_select mask (rows df).
Proof.
  intros Hwf Hlen. unfold rows, loc_rows, nrows in *. simpl.
  rewrite map_map. simpl.
  rewrite <- rows_of_mask_select.
  - f_equal. f_equal. rewrite map_map. apply map_ext. intros lc.
    apply col_values_mask.
  - now symmetry.
  - apply List.Forall_map. eapply List.Forall_impl; [|exact Hwf].
    intros lc H. simpl in *. unfold col_length, nrows in H. congruence.
Qed.

Lemma index_loc_rows mask df : index (loc_rows mask df) = mask_select mask (index df).
Proof. reflexivity. Qed.

Lemma labels_loc_rows mask df : labels (loc_rows mask df) = labels df.
Proof. unfold labels, loc_rows. simpl. rewrite map_map. reflexivity. Qed.

(** ** Group partitioning: every row in exactly one subset *)

Lemma concat_map_app_perm {A B : Type} (F G : A -> list B) (S : list A) :
  concat (map (fun v => F v ++ G v) S) ≡ₚ concat (map F S) ++ concat (map G S).
Proof.
  induction S as [|s S IH]; simpl; [reflexivity|].
  rewrite IH, <- !app_assoc. apply Permutation_app_head.
  rewrite !app_assoc. apply Permutation_app_tail. apply Permutation_app_comm.
Qed.

Lemma no_hit {B : Type} (r : B) x (S : list value) :
  (forall v, In v S -> (value_eqb x v = true <-> x = v)) -> ~ In x S ->
  concat (map (fun v => if value_eqb x v then [r] else []) S) = [].
Proof.
  induction S as [|s S IH]; simpl; intros Hx Hnot; [reflexivity|].
  destruct (value_eqb x s) eqn:E.
  - apply Hx in E; [|now left]. exfalso. apply Hnot. now left.
  - apply IH; [|tauto]. intros v Hv. apply Hx. now right.
Qed.

Lemma single_hit {B : Type} (r : B) x (S : list value) :
  (forall v, In v S -> (value_eqb x v = true <-> x = v)) -> List.NoDup S -> In x S ->
  concat (map (fun v => if value_eqb x v then [r] else []) S) = [r].
Proof.
  intros Hx Hnd. revert Hx.
  induction Hnd as [|s S Hs Hnd IH]; simpl; intros Hx Hin; [contradiction|].
  assert (forall v, In v S -> (value_eqb x v = true <-> x = v)) as Hx'
    by (intros v Hv; apply Hx; now right).
  destruct (value_eqb x s) eqn:E.
  - apply Hx in E; [|now left]. subst s. now rewrite no_hit.
  - destruct Hin as [->|Hin]; [|now apply IH].
    assert (value_eqb x x = true) as E' by (apply Hx; [now left|reflexivity]).
    congruence.
Qed.

Lemma partition_by_value {B : Type} (S : list value) : forall vals (rs : list B),
  length rs = length vals ->
  (forall x v, In x vals -> In v S -> (value_eqb x v = true <-> x = v)) ->
  List.NoDup S ->
  (forall v, In v vals -> In v S) ->
  concat (map (fun v => mask_select (map (fun x => value_eqb x v) vals) rs) S) ≡ₚ rs.
Proof.
  intros vals. induction vals as [|x vals IH]; intros [|r rs] Hlen Hid Hnd Hcov;
    simpl in Hlen; try discriminate.
  - simpl. clear Hid Hcov. induction S as [|s S IHS]; simpl; [reflexivity|].
    apply IHS. now inversion Hnd.
  - transitivity (concat (map (fun v => (if value_eqb x v then [r] else [])
                                ++ mask_select (map (fun y => value_eqb y v) vals) rs) S)).
    { apply eq_subrelation; [apply _|]. f_equal. apply map_ext. intros v. simpl.
      now destruct (value_eqb x v). }
    rewrite concat_map_app_perm.
    rewrite single_hit;
      [|intros v Hv; apply Hid; [now left|exact Hv]|exact Hnd|apply Hcov; now left].
    simpl. apply Permutation_cons; [reflexivity|].
    apply IH; [lia| |exact Hnd|].
    + intros y v Hy Hv. apply Hid; [now right|exact Hv].
    + intros v Hv. apply Hcov. now right.
Qed.

(** ** Group partitioning without shuffling *)

Lemma loc_col_In df g c : loc_col df g = Ok c -> exists g', In (g', c) (columns df).
Proof.
  unfold loc_col, columns_labelled. intros H.
  destruct (List.filter _ _) as [|[g' c'] l] eqn:E; [discriminate|].
  inversion H; subst. exists g'.
  assert (In (g', c) (List.filter (fun lc => String.eqb (fst lc) g) (columns df))) as Hin
    by (rewrite E; now left).
  now apply List.filter_In in Hin.
Qed.

Lemma loc_col_length df g c :
  well_formed df -> loc_col df g = Ok c -> col_length c = nrows df.
Proof.
  intros Hwf H. apply loc_col_In in H as [g' Hin].
  unfold well_formed in Hwf. rewrite List.Forall_forall in Hwf. apply (Hwf _ Hin).
Qed.

Lemma length_eq_mask c v : length (eq_mask c v) = col_length c.
Proof. unfold eq_mask, col_length. apply length_map. Qed.

Section Partition.

Variable float_repr : spec_float -> string.

Lemma split_groups_no_shuffle rng df g c :
  loc_col df g = Ok c ->
  split_groups float_repr rng df g false
  = Ok (mkOutcome rng df
          (assign_all (group_key float_repr g) (fun v => loc_rows (eq_mask c v) df)
                      (py_set (col_values c)) ∅)).
Proof. intros H. unfold split_groups. simpl. rewrite H. reflexivity. Qed.

(** The dictionary built from a column that is not of floats: one entry
    per distinct value, each holding the rows equal to it, the entries
    together holding every row once. *)
Lemma split_dict_partition df g c :
  well_formed df ->
  col_length c = nrows df ->
  eq_is_identity (col_values c) ->
  prints_apart float_repr (col_values c) ->
  let d := assign_all (group_key float_repr g) (fun v => loc_rows (eq_mask c v) df)
                      (py_set (col_values c)) ∅ in
  (forall v, In v (col_values c) ->
     d !! group_key float_repr g v = Some (loc_rows (eq_mask c v) df) /\
     rows (loc_rows (eq_mask c v) df) = mask_select (eq_mask c v) (rows df)) /\
  (forall k sub, d !! k = Some sub ->
     exists v, In v (col_values c) /\ k = group_key float_repr g v) /\
  List.NoDup (py_set (col_values c)) /\
  (forall v, In v (py_set (col_values c)) <-> In v (col_values c)) /\
  size d = length (py_set (col_values c)) /\
  flat_map (fun kv => rows (snd kv)) (map_to_list d) ≡ₚ rows df.
Proof.
  intros Hwf Hlen Hid Hkey d.
  destruct (py_set_spec _ Hid) as [Hnd Hmem].
  assert (forall v w, In v (py_set (col_values c)) -> In w (py_set (col_values c)) ->
                      group_key float_repr g v = group_key float_repr g w -> v = w) as Hinj.
  { intros v w Hv Hw. apply (group_key_apart float_repr g (col_values c));
      [exact Hkey| |]; now apply Hmem. }
  assert (List.NoDup (map (group_key float_repr g) (py_set (col_values c)))) as Hkeys.
  { apply NoDup_map_NoDup_ForallPairs; [|exact Hnd]. intros v w Hv Hw. now apply Hinj. }
  assert (map_to_list d ≡ₚ map (fun v => (group_key float_repr g v, loc_rows (eq_mask c v) df))
                              (py_set (col_values c))) as Hlist.
  { unfold d. rewrite assign_all_to_list; [|exact Hkeys|intros; apply lookup_empty].
    rewrite map_to_list_empty. now rewrite app_nil_r. }
  repeat split.
  - apply (assign_all_lookup (group_key float_repr g)
                             (fun v => loc_rows (eq_mask c v) df));
      [now apply Hmem|].
    intros w Hw E. symmetry. apply Hinj; [now apply Hmem|exact Hw|now symmetry].
  - apply rows_loc_rows; [exact Hwf|]. now rewrite length_eq_mask.
  - intros k sub H. apply assign_all_inv in H as [H|(v & Hv & Hk & _)].
    + rewrite lookup_empty in H. discriminate.
    + exists v. split; [now apply Hmem|exact Hk].
  - exact Hnd.
  - apply Hmem.
  - apply Hmem.
  - rewrite <- length_map_to_list, (Permutation_length Hlist). apply length_map.
  - rewrite Hlist, flat_map_concat_map, map_map. simpl.
    transitivity (concat (map (fun v => mask_select (eq_mask c v) (rows df))
                              (py_set (col_values c)))).
    { apply eq_subrelation; [apply _|]. f_equal. apply map_ext. intros v.
      apply rows_loc_rows; [exact Hwf|]. now rewrite length_eq_mask. }
    unfold eq_mask. apply partition_by_value; [| |exact Hnd|apply Hmem].
    2:{ intros x v Hx Hv. apply Hid; [exact Hx|now apply Hmem]. }
    unfold rows. rewrite length_combine.
    assert (forall (A : Type) n (cols : list (list A)), length (rows_of n cols) = n) as Hr.
    { intros A n. induction n as [|n IH]; intros cols; simpl; [reflexivity|now rewrite IH]. }
    rewrite Hr. unfold col_length, nrows in Hlen. unfold nrows. lia.
Qed.

(** [x == x] fails for NaN only, and NaN equals nothing. *)
Lemma SFeqb_refl f : f <> S754_nan -> SFeqb f f = true.
Proof.
  destruct f as [s|s| |s m e]; intros H; [now destruct s|now destruct s|contradiction|].
  unfold SFeqb, SFcompare. destruct s; now rewrite Z.compare_refl, Pos.compare_cont_refl.
Qed.

Lemma value_eqb_irrefl x : value_eqb x x = false -> x = VFloat S754_nan.
Proof.
  destruct x as [f|z|b|s]; simpl; intros H.
  - destruct f as [s0|s0| |s0 m e]; [| |reflexivity|];
      rewrite SFeqb_refl in H by discriminate; discriminate.
  - rewrite Z.eqb_refl in H. discriminate.
  - destruct b; discriminate.
  - rewrite String.eqb_refl in H. discriminate.
Qed.

Lemma value_eqb_nan v : value_eqb (VFloat S754_nan) v = false.
Proof. destruct v as [f|z|b|s]; reflexivity. Qed.

(** No value's mask selects a row whose group value is NaN. *)
Lemma nan_row_in_no_mask c i x v :
  col_values c !! i = Some x -> value_eqb x x = false -> eq_mask c v !! i = Some false.
Proof.
  intros Hx Hnan. unfold eq_mask. rewrite list_lookup_fmap, Hx. simpl.
  rewrite (value_eqb_irrefl x Hnan). now rewrite value_eqb_nan.
Qed.

(** Every entry of the dictionary is the selection of one value that
    occurs in the column. *)
Lemma split_dict_subsets df g c k sub :
  well_formed df ->
  col_length c = nrows df ->
  assign_all (group_key float_repr g) (fun v => loc_rows (eq_mask c v) df)
             (py_set (col_values c)) ∅ !! k = Some sub ->
  exists v, In v (col_values c) /\ k = group_key float_repr g v /\
            sub = loc_rows (eq_mask c v) df /\
            rows sub = mask_select (eq_mask c v) (rows df).
Proof.
  intros Hwf Hlen H. apply assign_all_inv in H as [H|(v & Hv & Hk & ->)].
  - rewrite lookup_empty in H. discriminate.
  - exists v. split; [now apply py_set_incl|]. split; [exact Hk|]. split; [reflexivity|].
    apply rows_loc_rows; [exact Hwf|]. now rewrite length_eq_mask.
Qed.

(** C5 (amended): on a well-formed frame with unique labels,
    [split_groups] without shuffling leaves the frame as it is and returns
    a dictionary in which every subset holds the rows, in order, whose
    group value equals one value of the column; a row whose group value is
    NaN equals no value and is selected by no subset.  When [==] is
    identity on the values of the group column (no NaN) and they print
    differently, the dictionary has one entry per distinct value [v] of the
    column, under the key [group_var + "_" + str(v)], holding exactly the
    rows whose group value equals [v], and the entries together hold every
    row of the frame exactly once. *)
Theorem split_groups_partition :
  forall rng df g c,
    well_formed df ->
    List.NoDup (labels df) ->
    loc_col df g = Ok c ->
    exists out,
      split_groups float_repr rng df g false = Ok out /\
      df_after out = df /\
      (forall k sub, split_dict out !! k = Some sub ->
         exists v, In v (col_values c) /\ k = group_key float_repr g v /\
                   sub = loc_rows (eq_mask c v) df /\
                   rows sub = mask_select (eq_mask c v) (rows df)) /\
      (forall i x, col_values c !! i = Some x -> value_eqb x x = false ->
         forall k sub, split_dict out !! k = Some sub ->
           exists v, rows sub = mask_select (eq_mask c v) (rows df) /\
                     eq_mask c v !! i = Some false) /\
      (eq_is_identity (col_values c) ->
       prints_apart float_repr (col_values c) ->
       (forall v, In v (col_values c) ->
          split_dict out !! group_key float_repr g v = Some (loc_rows (eq_mask c v) df) /\
          rows (loc_rows (eq_mask c v) df) = mask_select (eq_mask c v) (rows df)) /\
       (forall k sub, split_dict out !! k = Some sub ->
          exists v, In v (col_values c) /\ k = group_key float_repr g v) /\
       List.NoDup (py_set (col_values c)) /\
       (forall v, In v (py_set (col_values c)) <-> In v (col_values c)) /\
       size (split_dict out) = length (py_set (col_values c)) /\
       flat_map (fun kv => rows (snd kv)) (map_to_list (split_dict out)) ≡ₚ rows df).
Proof.
  intros rng df g c Hwf _ Hc. rewrite (split_groups_no_shuffle rng df g c Hc).
  pose proof (loc_col_length _ _ _ Hwf Hc) as Hlen.
  eexists. split; [reflexivity|]. split; [reflexivity|]. cbn [split_dict].
  split; [intros k sub; now apply split_dict_subsets|]. split.
  - intros i x Hx Hnan k sub H.
    destruct (split_dict_subsets df g c k sub Hwf Hlen H) as (v & _ & _ & _ & Hrows).
    exists v. split; [exact Hrows|]. now apply nan_row_in_no_mask with x.
  - intros Hid Hkey. apply (split_dict_partition df g c Hwf Hlen Hid Hkey).
Qed.

(** A column of strings, integers or booleans qualifies. *)
Corollary split_groups_partition_categorical rng df g c :
  well_formed df -> loc_col df g = Ok c -> col_dtype c <> float64 ->
  exists out,
    split_groups float_repr rng df g false = Ok out /\
    size (split_dict out) = length (py_set (col_values c)) /\
    flat_map (fun kv => rows (snd kv)) (map_to_list (split_dict out)) ≡ₚ rows df.
Proof.
  intros Hwf Hc Hcat. destruct (categorical_plain float_repr c Hcat) as [Hid Hkey].
  destruct (split_dict_partition df g c Hwf (loc_col_length _ _ _ Hwf Hc) Hid Hkey)
    as (_ & _ & _ & _ & Hsize & Hperm).
  rewrite (split_groups_no_shuffle rng df g c Hc). eexists. split; [reflexivity|].
  split; [exact Hsize|exact Hperm].
Qed.

End Partition.

Lemma split_groups_partition_witness :
  exists out,
    split_groups fixed_repr (fun _ => O) sample_groups "group" false = Ok out /\
    df_after out = sample_groups /\
    (forall v, In v [VStr "A"; VStr "A"; VStr "B"; VStr "B"; VStr "B"] ->
       split_dict out !! group_key fixed_repr "group" v
       = Some (loc_rows (eq_mask (Object ["A"; "A"; "B"; "B"; "B"]) v) sample_groups) /\
       rows (loc_rows (eq_mask (Object ["A"; "A"; "B"; "B"; "B"]) v) sample_groups)
       = mask_select (eq_mask (Object ["A"; "A"; "B"; "B"; "B"]) v) (rows sample_groups)) /\
    (forall k sub, split_dict out !! k = Some sub ->
       exists v, In v [VStr "A"; VStr "A"; VStr "B"; VStr "B"; VStr "B"] /\
                 k = group_key fixed_repr "group" v) /\
    List.NoDup [VStr "A"; VStr "B"] /\
    (forall v, In v [VStr "A"; VStr "B"]
               <-> In v [VStr "A"; VStr "A"; VStr "B"; VStr "B"; VStr "B"]) /\
    size (split_dict out) = 2%nat /\
    flat_map (fun kv => rows (snd kv)) (map_to_list (split_dict out)) ≡ₚ rows sample_groups.
Proof.
  destruct (split_groups_partition fixed_repr (fun _ => O) sample_groups "group"
              (Object ["A"; "A"; "B"; "B"; "B"]))
    as (out & Hrun & Hdf & _ & _ & Hpart).
  - repeat constructor.
  - repeat constructor; simpl; intuition discriminate.
  - reflexivity.
  - exists out. split; [exact Hrun|]. split; [exact Hdf|]. apply Hpart.
    + intros v w Hv Hw.
      assert (v = VStr "A" \/ v = VStr "B") as [-> | ->]
        by (simpl in Hv; intuition (subst; auto));
      assert (w = VStr "A" \/ w = VStr "B") as [-> | ->]
        by (simpl in Hw; intuition (subst; auto));
      simpl; split; (reflexivity || discriminate).
    + intros v w Hv Hw.
      assert (v = VStr "A" \/ v = VStr "B") as [-> | ->]
        by (simpl in Hv; intuition (subst; auto));
      assert (w = VStr "A" \/ w = VStr "B") as [-> | ->]
        by (simpl in Hw; intuition (subst; auto));
      simpl; (reflexivity || discriminate).
Defined.

(** On a frame whose group column holds NaN, the subsets do not hold every
    row: they are not a partition of the rows.  (The stand-in for [repr]
    only decides how the keys are spelt.) *)
Lemma split_groups_nan_not_partition :
  exists out,
    split_groups fixed_repr (fun _ => O) nan_groups "group" false = Ok out /\
    ~ (flat_map (fun kv => rows (snd kv)) (map_to_list (split_dict out)) ≡ₚ rows nan_groups).
Proof.
  eexists. split; [reflexivity|]. intros H.
  apply Permutation_length in H. vm_compute in H. discriminate.
Qed.

(** The sample of five rows: [group_A] holds the two rows labelled 0 and 1,
    [group_B] the three rows labelled 2, 3 and 4. *)
Example split_groups_sample :
  forall float_repr rng,
  exists out,
    split_groups float_repr rng sample_groups "group" false = Ok out /\
    index <$> split_dict out !! "group_A" = Some [VInt 0; VInt 1] /\
    index <$> split_dict out !! "group_B" = Some [VInt 2; VInt 3; VInt 4] /\
    size (split_dict out) = 2%nat.
Proof. intros. eexists. split; [reflexivity|]. repeat split; vm_compute; reflexivity. Qed.

(** ** Shuffling *)

Lemma draw_all_permutation {A : Type} n : forall rng (pool : list A),
  length pool = n -> (draw_all n rng pool).1 ≡ₚ pool.
Proof.
  induction n as [|n IH]; intros rng pool Hlen.
  - destruct pool; [reflexivity|discriminate].
  - simpl. assert (rng O mod length pool < length pool)%nat as Hj
      by (apply Nat.mod_upper_bound; lia).
    destruct (lookup_lt_is_Some_2 pool _ Hj) as [x Hx]. rewrite Hx.
    pose proof (take_drop_middle pool _ x Hx) as Hmid.
    specialize (IH (next_state rng) (take (rng O mod length pool) pool
                                      ++ drop (S (rng O mod length pool)) pool)).
    destruct (draw_all n _ _) as [rest rng']. simpl in *.
    rewrite IH.
    + rewrite Permutation_middle. now rewrite Hmid.
    + rewrite <- Hmid in Hlen at 1. rewrite length_app in *. simpl in Hlen. lia.
Qed.

Lemma permutation_Permutation {A : Type} rng (xs : list A) :
  (permutation rng xs).1 ≡ₚ xs.
Proof. now apply draw_all_permutation. Qed.

(** The shuffled column holds the values of the original, each as often. *)
Lemma np_random_permutation_values rng c :
  col_values (np_random_permutation rng c).1 ≡ₚ col_values c /\
  col_dtype (np_random_permutation rng c).1 = col_dtype c.
Proof.
  destruct c as [v|v|v|v]; simpl;
    pose proof (permutation_Permutation rng v) as H;
    destruct (permutation rng v) as [v' r]; simpl in *;
    (split; [now apply Permutation_map|reflexivity]).
Qed.

Lemma filter_replace name c (l : list (string * column)) :
  List.filter (fun lc => String.eqb (fst lc) name)
              (map (fun lc => if String.eqb (fst lc) name then (name, c) else lc) l)
  = map (fun _ => (name, c)) (List.filter (fun lc => String.eqb (fst lc) name) l).
Proof.
  induction l as [|[m d] l IH]; simpl; [reflexivity|].
  destruct (String.eqb_spec m name) as [->|Hne]; simpl.
  - rewrite String.eqb_refl. simpl. now rewrite IH.
  - destruct (String.eqb_spec m name); [contradiction|]. exact IH.
Qed.

(** Reading back the column that was just assigned. *)
Lemma loc_col_set_column df name c df' :
  set_column df name c = Ok df' -> loc_col df' name = Ok c.
Proof.
  unfold set_column. destruct (negb _); [discriminate|].
  unfold loc_col, columns_labelled.
  destruct (List.filter _ (columns df)) as [|lc l] eqn:E; intros H; inversion H; subst; simpl.
  - rewrite List.filter_app, E. simpl. now rewrite String.eqb_refl.
  - now rewrite filter_replace, E.
Qed.

Lemma set_column_shape df name c :
  well_formed df -> col_length c = nrows df ->
  exists df',
    set_column df name c = Ok df' /\
    index df' = index df /\
    well_formed df' /\
    In name (labels df') /\
    (~ In name (labels df) -> columns df' = columns df ++ [(name, c)]).
Proof.
  intros Hwf Hlen. unfold set_column. rewrite Hlen, Nat.eqb_refl. simpl.
  destruct (columns_labelled df name) as [|lc l] eqn:E; eexists; (split; [reflexivity|]);
    (split; [reflexivity|]).
  - split; [|split; [|reflexivity]].
    + unfold well_formed in *. simpl. apply List.Forall_app. split; [exact Hwf|].
      constructor; [exact Hlen|constructor].
    + unfold labels. simpl. rewrite map_app, in_app_iff. right. now left.
  - assert (In name (labels df)) as Hin.
    { assert (In lc (columns_labelled df name)) as H by (rewrite E; now left).
      apply List.filter_In in H as [H1 H2]. apply String.eqb_eq in H2. subst name.
      now apply in_map. }
    split; [|split; [|contradiction]].
    + unfold well_formed in *. simpl. apply List.Forall_map.
      eapply List.Forall_impl; [|exact Hwf]. intros [m d] H. simpl in *.
      destruct (String.eqb m name); simpl; assumption.
    + unfold labels in *. simpl. now rewrite replace_labels.
Qed.

Lemma drop_columns_present df name :
  In name (labels df) -> is_ok (drop_columns df [name]) = true.
Proof.
  intros Hin. unfold drop_columns. simpl.
  assert (existsb (String.eqb name) (labels df) = true) as ->; [|reflexivity].
  apply existsb_exists. exists name. split; [exact Hin|apply String.eqb_refl].
Qed.

Lemma length_mask_select_filter {A B : Type} (p : A -> bool) : forall (vals : list A) (l : list B),
  length l = length vals ->
  length (mask_select (map p vals) l) = length (List.filter p vals).
Proof.
  induction vals as [|x vals IH]; intros [|y l] Hlen; simpl in *; try discriminate;
    [reflexivity|].
  destruct (p x); simpl; rewrite IH by lia; reflexivity.
Qed.

Lemma Permutation_filter_length {A : Type} (p : A -> bool) (l l' : list A) :
  l ≡ₚ l' -> length (List.filter p l) = length (List.filter p l').
Proof.
  induction 1 as [|x l l' _ IH|x y l|l l' l'' _ IH1 _ IH2]; simpl.
  - reflexivity.
  - destruct (p x); simpl; now rewrite IH.
  - destruct (p x), (p y); reflexivity.
  - congruence.
Qed.

Section Shuffle.

Variable float_repr : spec_float -> string.

(** What a shuffled call does, step by step: the permuted column goes into
    the caller's frame under the label [group_var + "_rand"], the
    dictionary is built from that column, and the frame is returned with
    the column still in it. *)
Lemma split_groups_shuffle rng df g c :
  well_formed df -> loc_col df g = Ok c ->
  exists shuffled rng' df',
    np_random_permutation rng c = (shuffled, rng') /\
    set_column df (g +:+ "_rand") shuffled = Ok df' /\
    well_formed df' /\
    (~ In (g +:+ "_rand") (labels df) ->
     columns df' = columns df ++ [(g +:+ "_rand", shuffled)]) /\
    loc_col df' (g +:+ "_rand") = Ok shuffled /\
    split_groups float_repr rng df g true
    = Ok (mkOutcome rng' df'
            (assign_all (group_key float_repr (g +:+ "_rand"))
                        (fun v => loc_rows (eq_mask shuffled v) df')
                        (py_set (col_values shuffled)) ∅)).
Proof.
  intros Hwf Hc.
  destruct (np_random_permutation_values rng c) as [Hperm _].
  destruct (np_random_permutation rng c) as [shuffled rng'] eqn:Hshuf. simpl in Hperm.
  assert (col_length shuffled = nrows df) as Hlen.
  { rewrite <- (loc_col_length _ _ _ Hwf Hc). unfold col_length.
    now apply Permutation_length. }
  destruct (set_column_shape df (g +:+ "_rand") shuffled Hwf Hlen)
    as (df' & Hset & Hidx & Hwf' & Hin & Happ).
  pose proof (loc_col_set_column _ _ _ _ Hset) as Hread.
  pose proof (drop_columns_present _ _ Hin) as Hdrop.
  exists shuffled, rng', df'. repeat split; try assumption.
  unfold split_groups. rewrite Hc. simpl. rewrite Hshuf, Hset. simpl.
  rewrite Hread. simpl.
  destruct (drop_columns df' [g +:+ "_rand"]); [reflexivity|discriminate].
Qed.

(** C8: on a well-formed frame with unique labels, with shuffling, the
    column that the partition is keyed on holds the values of the original
    group column, each exactly as often (it is a permutation of it, drawn
    without replacement), whatever the random stream; and when [==] is
    identity on these values and they print differently, the subset of each
    value has as many rows as the value has occurrences in the original
    column. *)
Theorem split_groups_shuffle_preserves_values :
  forall rng df g c,
    well_formed df ->
    List.NoDup (labels df) ->
    loc_col df g = Ok c ->
    exists out shuffled,
      split_groups float_repr rng df g true = Ok out /\
      loc_col (df_after out) (g +:+ "_rand") = Ok shuffled /\
      col_values shuffled ≡ₚ col_values c /\
      split_dict out
      = assign_all (group_key float_repr (g +:+ "_rand"))
                   (fun v => loc_rows (eq_mask shuffled v) (df_after out))
                   (py_set (col_values shuffled)) ∅ /\
      (eq_is_identity (col_values c) -> prints_apart float_repr (col_values c) ->
       forall v, In v (col_values c) ->
         exists sub,
           split_dict out !! group_key float_repr (g +:+ "_rand") v = Some sub /\
           nrows sub = length (List.filter (fun x => value_eqb x v) (col_values c))).
Proof.
  intros rng df g c Hwf _ Hc.
  destruct (split_groups_shuffle rng df g c Hwf Hc)
    as (shuffled & rng' & df' & Hshuf & Hset & Hwf' & _ & Hread & Hrun).
  destruct (np_random_permutation_values rng c) as [Hperm Hdt].
  rewrite Hshuf in Hperm, Hdt. simpl in Hperm, Hdt.
  exists (mkOutcome rng' df'
            (assign_all (group_key float_repr (g +:+ "_rand"))
                        (fun v => loc_rows (eq_mask shuffled v) df')
                        (py_set (col_values shuffled)) ∅)), shuffled.
  split; [exact Hrun|]. split; [exact Hread|]. split; [exact Hperm|].
  split; [reflexivity|]. simpl. intros Hid Hkey v Hv.
  pose proof (loc_col_length _ _ _ Hwf' Hread) as Hlen.
  assert (forall u, In u (col_values shuffled) -> In u (col_values c)) as Hsub.
  { intros u. apply Permutation_in. exact Hperm. }
  assert (eq_is_identity (col_values shuffled)) as Hid'.
  { intros u u' Hu Hu'. apply Hid; now apply Hsub. }
  assert (prints_apart float_repr (col_values shuffled)) as Hkey'.
  { intros u u' Hu Hu'. apply Hkey; now apply Hsub. }
  destruct (split_dict_partition float_repr df' (g +:+ "_rand") shuffled Hwf' Hlen Hid' Hkey')
    as (Hlook & _).
  assert (In v (col_values shuffled)) as Hv'.
  { apply (Permutation_in v (Permutation_sym Hperm) Hv). }
  destruct (Hlook v Hv') as [Hentry _].
  eexists. split; [exact Hentry|].
  unfold nrows at 1. rewrite index_loc_rows. unfold eq_mask.
  rewrite length_mask_select_filter by (symmetry; exact Hlen).
  now apply Permutation_filter_length.
Qed.

(** Whenever the frame has no column [group_var + "_rand"] beforehand, the
    caller's frame comes back with one column more. *)
Lemma split_groups_shuffle_changes_caller rng df g c :
  well_formed df -> loc_col df g = Ok c ->
  ~ In (g +:+ "_rand") (labels df) ->
  exists out,
    split_groups float_repr rng df g true = Ok out /\
    labels (df_after out) = labels df ++ [g +:+ "_rand"] /\
    df_after out <> df.
Proof.
  intros Hwf Hc Hfresh.
  destruct (split_groups_shuffle rng df g c Hwf Hc)
    as (shuffled & rng' & df' & _ & _ & _ & Happ & _ & Hrun).
  assert (labels df' = labels df ++ [g +:+ "_rand"]) as Hlab.
  { unfold labels. rewrite (Happ Hfresh), map_app. reflexivity. }
  eexists. split; [exact Hrun|]. split; [exact Hlab|]. simpl.
  intros E. rewrite E in Hlab. apply (f_equal length) in Hlab.
  rewrite length_app in Hlab. simpl in Hlab. lia.
Qed.

(** On the sample frame, which has no column [group_rand], a shuffled call
    returns with that column appended to the caller's frame. *)
Lemma split_groups_shuffle_sample rng :
  exists out,
    split_groups float_repr rng sample_groups "group" true = Ok out /\
    labels (df_after out) = ["group"; "thickness"; "group_rand"] /\
    forall k sub, split_dict out !! k = Some sub ->
                  labels sub = ["group"; "thickness"; "group_rand"].
Proof.
  destruct (split_groups_shuffle rng sample_groups "group"
              (Object ["A"; "A"; "B"; "B"; "B"]))
    as (shuffled & rng' & df' & _ & _ & _ & Happ & _ & Hrun).
  - repeat constructor.
  - reflexivity.
  - assert (labels df' = ["group"; "thickness"; "group_rand"]) as Hlab.
    { unfold labels. rewrite Happ; [reflexivity|]. simpl. intuition discriminate. }
    eexists. split; [exact Hrun|]. split; [exact Hlab|].
    intros k sub H. cbn [split_dict] in H.
    apply assign_all_inv in H as [H|(v & _ & _ & ->)].
    + rewrite lookup_empty in H. discriminate.
    + now rewrite labels_loc_rows.
Qed.

(** C2: after [split_groups] with shuffling returns, the caller's frame is
    not the frame that was passed in: the column [group_rand] was assigned
    on the caller's object and the frame returned by [drop] was thrown
    away, so the column is still there, whatever the random stream.  Each
    subset carries the column too. *)
Theorem split_groups_shuffle_mutates_caller :
  forall rng,
  exists out,
    split_groups float_repr rng sample_groups "group" true = Ok out /\
    labels sample_groups = ["group"; "thickness"] /\
    labels (df_after out) = ["group"; "thickness"; "group_rand"] /\
    df_after out <> sample_groups /\
    (forall k sub, split_dict out !! k = Some sub ->
                   labels sub = ["group"; "thickness"; "group_rand"]).
Proof.
  intros rng. destruct (split_groups_shuffle_sample rng) as (out & Hrun & Hlab & Hsub).
  exists out. split; [exact Hrun|]. split; [reflexivity|]. split; [exact Hlab|].
  split; [|exact Hsub]. intros E. rewrite E in Hlab. discriminate.
Qed.

End Shuffle.

Lemma split_groups_shuffle_preserves_values_witness :
  exists out shuffled,
    split_groups fixed_repr (fun i => i) sample_groups "group" true = Ok out /\
    loc_col (df_after out) "group_rand" = Ok shuffled /\
    col_values shuffled ≡ₚ [VStr "A"; VStr "A"; VStr "B"; VStr "B"; VStr "B"] /\
    split_dict out
    = assign_all (group_key fixed_repr "group_rand")
                 (fun v => loc_rows (eq_mask shuffled v) (df_after out))
                 (py_set (col_values shuffled)) ∅ /\
    (eq_is_identity [VStr "A"; VStr "A"; VStr "B"; VStr "B"; VStr "B"] ->
     prints_apart fixed_repr [VStr "A"; VStr "A"; VStr "B"; VStr "B"; VStr "B"] ->
     forall v, In v [VStr "A"; VStr "A"; VStr "B"; VStr "B"; VStr "B"] ->
       exists sub,
         split_dict out !! group_key fixed_repr "group_rand" v = Some sub /\
         nrows sub
         = length (List.filter (fun x => value_eqb x v)
                               [VStr "A"; VStr "A"; VStr "B"; VStr "B"; VStr "B"])).
Proof.
  apply (split_groups_shuffle_preserves_values fixed_repr (fun i => i) sample_groups
           "group" (Object ["A"; "A"; "B"; "B"; "B"])).
  - repeat constructor.
  - repeat constructor; simpl; intuition discriminate.
  - reflexivity.
Defined.

(** ** Paths: the directory part and the location of a file *)

Lemma split_slash_nonempty s : split_slash s <> [].
Proof.
  destruct s as [|c s]; simpl; [discriminate|].
  destruct (is_slash c); [discriminate|]. destruct (split_slash s); discriminate.
Qed.

Lemma split_slash_no_slash s : has_slash s = false -> split_slash s = [s].
Proof.
  induction s as [|c s IH]; simpl; [reflexivity|].
  intros H. apply orb_false_iff in H as [Hc Hs]. rewrite Hc, (IH Hs). reflexivity.
Qed.

Lemma basename_no_slash s : has_slash s = false -> os_path_basename s = s.
Proof. destruct s as [|c s]; simpl; [reflexivity|]. intros ->. reflexivity. Qed.

Lemma has_slash_basename s : has_slash (os_path_basename s) = false.
Proof.
  induction s as [|c s IH]; [reflexivity|].
  change (os_path_basename (String c s))
    with (if has_slash (String c s) then os_path_basename s else String c s).
  destruct (has_slash (String c s)) eqn:E; [exact IH|exact E].
Qed.

(** A path with a slash splits into the components of its head part and
    its base name. *)
Lemma split_slash_head s :
  has_slash s = true ->
  exists init,
    init <> [] /\
    split_slash s = init ++ [os_path_basename s] /\
    split_slash (head_part s) = init ++ [EmptyString].
Proof.
  induction s as [|c s IH]; [discriminate|]. intros Hs.
  change (os_path_basename (String c s))
    with (if has_slash (String c s) then os_path_basename s else String c s).
  change (head_part (String c s))
    with (if has_slash (String c s) then String c (head_part s) else EmptyString).
  rewrite Hs. simpl in Hs. simpl.
  destruct (has_slash s) eqn:Hs'.
  - destruct (IH eq_refl) as (init & Hne & Hsplit & Hhead).
    rewrite Hsplit, Hhead. destruct (is_slash c).
    + exists (EmptyString :: init). repeat split. discriminate.
    + destruct init as [|x init]; [contradiction|]. simpl.
      exists (String c x :: init). repeat split. discriminate.
  - rewrite orb_false_r in Hs. rewrite Hs.
    rewrite (split_slash_no_slash _ Hs'), (basename_no_slash _ Hs'),
            (head_part_no_slash _ Hs').
    exists [EmptyString]. repeat split. discriminate.
Qed.

Lemma components_head s :
  has_slash s = true ->
  components s
  = components (head_part s)
      ++ (if proper (os_path_basename s) then [os_path_basename s] else []).
Proof.
  intros Hs. destruct (split_slash_head s Hs) as (init & _ & Hsplit & Hhead).
  unfold components. rewrite Hsplit, Hhead, !List.filter_app. simpl.
  now rewrite app_nil_r.
Qed.

Lemma rstrip_empty_all_slashes s : rstrip_slash s = EmptyString -> all_slashes s = true.
Proof.
  induction s as [|c s IH]; simpl; [reflexivity|].
  destruct (rstrip_slash s); [|discriminate].
  destruct (is_slash c); [|discriminate]. intros _. now apply IH.
Qed.

Lemma split_slash_cons c s :
  split_slash (String c s)
  = if is_slash c then EmptyString :: split_slash s
    else match split_slash s with
         | x :: xs => String c x :: xs
         | [] => [String c EmptyString]
         end.
Proof. reflexivity. Qed.

(** Trailing slashes only add empty components. *)
Lemma split_slash_rstrip s :
  exists k, split_slash s = split_slash (rstrip_slash s) ++ repeat EmptyString k.
Proof.
  induction s as [|c s [k IH]]; [exists O; reflexivity|].
  rewrite split_slash_cons.
  change (rstrip_slash (String c s))
    with (match rstrip_slash s with
          | EmptyString => if is_slash c then EmptyString else String c EmptyString
          | String d r => String c (String d r)
          end).
  destruct (rstrip_slash s) as [|d r] eqn:E.
  - simpl in IH. destruct (is_slash c) eqn:Ec.
    + exists (S k). rewrite IH. reflexivity.
    + exists k. rewrite IH, split_slash_cons, Ec. reflexivity.
  - exists k. rewrite (split_slash_cons c (String d r)), IH.
    destruct (is_slash c); [reflexivity|].
    destruct (split_slash (String d r)) eqn:E'; [|reflexivity].
    now apply split_slash_nonempty in E'.
Qed.

Lemma components_rstrip s : components (rstrip_slash s) = components s.
Proof.
  destruct (split_slash_rstrip s) as [k Hk]. unfold components.
  rewrite Hk, List.filter_app.
  assert (List.filter proper (repeat EmptyString k) = []) as ->.
  { clear Hk. induction k as [|k IH]; simpl; [reflexivity|exact IH]. }
  now rewrite app_nil_r.
Qed.

Lemma components_dirname s : components (os_path_dirname s) = components (head_part s).
Proof.
  unfold os_path_dirname. destruct (_ && _); [apply components_rstrip|reflexivity].
Qed.

Lemma is_absolute_rstrip s :
  all_slashes s = false -> is_absolute (rstrip_slash s) = is_absolute s.
Proof.
  destruct s as [|c s]; [reflexivity|]. simpl. intros H.
  destruct (rstrip_slash s) eqn:E; [|reflexivity].
  destruct (is_slash c) eqn:Ec; [|simpl; now rewrite Ec].
  rewrite (rstrip_empty_all_slashes _ E) in H. discriminate.
Qed.

Lemma is_empty_rstrip s : all_slashes s = false -> is_empty (rstrip_slash s) = false.
Proof.
  intros H. destruct (rstrip_slash s) eqn:E; [|reflexivity].
  rewrite (rstrip_empty_all_slashes _ E) in H. discriminate.
Qed.

Lemma head_part_slash s :
  has_slash s = true ->
  is_empty (head_part s) = false /\ is_absolute (head_part s) = is_absolute s.
Proof.
  destruct s as [|c s]; [discriminate|]. intros H.
  change (head_part (String c s))
    with (if has_slash (String c s) then String c (head_part s) else EmptyString).
  rewrite H. split; reflexivity.
Qed.

(** The directory part of a path with a slash leads to the location of the
    path without its last name. *)
Lemma resolve_dirname s :
  has_slash s = true ->
  resolve (os_path_dirname s) = Some (base_of s ++ components (head_part s)).
Proof.
  intros Hs. destruct (head_part_slash s Hs) as [Hne Habs].
  unfold resolve. rewrite components_dirname. unfold os_path_dirname, base_of.
  rewrite Hne. simpl. destruct (all_slashes (head_part s)) eqn:Eall; simpl.
  - rewrite Hne, Habs. reflexivity.
  - rewrite (is_empty_rstrip _ Eall), (is_absolute_rstrip _ Eall), Habs. reflexivity.
Qed.

Lemma resolve_file s :
  has_slash s = true -> proper (os_path_basename s) = true ->
  resolve s = Some ((base_of s ++ components (head_part s)) ++ [os_path_basename s]).
Proof.
  intros Hs Hb. unfold resolve, base_of.
  destruct s as [|c s]; [discriminate|]. simpl is_empty. cbv iota.
  rewrite (components_head _ Hs), Hb. now rewrite app_assoc.
Qed.

(** ** The file system: creating directories and writing a file *)

Lemma node_at_insert_ne (fs : FileSystem) l n loc :
  loc <> l -> node_at (<[l := n]> fs) loc = node_at fs loc.
Proof.
  intros H. unfold node_at. destruct (is_base loc); [reflexivity|].
  now apply lookup_insert_ne.
Qed.

Lemma node_at_insert_dir (fs : FileSystem) l :
  node_at (<[l := Dir]> fs) l = Some Dir.
Proof. unfold node_at. destruct (is_base l); [reflexivity|]. apply lookup_insert_eq. Qed.

Lemma node_at_insert_file (fs : FileSystem) l t :
  is_base l = false ->
  node_at (<[l := File t]> fs) l = Some (File t).
Proof. unfold node_at. intros ->. apply lookup_insert_eq. Qed.

(** Whether a file can be written does not depend on what is written. *)
Lemma write_file_fails_alike (fs fs' : FileSystem) name c c' e :
  write_file fs name c = (Raise e, fs') -> write_file fs name c' = (Raise e, fs').
Proof.
  unfold write_file. destruct (resolve name) as [loc|]; [|exact id].
  destruct (proper (os_path_basename name)); [|exact id].
  destruct (node_at fs loc) as [[|t]|]; try exact id;
    destruct (node_at fs (removelast loc)) as [[|t']|]; try exact id; discriminate.
Qed.

(** Writing a file that has just been written replaces its content. *)
Lemma write_file_again (fs fs1 : FileSystem) name c c' :
  write_file fs name c = (Ok tt, fs1) -> write_file fs1 name c' = write_file fs name c'.
Proof.
  unfold write_file. destruct (resolve name) as [loc|]; [|discriminate].
  destruct (proper (os_path_basename name));
    [|destruct (node_at fs loc) as [[|t]|]; [| |destruct (is_empty _)]; discriminate].
  assert (node_at fs loc <> Some Dir ->
          match node_at fs (removelast loc) with
          | Some Dir => (Ok tt, <[loc := File c]> fs)
          | Some (File _) => (Raise (NotADirectoryError name), fs)
          | None => (Raise (FileNotFoundError name), fs)
          end = (Ok tt, fs1) ->
          match node_at fs1 loc with
          | Some Dir => (Raise (IsADirectoryError name), fs1)
          | _ => match node_at fs1 (removelast loc) with
                 | Some Dir => (Ok tt, <[loc := File c']> fs1)
                 | Some (File _) => (Raise (NotADirectoryError name), fs1)
                 | None => (Raise (FileNotFoundError name), fs1)
                 end
          end
          = match node_at fs (removelast loc) with
            | Some Dir => (Ok tt, <[loc := File c']> fs)
            | Some (File _) => (Raise (NotADirectoryError name), fs)
            | None => (Raise (FileNotFoundError name), fs)
            end) as Hstep.
  { intros Hnd. destruct (node_at fs (removelast loc)) as [[|t]|] eqn:Hp; try discriminate.
    intros H. injection H as <-.
    assert (is_base loc = false) as Hb.
    { unfold node_at in Hnd. destruct (is_base loc); [now elim Hnd|reflexivity]. }
    rewrite (node_at_insert_file _ _ _ Hb).
    assert (removelast loc <> loc) as Hne.
    { intros E. apply (f_equal (@length string)) in E.
      destruct loc as [|x loc] using rev_ind; [discriminate|].
      rewrite removelast_last, length_app in E. simpl in E. lia. }
    rewrite (node_at_insert_ne _ _ _ _ Hne), Hp. now rewrite insert_insert_eq. }
  destruct (node_at fs loc) as [[|t]|] eqn:E; [discriminate| |];
    intros H; rewrite (Hstep ltac:(discriminate) H);
    destruct (node_at fs (removelast loc)) as [[|t']|]; reflexivity.
Qed.

Section Saving.

Variable isurl : string -> result bool.

(** For a name that is no URL, [np.savetxt] comes to writing the file. *)
Lemma np_savetxt_no_url (fs : FileSystem) name M delimiter newline :
  isurl name = Ok false ->
  np_savetxt isurl fs name M delimiter newline
  = write_file fs name (written name (savetxt_text delimiter newline M)).
Proof.
  intros Hurl. unfold np_savetxt.
  destruct (write_file fs name (Text EmptyString)) as [[[]|e] fs1] eqn:E.
  - rewrite Hurl. now apply write_file_again with (c := Text EmptyString).
  - symmetry. now apply write_file_fails_alike with (c := Text EmptyString).
Qed.

(** When the file cannot be created, [np.savetxt] fails as [open] does. *)
Lemma np_savetxt_not_created (fs fs' : FileSystem) name M delimiter newline c e :
  write_file fs name c = (Raise e, fs') ->
  np_savetxt isurl fs name M delimiter newline = (Raise e, fs').
Proof.
  intros H. unfold np_savetxt.
  now rewrite (write_file_fails_alike _ _ _ _ (Text EmptyString) _ H).
Qed.

End Saving.

Lemma app_take_ne {A : Type} (done : list A) c todo k :
  done ++ [c] <> (done ++ [c]) ++ take (S k) todo \/ todo = [].
Proof.
  destruct todo as [|d todo]; [now right|left].
  intros E. apply (f_equal length) in E. rewrite !length_app in E. simpl in E. lia.
Qed.

(** Creating the directories of [todo] below [done] succeeds when no regular
    file is in the way; afterwards each of them is a directory and nothing
    else has changed. *)
Lemma make_each_spec name todo : forall done (fs : FileSystem),
  (forall k t, (1 <= k <= length todo)%nat ->
               node_at fs (done ++ take k todo) <> Some (File t)) ->
  exists fs',
    make_each name fs done todo = (Ok tt, fs') /\
    (forall k, (1 <= k <= length todo)%nat ->
               node_at fs' (done ++ take k todo) = Some Dir) /\
    (forall loc, (forall k, (1 <= k <= length todo)%nat -> loc <> done ++ take k todo) ->
                 node_at fs' loc = node_at fs loc).
Proof.
  induction todo as [|c todo IH]; intros done fs Hfree.
  - exists fs. split; [reflexivity|]. split; [simpl; intros; lia|reflexivity].
  - assert (forall k, done ++ take (S k) (c :: todo) = (done ++ [c]) ++ take k todo) as Hstep.
    { intros k. simpl. now rewrite <- app_assoc. }
    assert (forall k, (1 <= k)%nat -> done ++ [c] <> (done ++ [c]) ++ take k todo \/ todo = [])
      as Hfirst.
    { intros [|k] Hk; [lia|]. apply app_take_ne. }
    simpl make_each.
    destruct (node_at fs (done ++ [c])) as [[|t]|] eqn:E.
    + destruct (IH (done ++ [c]) fs) as (fs' & Hrun & Hdirs & Hkeep).
      { intros k t Hk. rewrite <- Hstep. apply Hfree. simpl. lia. }
      exists fs'. split; [exact Hrun|]. split.
      * intros [|[|k]] Hk; [lia| |].
        -- simpl. rewrite Hkeep; [exact E|].
           intros k Hk'. destruct (Hfirst k) as [H| ->]; [lia|exact H|simpl in Hk'; lia].
        -- rewrite Hstep. apply Hdirs. simpl in Hk. lia.
      * intros loc Hloc. apply Hkeep. intros k Hk. rewrite <- Hstep. apply Hloc. simpl. lia.
    + exfalso. apply (Hfree 1%nat t); [simpl; lia|]. exact E.
    + destruct (IH (done ++ [c]) (<[done ++ [c] := Dir]> fs))
        as (fs' & Hrun & Hdirs & Hkeep).
      { intros k t Hk. rewrite node_at_insert_ne.
        - rewrite <- Hstep. apply Hfree. simpl. lia.
        - intros E'. destruct (Hfirst k) as [H| ->]; [lia| |simpl in Hk; lia].
          now apply H. }
      exists fs'. split; [exact Hrun|]. split.
      * intros [|[|k]] Hk; [lia| |].
        -- simpl. rewrite Hkeep; [apply node_at_insert_dir|].
           intros k Hk'. destruct (Hfirst k) as [H| ->]; [lia|exact H|simpl in Hk'; lia].
        -- rewrite Hstep. apply Hdirs. simpl in Hk. lia.
      * intros loc Hloc. rewrite Hkeep.
        -- apply node_at_insert_ne. specialize (Hloc 1%nat). simpl in Hloc.
           apply Hloc. lia.
        -- intros k Hk. rewrite <- Hstep. apply Hloc. simpl. lia.
Qed.

(** ** The text of the matrix *)

Lemma append_cons c a b : String c a +:+ b = String c (a +:+ b).
Proof. reflexivity. Qed.

Lemma length_append a b :
  String.length (a +:+ b) = (String.length a + String.length b)%nat.
Proof.
  induction a as [|c a IH]; [reflexivity|]. rewrite append_cons. simpl. now rewrite IH.
Qed.

Lemma length_fixed_digits k : forall n, String.length (fixed_digits k n) = k.
Proof.
  induction k as [|k IH]; intros n; simpl; [reflexivity|].
  rewrite length_append, IH. simpl. lia.
Qed.

(** [round_half_even] gives an integer nearest to the quotient, the even
    one of the two when the quotient lies half-way. *)
Lemma round_half_even_nearest num den :
  0 < den ->
  Z.abs (2 * (round_half_even num den * den - num)) <= den /\
  (Z.abs (2 * (round_half_even num den * den - num)) = den ->
   Z.even (round_half_even num den) = true).
Proof.
  intros Hden. unfold round_half_even.
  pose proof (Z.div_mod num den ltac:(lia)) as Hdm.
  pose proof (Z.mod_pos_bound num den Hden) as Hr.
  set (q := num / den) in *. set (r := num mod den) in *.
  assert (q * den = num - r) as Hq by lia.
  destruct (Z.compare_spec (2 * r) den) as [E|E|E].
  - destruct (Z.even q) eqn:Ev.
    + rewrite Hq. split; [lia|intros _; exact Ev].
    + replace ((q + 1) * den) with (num - r + den) by lia. split; [lia|]. intros _.
      rewrite Z.even_add, Ev. reflexivity.
  - rewrite Hq. split; lia.
  - replace ((q + 1) * den) with (num - r + den) by lia. split; lia.
Qed.

(** The printed magnitude is the value times [10^5], rounded to nearest,
    ties to even. *)
Lemma scaled_magnitude_nearest m e :
  Z.abs (2 * (scaled_magnitude m e * 2 ^ Z.max 0 (- e)
              - Z.pos m * 100000 * 2 ^ Z.max 0 e)) <= 2 ^ Z.max 0 (- e) /\
  (Z.abs (2 * (scaled_magnitude m e * 2 ^ Z.max 0 (- e)
               - Z.pos m * 100000 * 2 ^ Z.max 0 e)) = 2 ^ Z.max 0 (- e) ->
   Z.even (scaled_magnitude m e) = true).
Proof.
  unfold scaled_magnitude. destruct (Z.leb_spec 0 e) as [He|He].
  - rewrite (Z.max_l 0 (- e)), (Z.max_r 0 e) by lia. change (2 ^ 0) with 1.
    replace (2 * (Z.pos m * 2 ^ e * 100000 * 1 - Z.pos m * 100000 * 2 ^ e)) with 0 by lia.
    split; [simpl; lia|simpl; lia].
  - rewrite (Z.max_r 0 (- e)), (Z.max_l 0 e) by lia. change (2 ^ 0) with 1.
    rewrite Z.mul_1_r. apply round_half_even_nearest. apply Z.pow_pos_nonneg; lia.
Qed.

(** The five digits of the fraction, written out. *)
Lemma fixed_digits_5 n :
  fixed_digits 5 n
  = String (ascii_of_nat (48 + Z.to_nat (n / 10000 mod 10)))
      (String (ascii_of_nat (48 + Z.to_nat (n / 1000 mod 10)))
         (String (ascii_of_nat (48 + Z.to_nat (n / 100 mod 10)))
            (String (ascii_of_nat (48 + Z.to_nat (n / 10 mod 10)))
               (String (ascii_of_nat (48 + Z.to_nat (n mod 10))) EmptyString)))).
Proof.
  unfold fixed_digits, digit_char.
  rewrite !Z.div_div by lia. reflexivity.
Qed.

Lemma append_nil_r a : a +:+ EmptyString = a.
Proof. induction a as [|c a IH]; [reflexivity|]. rewrite append_cons. now rewrite IH. Qed.

Lemma concat_empty_cons x xs :
  String.concat EmptyString (x :: xs) = x +:+ String.concat EmptyString xs.
Proof. destruct xs; simpl; [now rewrite append_nil_r|reflexivity]. Qed.

Lemma count_char_append c a b :
  count_char c (a +:+ b) = (count_char c a + count_char c b)%nat.
Proof.
  induction a as [|d a IH]; [reflexivity|]. rewrite append_cons. simpl.
  rewrite IH. lia.
Qed.

Lemma pretty_N_char_not_newline x : Ascii.eqb (pretty_N_char x) newline_char = false.
Proof.
  unfold pretty_N_char. destruct x as [|p]; [reflexivity|].
  do 4 (destruct p as [p|p|]; try reflexivity).
Qed.

Lemma count_newline_pretty_N_go x : forall s,
  count_char newline_char (pretty_N_go x s) = count_char newline_char s.
Proof.
  induction (N.lt_wf_0 x) as [x _ IH]. intros s.
  destruct (decide (0 < x)%N) as [Hpos|Hzero].
  - rewrite pretty_N_go_step by exact Hpos.
    rewrite IH by (apply N.div_lt; [exact Hpos|reflexivity]).
    cbn [count_char]. now rewrite pretty_N_char_not_newline.
  - assert (x = 0%N) as -> by lia. now rewrite pretty_N_go_0.
Qed.

Lemma count_newline_pretty_Z (z : Z) : count_char newline_char (pretty z) = O.
Proof.
  assert (forall n : N, count_char newline_char (pretty n) = O) as HN.
  { intros n. unfold pretty, pretty_N. destruct (decide (n = 0%N)); [reflexivity|].
    now rewrite count_newline_pretty_N_go. }
  destruct z as [|p|p]; unfold pretty, pretty_Z; [reflexivity|apply HN|].
  rewrite count_char_append. change (count_char newline_char "-") with O. apply HN.
Qed.

Lemma digit_char_not_newline d : Ascii.eqb (digit_char d) newline_char = false.
Proof.
  unfold digit_char. pose proof (Z.mod_pos_bound d 10 ltac:(lia)) as Hd.
  assert (Z.to_nat (d mod 10) < 10)%nat as Hlt by lia.
  remember (Z.to_nat (d mod 10)) as k eqn:Ek. clear Ek Hd.
  do 10 (destruct k as [|k]; [reflexivity|]). lia.
Qed.

Lemma count_newline_fixed_digits k : forall n,
  count_char newline_char (fixed_digits k n) = O.
Proof.
  induction k as [|k IH]; intros n; simpl; [reflexivity|].
  rewrite count_char_append, IH. cbn [count_char]. now rewrite digit_char_not_newline.
Qed.

(** A printed cell holds no newline. *)
Lemma count_newline_format_5f x : count_char newline_char (format_5f x) = O.
Proof.
  destruct x as [s|s| |s m e]; [destruct s; reflexivity|destruct s; reflexivity|reflexivity|].
  unfold format_5f.
  rewrite !count_char_append, count_newline_pretty_Z, count_newline_fixed_digits.
  destruct s; reflexivity.
Qed.

Lemma count_newline_format_row row :
  count_char newline_char (format_row tab row) = O.
Proof.
  unfold format_row. induction row as [|x row IH]; [reflexivity|].
  simpl map. destruct row as [|y row]; [apply count_newline_format_5f|].
  change (String.concat tab (format_5f x :: map format_5f (y :: row)))
    with (format_5f x +:+ tab +:+ String.concat tab (map format_5f (y :: row))).
  rewrite !count_char_append, count_newline_format_5f, IH. reflexivity.
Qed.

(** The text is the lines one after the other, nothing before, between or
    after them; each line is a row followed by the newline. *)
Lemma savetxt_text_nil delimiter nl : savetxt_text delimiter nl [] = EmptyString.
Proof. reflexivity. Qed.

Lemma savetxt_text_cons delimiter nl row M :
  savetxt_text delimiter nl (row :: M)
  = (String.concat delimiter (map format_5f row) +:+ nl) +:+ savetxt_text delimiter nl M.
Proof. unfold savetxt_text. simpl map. apply concat_empty_cons. Qed.

(** As many newlines as rows: one row per line. *)
Lemma count_newline_savetxt_text M :
  count_char newline_char (savetxt_text tab newline M) = length M.
Proof.
  induction M as [|row M IH]; [reflexivity|].
  rewrite savetxt_text_cons, !count_char_append, IH.
  change (String.concat tab (map format_5f row)) with (format_row tab row).
  rewrite count_newline_format_row. reflexivity.
Qed.

(** ** Saving the matrix *)

Lemma resolve_dirname_slash name dir :
  resolve (os_path_dirname name) = Some dir -> has_slash name = true.
Proof.
  intros H. destruct (has_slash name) eqn:E; [reflexivity|].
  rewrite (dirname_no_slash _ E) in H. discriminate.
Qed.

Lemma proper_not_base b : has_slash b = false -> forall dir, is_base (dir ++ [b]) = false.
Proof.
  intros Hb [|d [|d' dir]]; simpl; [|reflexivity|reflexivity].
  destruct (String.eqb_spec b "/") as [->|_]; [discriminate|reflexivity].
Qed.

Lemma closed_prefixes fs dir :
  tree_closed fs -> node_at fs dir = Some Dir ->
  forall k, node_at fs (take k dir) = Some Dir.
Proof.
  intros Hclosed. induction dir as [|c dir IH] using rev_ind; intros Hdir k.
  - now rewrite take_nil.
  - destruct (Nat.le_gt_cases (length (dir ++ [c])) k) as [Hk|Hk].
    + now rewrite firstn_all2.
    + rewrite length_app in Hk. simpl in Hk.
      rewrite take_app_le by lia. apply IH.
      unfold node_at in Hdir. destruct (is_base (dir ++ [c])) eqn:Eb.
      * destruct dir as [|d [|d' dir]]; [reflexivity|discriminate|discriminate].
      * apply Hclosed in Hdir. now rewrite removelast_last in Hdir.
Qed.

Lemma take_base_of p k : is_base (take k (base_of p)) = true.
Proof. unfold base_of. destruct (is_absolute p), k as [|[|k]]; reflexivity. Qed.

(** C6 (amended): on a file system where every entry lies in a directory,
    for a destination with a directory part and a file name (and no [..]
    in it, which the model of paths does not interpret) that numpy does
    not take for a URL, when no regular file stands where a directory is
    needed and the destination is not itself a directory, [save_mat]
    succeeds: afterwards the directory of
    the destination and all its ancestors exist, and the file holds the
    text of the matrix, as it is unless the extension of the file name is
    [.gz], [.bz2], [.xz] or [.lzma], and compressed in that format when it
    is.  The text is the rows of the matrix in order, each row as its cells
    joined by tabs and followed by a newline, the last one too, with
    nothing before, between or after the rows, so that it has as many
    lines as the matrix has rows.  A cell is printed as [nan], [inf] or
    [-inf], or as its sign, the integer part and the five decimals of its
    magnitude rounded to the nearest multiple of [10^-5], to the even one
    when it lies half-way. *)
Theorem save_mat_writes_matrix :
  forall isurl fs M name dir loc,
    tree_closed fs ->
    isurl name = Ok false ->
    resolve (os_path_dirname name) = Some dir ->
    resolve name = Some loc ->
    proper (os_path_basename name) = true ->
    ~ In ".." loc ->
    (forall k t, node_at fs (take k dir) <> Some (File t)) ->
    node_at fs loc <> Some Dir ->
    exists fs' text,
      save_mat isurl fs M name = (Ok tt, fs') /\
      os_path_isdir fs' (os_path_dirname name) = true /\
      (forall k, node_at fs' (take k dir) = Some Dir) /\
      fs' !! loc = Some (File (match file_opener name with
                               | None => Text text
                               | Some c => Compressed c text
                               end)) /\
      (file_opener name = None -> read_text fs' name = Some text) /\
      text
      = String.concat EmptyString
          (map (fun row =>
                  String.concat (String (ascii_of_nat 9) EmptyString) (map format_5f row)
                    +:+ String (ascii_of_nat 10) EmptyString) M) /\
      count_char (ascii_of_nat 10) text = length M /\
      format_5f S754_nan = "nan" /\
      (forall s, format_5f (S754_infinity s) = if s then "-inf" else "inf") /\
      (forall s, format_5f (S754_zero s) = if s then "-0.00000" else "0.00000") /\
      (forall s m e, exists q,
         Z.abs (2 * (q * 2 ^ Z.max 0 (- e) - Z.pos m * 100000 * 2 ^ Z.max 0 e))
         <= 2 ^ Z.max 0 (- e) /\
         (Z.abs (2 * (q * 2 ^ Z.max 0 (- e) - Z.pos m * 100000 * 2 ^ Z.max 0 e))
          = 2 ^ Z.max 0 (- e) -> Z.even q = true) /\
         let r := q mod 100000 in
         format_5f (S754_finite s m e)
         = (if s then "-" else EmptyString) +:+ pretty (q / 100000) +:+ "." +:+
           String (ascii_of_nat (48 + Z.to_nat (r / 10000 mod 10)))
             (String (ascii_of_nat (48 + Z.to_nat (r / 1000 mod 10)))
                (String (ascii_of_nat (48 + Z.to_nat (r / 100 mod 10)))
                   (String (ascii_of_nat (48 + Z.to_nat (r / 10 mod 10)))
                      (String (ascii_of_nat (48 + Z.to_nat (r mod 10))) EmptyString))))).
Proof.
  intros isurl fs M name dir loc Hclosed Hurl Hdir Hloc Hb _ Hfree Hnotdir.
  pose proof (resolve_dirname_slash _ _ Hdir) as Hs.
  pose proof Hdir as Edir. rewrite (resolve_dirname _ Hs) in Edir.
  injection Edir as Edir.
  pose proof Hloc as Eloc. rewrite (resolve_file _ Hs Hb), Edir in Eloc.
  injection Eloc as Eloc.
  pose proof (proper_not_base _ (has_slash_basename name) dir) as Hnb. rewrite Eloc in Hnb.
  assert (forall k, take k dir <> loc) as Hne.
  { intros k E. apply (f_equal length) in E. rewrite <- Eloc in E.
    rewrite length_app, length_take in E. simpl in E. lia. }
  (* the file system once the directories are there *)
  assert (exists fs1,
            (if negb (os_path_isdir fs (os_path_dirname name))
             then os_makedirs fs (os_path_dirname name) else (Ok tt, fs)) = (Ok tt, fs1) /\
            (forall k, node_at fs1 (take k dir) = Some Dir) /\
            node_at fs1 loc <> Some Dir) as (fs1 & Hmade & Hdirs & Hfile).
  { unfold os_path_isdir, os_makedirs. rewrite Hdir.
    destruct (node_at fs dir) as [[|t]|] eqn:E; simpl.
    - exists fs. split; [reflexivity|]. split; [|exact Hnotdir].
      now apply closed_prefixes.
    - exfalso. apply (Hfree (length dir) t). now rewrite firstn_all.
    - set (dn := os_path_dirname name) in *.
      assert (base_of dn ++ components dn = dir) as Ed.
      { unfold resolve in Hdir. destruct (is_empty dn); [discriminate|]. now injection Hdir. }
      destruct (make_each_spec dn (components dn) (base_of dn) fs) as (fs1 & Hrun & Hnew & Hkeep).
      { intros k t Hk. specialize (Hfree (length (base_of dn) + k)%nat t).
        rewrite <- Ed, take_app_add in Hfree. exact Hfree. }
      exists fs1. split; [exact Hrun|]. split.
      + intros k. rewrite <- Ed, take_app.
        destruct (decide (k - length (base_of dn) = 0)%nat) as [Hz|Hz].
        * rewrite Hz, take_0, app_nil_r. unfold node_at. now rewrite take_base_of.
        * rewrite (take_ge (base_of dn)) by lia.
          destruct (Nat.le_gt_cases (k - length (base_of dn)) (length (components dn)))
            as [Hle|Hgt].
          -- apply Hnew. lia.
          -- rewrite take_ge by lia.
             destruct (components dn) as [|c cs] eqn:Ec.
             ++ rewrite app_nil_r. unfold node_at.
                now rewrite <- (take_ge (base_of dn) (length (base_of dn))), take_base_of.
             ++ rewrite <- (take_ge (c :: cs) (length (c :: cs))) by lia.
                apply Hnew. simpl. lia.
      + rewrite Hkeep; [exact Hnotdir|]. intros k Hk E'.
        apply (f_equal length) in E'. rewrite <- Eloc, <- Ed in E'.
        rewrite !length_app, length_take in E'. simpl in E'. lia. }
  assert (removelast loc = dir) as Hparent by (rewrite <- Eloc; apply removelast_last).
  assert (node_at fs1 dir = Some Dir) as Hd.
  { specialize (Hdirs (length dir)). now rewrite firstn_all in Hdirs. }
  assert (dir <> loc) as Hne'.
  { specialize (Hne (length dir)). now rewrite firstn_all in Hne. }
  exists (<[loc := File (written name (savetxt_text tab newline M))]> fs1),
         (savetxt_text tab newline M).
  split.
  { unfold save_mat. cbv zeta. rewrite Hmade, (np_savetxt_no_url _ _ _ _ _ _ Hurl).
    unfold write_file.
    rewrite Hloc, Hb, Hparent, Hd.
    destruct (node_at fs1 loc) as [[|t]|]; [contradiction|reflexivity|reflexivity]. }
  split.
  { unfold os_path_isdir. rewrite Hdir, node_at_insert_ne by exact Hne'.
    now rewrite Hd. }
  split.
  { intros k. rewrite node_at_insert_ne by apply Hne. apply Hdirs. }
  split; [apply lookup_insert_eq|].
  split.
  { intros Hplain. unfold read_text.
    rewrite Hloc, node_at_insert_file by exact Hnb. unfold written. now rewrite Hplain. }
  split; [reflexivity|]. split; [apply count_newline_savetxt_text|].
  split; [reflexivity|]. split; [reflexivity|].
  split; [intros s; now destruct s|].
  intros s m e. exists (scaled_magnitude m e).
  destruct (scaled_magnitude_nearest m e) as [Hnear Htie].
  split; [exact Hnear|]. split; [exact Htie|]. cbv zeta.
  unfold format_5f. now rewrite fixed_digits_5.
Qed.

Lemma save_mat_writes_matrix_witness :
  exists fs',
    save_mat no_url empty_fs sample_matrix "out/subdir/m.txt" = (Ok tt, fs') /\
    os_path_isdir fs' "out/subdir" = true /\
    os_path_isdir fs' "out" = true /\
    read_text fs' "out/subdir/m.txt"
    = Some ("1.00000" +:+ tab +:+ "0.50000" +:+ newline
            +:+ "0.50000" +:+ tab +:+ "1.00000" +:+ newline).
Proof.
  destruct (save_mat_writes_matrix no_url empty_fs sample_matrix "out/subdir/m.txt"
              ["out"; "subdir"] ["out"; "subdir"; "m.txt"])
    as (fs' & text & Hrun & Hdir & Hdirs & _ & Hread & Htext & _).
  - intros loc n H. unfold empty_fs in H. rewrite lookup_empty in H. discriminate.
  - reflexivity.
  - reflexivity.
  - reflexivity.
  - reflexivity.
  - simpl. intuition discriminate.
  - intros [|[|[|k]]] t; simpl; unfold node_at, empty_fs; simpl; try discriminate;
      rewrite lookup_empty; discriminate.
  - unfold node_at, empty_fs. simpl. rewrite lookup_empty. discriminate.
  - exists fs'. split; [exact Hrun|]. split; [exact Hdir|]. split.
    + unfold os_path_isdir. change (resolve "out") with (Some (take 1 ["out"; "subdir"])).
      cbv beta iota. now rewrite Hdirs.
    + rewrite (Hread eq_refl), Htext. reflexivity.
Defined.

(** C6, the input on which the sentence fails: for the destination
    [out/subdir/m.txt.gz] on an empty file system [save_mat] succeeds, but
    [numpy.savetxt] opens a name with that extension through [gzip]: the
    file holds a compressed stream, not the two lines of text. *)
Lemma save_mat_gz_not_text :
  exists fs',
    save_mat no_url empty_fs sample_matrix "out/subdir/m.txt.gz" = (Ok tt, fs') /\
    fs' !! ["out"; "subdir"; "m.txt.gz"]
    = Some (File (Compressed gzip ("1.00000" +:+ tab +:+ "0.50000" +:+ newline
                                   +:+ "0.50000" +:+ tab +:+ "1.00000" +:+ newline))) /\
    read_text fs' "out/subdir/m.txt.gz" = None.
Proof.
  eexists. split; [reflexivity|]. split; reflexivity.
Qed.

(** * Further properties of the code *)

(** ** Which columns are reported as non numeric *)

(** X1: [get_non_numeric_cols] reports a label exactly when the frame has
    a column under that label whose dtype is neither float nor integer
    (text and booleans are reported), and it reports the labels in the
    order of the frame. *)
Theorem get_non_numeric_cols_spec :
  forall df,
    (forall n, In n (get_non_numeric_cols df) <->
               exists c, In (n, c) (columns df) /\
                         (col_dtype c = bool_ \/ col_dtype c = object_)) /\
    sublist (get_non_numeric_cols df) (labels df).
Proof.
  intros df. rewrite get_non_numeric_cols_filter. split.
  - intros n. rewrite in_map_iff. split.
    + intros ([m c] & Hm & Hin). simpl in Hm. subst m.
      apply List.filter_In in Hin as [Hin Hnum]. simpl in Hnum.
      exists c. split; [exact Hin|]. destruct c; simpl in *; try discriminate; auto.
    + intros (c & Hin & Hdt). exists (n, c). split; [reflexivity|].
      apply List.filter_In. split; [exact Hin|]. simpl.
      destruct c; simpl in *; destruct Hdt; try discriminate; reflexivity.
  - unfold labels. induction (columns df) as [|[m c] l IH]; simpl; [constructor|].
    destruct (negb (issubdtype_number (col_dtype c))); simpl.
    + now apply sublist_skip.
    + now apply sublist_cons.
Qed.

(** ** Errors of the residual step *)

Lemma columns_labelled_nil df n : columns_labelled df n = [] <-> ~ In n (labels df).
Proof.
  unfold columns_labelled, labels. induction (columns df) as [|[m c] l IH]; simpl.
  - tauto.
  - destruct (String.eqb_spec m n) as [->|Hne].
    + split; [discriminate|]. intros H. exfalso. apply H. now left.
    + rewrite IH. split; [intros H [E|E]; [contradiction|now apply H]|tauto].
Qed.

(** Selecting stops at the first label that the frame does not have. *)
Lemma select_columns_missing df names :
  Exists (fun n => ~ In n (labels df)) names ->
  exists m, In m names /\ ~ In m (labels df) /\ select_columns df names = Raise (KeyError m).
Proof.
  induction names as [|n names IH]; intros H; [inversion H|].
  simpl. destruct (columns_labelled df n) as [|lc l] eqn:E.
  - exists n. split; [now left|]. split; [now apply columns_labelled_nil|reflexivity].
  - assert (In n (labels df)) as Hn.
    { destruct (in_dec String.eq_dec n (labels df)) as [Hin|Hout]; [exact Hin|].
      apply columns_labelled_nil in Hout. congruence. }
    apply List.Exists_cons in H as [H|H]; [contradiction|].
    destruct (IH H) as (m & Hm & Hout & Hsel). exists m.
    split; [now right|]. split; [exact Hout|]. now rewrite Hsel.
Qed.

(** X2: when a requested region or covariate label is not a column of the
    frame, [create_residuals_df] raises [KeyError] for a requested label
    that the frame lacks, before the validation and without calling the
    regression routine. *)
Theorem create_residuals_df_missing_label :
  forall df names covars,
    Exists (fun n => ~ In n (labels df)) (names ++ covars) ->
    exists m,
      In m (names ++ covars) /\ ~ In m (labels df) /\
      forall residuals,
        create_residuals_df residuals df names (Some covars) = Raise (KeyError m).
Proof.
  intros df names covars H.
  destruct (select_columns_missing df _ H) as (m & Hm & Hout & Hsel).
  exists m. split; [exact Hm|]. split; [exact Hout|]. intros residuals.
  unfold create_residuals_df, getitem_list. simpl. now rewrite Hsel.
Qed.

Lemma create_residuals_df_missing_label_witness :
  exists m,
    In m (["region_a"; "region_c"] ++ ["age"]) /\ ~ In m (labels sample_measures) /\
    forall residuals,
      create_residuals_df residuals sample_measures ["region_a"; "region_c"] (Some ["age"])
      = Raise (KeyError m).
Proof.
  apply (create_residuals_df_missing_label sample_measures ["region_a"; "region_c"] ["age"]).
  apply List.Exists_cons_tl, List.Exists_cons_hd. simpl. intuition discriminate.
Defined.

(** With unique labels, selecting existing labels yields one column per
    label, the frame's column of that label. *)
Lemma select_columns_Forall2 df names :
  List.NoDup (labels df) ->
  Forall (fun n => exists c, In (n, c) (columns df)) names ->
  exists cs, select_columns df names = Ok cs /\
             Forall2 (fun n lc => fst lc = n /\ In lc (columns df)) names cs.
Proof.
  intros Hnd. induction 1 as [|n names [c Hc] _ (cs & Hcs & Hall)]; simpl.
  - exists []. split; [reflexivity|constructor].
  - rewrite (columns_labelled_unique _ _ _ Hnd Hc), Hcs. simpl.
    exists ((n, c) :: cs). split; [reflexivity|]. constructor; [|exact Hall].
    split; [reflexivity|exact Hc].
Qed.

Lemma unique_column df n c c' :
  List.NoDup (labels df) -> In (n, c) (columns df) -> In (n, c') (columns df) -> c = c'.
Proof.
  intros Hnd H H'. pose proof (loc_col_unique _ _ _ Hnd H) as E.
  rewrite (loc_col_unique _ _ _ Hnd H') in E. congruence.
Qed.

Lemma filter_non_numeric_nil df names cs :
  List.NoDup (labels df) ->
  Forall (fun n => exists c, In (n, c) (columns df) /\
                             issubdtype_number (col_dtype c) = true) names ->
  Forall2 (fun n lc => fst lc = n /\ In lc (columns df)) names cs ->
  List.filter (fun lc => negb (issubdtype_number (col_dtype (snd lc)))) cs = [].
Proof.
  intros Hnd Hnum H. induction H as [|n [m c] names cs [Hm Hin] _ IH]; [reflexivity|].
  apply List.Forall_cons_iff in Hnum as [(c' & Hc' & Hnum') Hnum].
  simpl in *. subst m. rewrite (unique_column _ _ _ _ Hnd Hin Hc'), Hnum'. simpl.
  now apply IH.
Qed.

(** X3: when exactly one of the requested columns is not numeric (all the
    others being float or integer columns) and its label is not empty,
    [create_residuals_df] raises the [TypeError] whose message names that
    column, whatever the regression routine is. *)
Theorem create_residuals_df_single_offender :
  forall df names covars before bad after c,
    List.NoDup (labels df) ->
    names ++ covars = before ++ bad :: after ->
    Forall (fun n => exists c, In (n, c) (columns df) /\
                               issubdtype_number (col_dtype c) = true)
           (before ++ after) ->
    In (bad, c) (columns df) ->
    issubdtype_number (col_dtype c) = false ->
    bad <> EmptyString ->
    forall residuals,
      create_residuals_df residuals df names (Some covars)
      = Raise (TypeError ("DataFrame columns " +:+ bad +:+ " are non numeric")).
Proof.
  intros df names covars before bad after c Hnd Hreq Hnum Hbad Hdt Hne residuals.
  apply List.Forall_app in Hnum as [Hnum1 Hnum2].
  assert (Forall (fun n => exists c, In (n, c) (columns df)) (names ++ covars)) as Hex.
  { rewrite Hreq. apply List.Forall_app. split.
    - eapply List.Forall_impl; [|exact Hnum1]. intros n (d & Hd & _). now exists d.
    - constructor; [now exists c|].
      eapply List.Forall_impl; [|exact Hnum2]. intros n (d & Hd & _). now exists d. }
  destruct (select_columns_Forall2 df _ Hnd Hex) as (cs & Hsel & Hall).
  rewrite Hreq in Hall. apply Forall2_app_inv_l in Hall as (cs1 & cs' & H1 & H' & ->).
  apply Forall2_cons_inv_l in H' as ([m c'] & cs2 & [Hm Hin] & H2 & ->).
  simpl in Hm. subst m. rewrite (unique_column _ _ _ _ Hnd Hin Hbad) in *.
  apply (create_residuals_df_one_offender residuals df names covars
           (mkDataFrame (index df) (cs1 ++ (bad, c) :: cs2))).
  - unfold getitem_list. now rewrite Hsel.
  - rewrite get_non_numeric_cols_filter. simpl. rewrite List.filter_app. simpl.
    rewrite Hdt. simpl.
    rewrite (filter_non_numeric_nil df before cs1 Hnd Hnum1 H1),
            (filter_non_numeric_nil df after cs2 Hnd Hnum2 H2).
    reflexivity.
  - exact Hne.
Qed.

Lemma create_residuals_df_single_offender_witness :
  create_residuals_df perfect_fit flagged_measures ["region_a"; "region_b"] (Some ["male"])
  = Raise (TypeError "DataFrame columns male are non numeric").
Proof.
  refine (create_residuals_df_single_offender flagged_measures
            ["region_a"; "region_b"] ["male"] ["region_a"; "region_b"] "male" []
            (Bool_ [true; false; true]) _ _ _ _ _ _ perfect_fit).
  - repeat constructor; simpl; intuition discriminate.
  - reflexivity.
  - repeat (apply List.Forall_cons;
            [eexists; split; [simpl; eauto 10|reflexivity]|]).
    apply List.Forall_nil.
  - simpl. auto.
  - reflexivity.
  - discriminate.
Defined.

(** ** What the residual frame holds *)

Lemma existsb_eqb_In n names : existsb (String.eqb n) names = true <-> In n names.
Proof.
  rewrite existsb_exists. split.
  - intros (m & Hm & E). apply String.eqb_eq in E. now subst.
  - intros H. exists n. split; [exact H|apply String.eqb_refl].
Qed.

Lemma replace_columns_labels r names cols :
  map fst (replace_columns r names cols) = map fst cols.
Proof.
  unfold replace_columns. rewrite map_map. apply map_ext. intros [m c]. simpl.
  now destruct (existsb _ _).
Qed.

Lemma replace_columns_step r n names cols :
  replace_columns r names
    (map (fun lc => if String.eqb (fst lc) n then (n, r n) else lc) cols)
  = replace_columns r (n :: names) cols.
Proof.
  unfold replace_columns. rewrite map_map. apply map_ext. intros [m c]. simpl.
  destruct (String.eqb_spec m n) as [->|Hne]; simpl.
  - now destruct (existsb _ _).
  - reflexivity.
Qed.

Section ResidualValues.

Variable residuals : array_like -> column -> result column.

(** The loop in closed form on a frame with unique labels: whatever the
    order of [names], each named column ends up holding the residual of the
    column of the original frame. *)
Lemma residual_loop_closed_form df x r names : forall df0,
  List.NoDup (labels df0) ->
  Forall (fun n => In n (labels df0) /\
                   exists y, loc_col df n = Ok y /\ residuals x y = Ok (r n) /\
                             col_length (r n) = nrows df0) names ->
  for_each (fun df_res name =>
              y ← loc_col df name; r ← residuals x y; loc_set_column df_res name r)
           names df0
  = Ok (mkDataFrame (index df0) (replace_columns r names (columns df0))).
Proof.
  induction names as [|n names IH]; intros df0 Hnd H; simpl.
  - unfold replace_columns. simpl. rewrite map_id. now destruct df0.
  - apply List.Forall_cons_iff in H as [(Hin & y & Hy & Hr & Hlen) H].
    rewrite Hy. simpl. rewrite Hr. simpl.
    rewrite (loc_set_column_present _ _ _ Hnd Hin Hlen). simpl.
    rewrite IH.
    + simpl. now rewrite replace_columns_step.
    + unfold labels in *. simpl. now rewrite replace_labels.
    + eapply List.Forall_impl; [|exact H]. intros m (Hm & Hm').
      split; [|exact Hm']. unfold labels in *. simpl. now rewrite replace_labels.
Qed.


Lemma residual_of_ok df x names :
  well_formed df ->
  List.NoDup (labels df) ->
  Forall (fun n => exists c, In (n, c) (columns df)) names ->
  (forall x n y, In n names -> loc_col df n = Ok y ->
                 exists r, residuals x y = Ok r /\ col_length r = col_length y) ->
  Forall (fun n => exists y, loc_col df n = Ok y /\
                             residuals x y = Ok (residual_of residuals df x n) /\
                             col_length (residual_of residuals df x n) = nrows df) names.
Proof.
  intros Hwf Hnd Hex Hres. apply List.Forall_forall. intros n Hn.
  rewrite List.Forall_forall in Hex. destruct (Hex _ Hn) as [c Hc].
  pose proof (loc_col_unique _ _ _ Hnd Hc) as Hy.
  destruct (Hres x n c Hn Hy) as (r & Hr & Hlen).
  exists c. unfold residual_of. rewrite Hy, Hr. repeat split.
  rewrite Hlen. unfold well_formed in Hwf. rewrite List.Forall_forall in Hwf.
  apply (Hwf _ Hc).
Qed.

(** The design matrix is built whenever the covariates are columns of a
    frame that has a column at all. *)
Lemma design_total df covars :
  List.NoDup (labels df) ->
  Forall (fun n => exists c, In (n, c) (columns df)) covars ->
  columns df <> [] ->
  exists x,
    (if Nat.ltb 1 (length covars) then
       sub ← getitem_list df covars; Ok (np_vstack sub)
     else if Nat.eqb (length covars) 1 then
       sub ← getitem_list df covars; Ok (frame sub)
     else
       c ← iloc_col df 0; Ok (np_ones_like c)) = Ok x /\
    design_of df covars x.
Proof.
  intros Hnd Hex Hne.
  destruct (select_columns_ok df covars Hnd Hex) as (cs & Hcs & _ & _).
  assert (getitem_list df covars = Ok (mkDataFrame (index df) cs)) as Hsub
    by (unfold getitem_list; now rewrite Hcs).
  destruct covars as [|a [|b covars]]; simpl Nat.ltb; simpl Nat.eqb; cbv iota.
  - destruct (columns df) as [|lc l] eqn:E; [contradiction|].
    unfold iloc_col. rewrite E. simpl. eexists. split; [reflexivity|].
    exists (snd lc). unfold iloc_col. rewrite E. now split.
  - rewrite Hsub. exists (frame (mkDataFrame (index df) cs)). split; [reflexivity|].
    exists (mkDataFrame (index df) cs). split; [exact Hsub | reflexivity].
  - rewrite Hsub. exists (np_vstack (mkDataFrame (index df) cs)). split; [reflexivity|].
    exists (mkDataFrame (index df) cs). split; [exact Hsub | reflexivity].
Qed.

Lemma replace_columns_selected r names : forall part cs,
  (forall n, In n part -> In n names) ->
  Forall2 (fun n (lc : string * column) => fst lc = n) part cs ->
  replace_columns r names cs = map (fun n => (n, r n)) part.
Proof.
  intros part cs Hsub H. induction H as [|n [m c] part cs Hm _ IH]; [reflexivity|].
  simpl in *. subst m.
  assert (existsb (String.eqb n) names = true) as ->
    by (apply existsb_eqb_In, Hsub; now left).
  f_equal. apply IH. intros k Hk. apply Hsub. now right.
Qed.

Lemma filter_label_map (f : string -> column) n names :
  In n names ->
  exists rest,
    List.filter (fun lc : string * column => String.eqb (fst lc) n)
                (map (fun m => (m, f m)) names) = (n, f n) :: rest.
Proof.
  induction names as [|m names IH]; intros Hin; [contradiction|]. simpl.
  destruct (String.eqb_spec m n) as [->|Hne].
  - eexists. reflexivity.
  - destruct Hin as [E|Hin]; [contradiction|]. now apply IH.
Qed.

(** The frame of [scona]'s [create_residuals_df] in closed form. *)
Lemma scona_residuals_closed_form df names covars :
  well_formed df ->
  List.NoDup (labels df) ->
  names <> [] ->
  List.NoDup names ->
  Forall (fun n => exists c, In (n, c) (columns df) /\
                             issubdtype_number (col_dtype c) = true)
         (names ++ covars) ->
  (forall x n y, In n names -> loc_col df n = Ok y ->
                 exists r, residuals x y = Ok r /\ col_length r = col_length y) ->
  exists x,
    design_of df covars x /\
    create_residuals_df residuals df names (Some covars)
    = Ok (mkDataFrame (index df)
            (map (fun n => (n, residual_of residuals df (transpose x) n)) names)).
Proof.
  intros Hwf Hnd Hne Hnames Hreq Hres.
  assert (Forall (fun n => exists c, In (n, c) (columns df)) (names ++ covars)) as Hex.
  { eapply List.Forall_impl; [|exact Hreq]. intros n (c & Hc & _). now exists c. }
  pose proof Hex as Hex'. apply List.Forall_app in Hex' as [Hex_n Hex_c].
  destruct (select_columns_Forall2 df _ Hnd Hex) as (sel & Hsel & Hsel2).
  destruct (select_columns_Forall2 df _ Hnd Hex_n) as (cs & Hcs & Hcs2).
  assert (columns df <> []) as Hcols.
  { destruct names as [|n names]; [contradiction|].
    apply List.Forall_cons_iff in Hex_n as [[c Hc] _]. intros E. now rewrite E in Hc. }
  destruct (design_total df covars Hnd Hex_c Hcols) as (x & Hx & Hdesign).
  exists x. split; [exact Hdesign|].
  unfold getitem_list in Hx.
  unfold create_residuals_df, getitem_list. simpl. rewrite Hsel. simpl.
  rewrite get_non_numeric_cols_filter. simpl.
  rewrite (filter_non_numeric_nil df _ sel Hnd Hreq Hsel2). simpl.
  rewrite Hcs. simpl. rewrite Hx. simpl.
  assert (map fst cs = names) as Hlab.
  { clear -Hcs2. induction Hcs2 as [|n lc ns cs [H _] _ IH]; simpl; congruence. }
  rewrite (residual_loop_closed_form df (transpose x)
             (residual_of residuals df (transpose x)) names).
  - simpl. f_equal. f_equal. apply replace_columns_selected; [auto|].
    eapply Forall2_impl; [exact Hcs2|]. now intros n lc [H _].
  - unfold labels. simpl. now rewrite Hlab.
  - pose proof (residual_of_ok df (transpose x) names Hwf Hnd Hex_n Hres) as Hok.
    rewrite List.Forall_forall in Hok. apply List.Forall_forall. intros n Hn.
    split; [unfold labels; simpl; now rewrite Hlab|]. exact (Hok n Hn).
Qed.

(** The frame of the scripts' [create_residuals_df] in closed form. *)
Lemma scripts_residuals_closed_form df names covars :
  well_formed df ->
  List.NoDup (labels df) ->
  names <> [] ->
  Forall (fun n => exists c, In (n, c) (columns df)) (names ++ covars) ->
  (forall x n y, In n names -> loc_col df n = Ok y ->
                 exists r, residuals x y = Ok r /\ col_length r = col_length y) ->
  exists x,
    design_of df covars x /\
    Scripts.create_residuals_df residuals df names covars
    = Ok (mkDataFrame (index df)
            (replace_columns (residual_of residuals df (transpose x)) names (columns df))).
Proof.
  intros Hwf Hnd Hne Hex Hres.
  pose proof Hex as Hex'. apply List.Forall_app in Hex' as [Hex_n Hex_c].
  assert (columns df <> []) as Hcols.
  { destruct names as [|n names]; [contradiction|].
    apply List.Forall_cons_iff in Hex_n as [[c Hc] _]. intros E. now rewrite E in Hc. }
  destruct (design_total df covars Hnd Hex_c Hcols) as (x & Hx & Hdesign).
  exists x. split; [exact Hdesign|].
  unfold Scripts.create_residuals_df. cbv zeta. rewrite Hx. simpl.
  apply residual_loop_closed_form; [exact Hnd|].
  pose proof (residual_of_ok df (transpose x) names Hwf Hnd Hex_n Hres) as Hok.
  rewrite List.Forall_forall in Hok, Hex_n. apply List.Forall_forall. intros n Hn.
  split; [|exact (Hok n Hn)].
  destruct (Hex_n n Hn) as [c Hc]. unfold labels. change n with (fst (n, c)).
  now apply in_map.
Qed.

End ResidualValues.

Lemma design_of_functional df covars x x' :
  design_of df covars x -> design_of df covars x' -> x = x'.
Proof.
  destruct covars as [|a [|b covars]]; simpl;
    intros (s & Hs & ->) (s' & Hs' & ->); congruence.
Qed.

Lemma loc_col_map_names (f : string -> column) idx n names :
  In n names ->
  loc_col (mkDataFrame idx (map (fun m => (m, f m)) names)) n = Ok (f n).
Proof.
  intros Hin. unfold loc_col, columns_labelled. simpl.
  destruct (filter_label_map f n names Hin) as [rest ->]. reflexivity.
Qed.

Lemma numeric_columns_exist df names :
  Forall (fun n => exists c, In (n, c) (columns df) /\
                             issubdtype_number (col_dtype c) = true) names ->
  Forall (fun n => exists c, In (n, c) (columns df)) names.
Proof.
  apply List.Forall_impl. intros n (c & Hc & _). now exists c.
Qed.

(** X4: on a well-formed frame with unique labels whose requested columns
    are all numeric, for region names without repetition,
    [create_residuals_df] returns a frame in which the
    column of every name is the residual of that column of the ORIGINAL
    frame against one design matrix, the same for every name: the
    covariate columns stacked when there are two or more, the single
    covariate sub-frame when there is one, and a column of ones shaped like
    the frame's first column when there is none. *)
Theorem create_residuals_df_values :
  forall residuals df names covars,
    well_formed df ->
    List.NoDup (labels df) ->
    names <> [] ->
    List.NoDup names ->
    Forall (fun n => exists c, In (n, c) (columns df) /\
                               issubdtype_number (col_dtype c) = true)
           (names ++ covars) ->
    (forall x n y, In n names -> loc_col df n = Ok y ->
                   exists r, residuals x y = Ok r /\ col_length r = col_length y) ->
    exists x df_res,
      design_of df covars x /\
      create_residuals_df residuals df names (Some covars) = Ok df_res /\
      forall n y, In n names -> loc_col df n = Ok y ->
                  exists r, residuals (transpose x) y = Ok r /\ loc_col df_res n = Ok r.
Proof.
  intros residuals df names covars Hwf Hnd Hne Hnames Hreq Hres.
  destruct (scona_residuals_closed_form residuals df names covars Hwf Hnd Hne Hnames
              Hreq Hres) as (x & Hdesign & Hrun).
  exists x. eexists. split; [exact Hdesign|]. split; [exact Hrun|].
  intros n y Hn Hy.
  pose proof (numeric_columns_exist _ _ Hreq) as Hex.
  apply List.Forall_app in Hex as [Hex_n _].
  pose proof (residual_of_ok residuals df (transpose x) names Hwf Hnd Hex_n Hres) as Hok.
  rewrite List.Forall_forall in Hok. destruct (Hok n Hn) as (y' & Hy' & Hr & _).
  exists (residual_of residuals df (transpose x) n). split.
  - congruence.
  - now apply loc_col_map_names.
Qed.

Lemma create_residuals_df_values_witness :
  exists x df_res,
    design_of sample_measures ["age"] x /\
    create_residuals_df perfect_fit sample_measures ["region_a"; "region_b"] (Some ["age"])
    = Ok df_res /\
    forall n y, In n ["region_a"; "region_b"] -> loc_col sample_measures n = Ok y ->
                exists r, perfect_fit (transpose x) y = Ok r /\ loc_col df_res n = Ok r.
Proof.
  apply (create_residuals_df_values perfect_fit sample_measures
           ["region_a"; "region_b"] ["age"]).
  - repeat constructor.
  - literal_nodup.
  - discriminate.
  - literal_nodup.
  - literal_columns.
  - intros x n y _ _. eexists. split; [reflexivity|].
    unfold col_length. simpl. now rewrite !length_map.
Defined.

Lemma replace_columns_untouched r names cols lc :
  In lc cols -> ~ In (fst lc) names -> In lc (replace_columns r names cols).
Proof.
  intros Hin Hnot. unfold replace_columns. apply List.in_map_iff. exists lc.
  split; [|exact Hin].
  destruct (existsb (String.eqb (fst lc)) names) eqn:E; [|reflexivity].
  apply existsb_eqb_In in E. contradiction.
Qed.

Lemma replace_columns_replaced r names cols n c :
  In (n, c) cols -> In n names -> In (n, r n) (replace_columns r names cols).
Proof.
  intros Hin Hn. unfold replace_columns. apply List.in_map_iff. exists (n, c).
  split; [|exact Hin]. simpl.
  now rewrite (proj2 (existsb_eqb_In n names) Hn).
Qed.

(** X5: the older scripts version of [create_residuals_df] starts from a
    copy of the WHOLE frame and does no dtype validation: when the names
    and covariates are columns of the frame it returns a frame with the
    labels (in their order) and index of the input, every column that is
    not a name kept as it was (the covariates included), and the column of
    every name replaced by its residual against the design matrix. *)
Theorem scripts_create_residuals_df_keeps_frame :
  forall residuals df names covars_list,
    well_formed df ->
    List.NoDup (labels df) ->
    names <> [] ->
    Forall (fun n => exists c, In (n, c) (columns df)) (names ++ covars_list) ->
    (forall x n y, In n names -> loc_col df n = Ok y ->
                   exists r, residuals x y = Ok r /\ col_length r = col_length y) ->
    exists x df_res,
      design_of df covars_list x /\
      Scripts.create_residuals_df residuals df names covars_list = Ok df_res /\
      labels df_res = labels df /\
      index df_res = index df /\
      (forall lc, In lc (columns df) -> ~ In (fst lc) names -> In lc (columns df_res)) /\
      (forall n y, In n names -> loc_col df n = Ok y ->
                   exists r, residuals (transpose x) y = Ok r /\ loc_col df_res n = Ok r).
Proof.
  intros residuals df names covars Hwf Hnd Hne Hex Hres.
  destruct (scripts_residuals_closed_form residuals df names covars Hwf Hnd Hne Hex Hres)
    as (x & Hdesign & Hrun).
  exists x. eexists. split; [exact Hdesign|]. split; [exact Hrun|].
  split; [apply replace_columns_labels|]. split; [reflexivity|].
  split; [intros lc; apply replace_columns_untouched|].
  intros n y Hn Hy.
  pose proof Hex as Hex'. apply List.Forall_app in Hex' as [Hex_n _].
  pose proof (residual_of_ok residuals df (transpose x) names Hwf Hnd Hex_n Hres) as Hok.
  rewrite List.Forall_forall in Hok, Hex_n. destruct (Hok n Hn) as (y' & Hy' & Hr & _).
  exists (residual_of residuals df (transpose x) n). split; [congruence|].
  destruct (Hex_n n Hn) as [c Hc].
  apply loc_col_unique.
  - unfold labels. simpl. rewrite replace_columns_labels. exact Hnd.
  - simpl. now apply replace_columns_replaced with c.
Qed.

Lemma scripts_create_residuals_df_keeps_frame_witness :
  exists x df_res,
    design_of flagged_measures ["male"] x /\
    Scripts.create_residuals_df perfect_fit flagged_measures ["region_a"] ["male"]
    = Ok df_res /\
    labels df_res = labels flagged_measures /\
    index df_res = index flagged_measures /\
    (forall lc, In lc (columns flagged_measures) -> ~ In (fst lc) ["region_a"] ->
                In lc (columns df_res)) /\
    (forall n y, In n ["region_a"] -> loc_col flagged_measures n = Ok y ->
                 exists r, perfect_fit (transpose x) y = Ok r /\ loc_col df_res n = Ok r).
Proof.
  apply (scripts_create_residuals_df_keeps_frame perfect_fit flagged_measures
           ["region_a"] ["male"]).
  - repeat constructor.
  - literal_nodup.
  - discriminate.
  - literal_columns.
  - intros x n y _ _. eexists. split; [reflexivity|].
    unfold col_length. simpl. now rewrite !length_map.
Defined.

Lemma select_replaced_columns r names cols idx : forall part,
  List.NoDup (map fst cols) ->
  (forall n, In n part -> In n names /\ exists c, In (n, c) cols) ->
  select_columns (mkDataFrame idx (replace_columns r names cols)) part
  = Ok (map (fun n => (n, r n)) part).
Proof.
  intros part Hnd. induction part as [|n part IH]; intros H; [reflexivity|].
  destruct (H n (or_introl eq_refl)) as (Hn & c & Hc). simpl.
  rewrite (columns_labelled_unique _ n (r n)).
  - rewrite IH; [reflexivity|]. intros m Hm. apply H. now right.
  - unfold labels. simpl. now rewrite replace_columns_labels.
  - simpl. now apply replace_columns_replaced with c.
Qed.

(** X6: the two versions of [create_residuals_df] compute the same
    residual columns. On a frame that the newer one accepts, for region
    names without repetition, the older one succeeds as well, and selecting the names from its result gives exactly
    the frame the newer one returns. *)
Theorem create_residuals_df_versions_agree :
  forall residuals df names covars,
    well_formed df ->
    List.NoDup (labels df) ->
    names <> [] ->
    List.NoDup names ->
    Forall (fun n => exists c, In (n, c) (columns df) /\
                               issubdtype_number (col_dtype c) = true)
           (names ++ covars) ->
    (forall x n y, In n names -> loc_col df n = Ok y ->
                   exists r, residuals x y = Ok r /\ col_length r = col_length y) ->
    exists whole part,
      Scripts.create_residuals_df residuals df names covars = Ok whole /\
      create_residuals_df residuals df names (Some covars) = Ok part /\
      getitem_list whole names = Ok part.
Proof.
  intros residuals df names covars Hwf Hnd Hne Hnames Hreq Hres.
  pose proof (numeric_columns_exist _ _ Hreq) as Hex.
  destruct (scona_residuals_closed_form residuals df names covars Hwf Hnd Hne Hnames
              Hreq Hres) as (x & Hdesign & Hrun).
  destruct (scripts_residuals_closed_form residuals df names covars Hwf Hnd Hne Hex Hres)
    as (x' & Hdesign' & Hrun').
  rewrite <- (design_of_functional _ _ _ _ Hdesign Hdesign') in Hrun'.
  eexists. eexists. split; [exact Hrun'|]. split; [exact Hrun|].
  unfold getitem_list. rewrite select_replaced_columns; [reflexivity|exact Hnd|].
  apply List.Forall_app in Hex as [Hex_n _]. rewrite List.Forall_forall in Hex_n.
  intros n Hn. split; [exact Hn|]. exact (Hex_n n Hn).
Qed.

Lemma create_residuals_df_versions_agree_witness :
  exists whole part,
    Scripts.create_residuals_df perfect_fit sample_measures ["region_b"; "region_a"] []
    = Ok whole /\
    create_residuals_df perfect_fit sample_measures ["region_b"; "region_a"] (Some [])
    = Ok part /\
    getitem_list whole ["region_b"; "region_a"] = Ok part.
Proof.
  apply (create_residuals_df_versions_agree perfect_fit sample_measures
           ["region_b"; "region_a"] []).
  - repeat constructor.
  - literal_nodup.
  - discriminate.
  - literal_nodup.
  - literal_columns.
  - intros x n y _ _. eexists. split; [reflexivity|].
    unfold col_length. simpl. now rewrite !length_map.
Defined.

(** ** The correlation step *)

Lemma in_labels_column df n : In n (labels df) <-> exists c, In (n, c) (columns df).
Proof.
  unfold labels. rewrite in_map_iff. split.
  - intros ([m c] & E & H). simpl in E. subst m. now exists c.
  - intros (c & H). now exists (n, c).
Qed.

(** X7: [create_corrmat] validates before it selects, the other way round
    from [create_residuals_df]: asked for a name that the frame lacks, it
    raises [KeyError] once the validation has found every column of the
    frame numeric, and it reaches neither the cast nor [DataFrame.corr]. *)
Theorem create_corrmat_missing_label :
  forall df_res names method,
    get_non_numeric_cols df_res = [] ->
    Exists (fun n => ~ In n (labels df_res)) names ->
    exists m, In m names /\ ~ In m (labels df_res) /\
              forall corr float_of_string,
                create_corrmat corr float_of_string df_res (Some names) method
                = Raise (KeyError m).
Proof.
  intros df names method Hnum H.
  destruct (select_columns_missing df names H) as (m & Hm & Hout & Hsel).
  exists m. split; [exact Hm|]. split; [exact Hout|]. intros corr fos.
  unfold create_corrmat, getitem_list. rewrite Hnum. simpl. now rewrite Hsel.
Qed.

Lemma create_corrmat_missing_label_witness :
  exists m, In m ["region_a"; "region_z"] /\ ~ In m (labels sample_measures) /\
            forall corr float_of_string,
              create_corrmat corr float_of_string sample_measures
                (Some ["region_a"; "region_z"]) "pearson"
              = Raise (KeyError m).
Proof.
  apply (create_corrmat_missing_label sample_measures ["region_a"; "region_z"] "pearson").
  - reflexivity.
  - apply List.Exists_cons_tl, List.Exists_cons_hd. simpl. intuition discriminate.
Defined.

Lemma astype_float_columns fos (cs : list (string * column)) :
  Forall (fun lc => issubdtype_number (col_dtype (snd lc)) = true) cs ->
  exists fs,
    map_result (fun lc => c ← col_astype_float fos (snd lc); Ok (fst lc, c)) cs = Ok fs /\
    map fst fs = map fst cs /\
    Forall (fun lc => col_dtype (snd lc) = float64) fs /\
    Forall2 (fun lc lf => fst lf = fst lc /\ col_astype_float fos (snd lc) = Ok (snd lf) /\
                          col_length (snd lf) = col_length (snd lc)) cs fs.
Proof.
  induction 1 as [|[n c] cs Hc _ (fs & Hfs & Hl & Hd & Hall)]; simpl.
  - exists []. repeat split; constructor.
  - destruct c as [v|v|v|v]; simpl in Hc; try discriminate; simpl; rewrite Hfs; simpl;
      eexists; (split; [reflexivity|]); simpl; rewrite Hl;
      (split; [reflexivity|]); (split; [constructor; [reflexivity|exact Hd]|]);
      (constructor; [|exact Hall]); simpl; repeat split.
    unfold col_length. simpl. now rewrite !length_map.
Qed.

Lemma astype_float_independent fos fos' (cs : list (string * column)) :
  Forall (fun lc => issubdtype_number (col_dtype (snd lc)) = true) cs ->
  map_result (fun lc => c ← col_astype_float fos (snd lc); Ok (fst lc, c)) cs
  = map_result (fun lc => c ← col_astype_float fos' (snd lc); Ok (fst lc, c)) cs.
Proof.
  induction 1 as [|[n c] cs Hc _ IH]; simpl; [reflexivity|].
  rewrite IH. destruct c; simpl in Hc; try discriminate; reflexivity.
Qed.

Lemma numeric_frame df :
  get_non_numeric_cols df = [] ->
  Forall (fun lc => issubdtype_number (col_dtype (snd lc)) = true) (columns df).
Proof.
  rewrite get_non_numeric_cols_filter. intros H. apply List.Forall_forall. intros lc Hin.
  destruct (issubdtype_number (col_dtype (snd lc))) eqn:E; [reflexivity|].
  assert (In lc (List.filter (fun lc => negb (issubdtype_number (col_dtype (snd lc))))
                             (columns df))) as Hf
    by (apply List.filter_In; split; [exact Hin|now rewrite E]).
  destruct (List.filter _ _); [contradiction|discriminate].
Qed.

(** X8: on a frame with unique labels whose columns are all numeric,
    [create_corrmat] with names that are columns of the frame hands
    [DataFrame.corr] one frame, the same whatever the text parser: it has
    the index of the input, the names as its labels in the requested
    order, float columns only, and under every name the frame's column of
    that name cast to float. *)
Theorem create_corrmat_numeric :
  forall df_res names method,
    List.NoDup (labels df_res) ->
    get_non_numeric_cols df_res = [] ->
    Forall (fun n => In n (labels df_res)) names ->
    exists floats,
      index floats = index df_res /\
      labels floats = names /\
      Forall (fun lc => col_dtype (snd lc) = float64) (columns floats) /\
      forall corr float_of_string,
        create_corrmat corr float_of_string df_res (Some names) method = corr method floats /\
        Forall2 (fun n lf => fst lf = n /\
                             exists c, In (n, c) (columns df_res) /\
                                       col_astype_float float_of_string c = Ok (snd lf))
                names (columns floats).
Proof.
  intros df names method Hnd Hnum Hin.
  assert (Forall (fun n => exists c, In (n, c) (columns df)) names) as Hex.
  { eapply List.Forall_impl; [|exact Hin]. intros n. apply in_labels_column. }
  destruct (select_columns_Forall2 df names Hnd Hex) as (cs & Hcs & Hcs2).
  assert (Forall (fun lc => issubdtype_number (col_dtype (snd lc)) = true) cs) as Hcsnum.
  { pose proof (numeric_frame df Hnum) as Hall. rewrite List.Forall_forall in Hall.
    clear -Hcs2 Hall. induction Hcs2 as [|n lc ns cs [_ H] _ IH]; constructor; auto. }
  destruct (astype_float_columns (fun _ => None) cs Hcsnum) as (fs & Hfs & Hl & Hd & _).
  exists (mkDataFrame (index df) fs). split; [reflexivity|]. split.
  { unfold labels. simpl. rewrite Hl. clear -Hcs2.
    induction Hcs2 as [|n lc ns cs [H _] _ IH]; simpl; congruence. }
  split; [exact Hd|]. intros corr fos. split.
  - apply create_corrmat_delegates with (selected := mkDataFrame (index df) cs).
    + exact Hnum.
    + unfold getitem_list. now rewrite Hcs.
    + unfold astype_float. simpl.
      rewrite (astype_float_independent fos (fun _ => None) cs Hcsnum), Hfs. reflexivity.
  - destruct (astype_float_columns fos cs Hcsnum) as (fs' & Hfs' & _ & _ & Hall).
    rewrite (astype_float_independent fos (fun _ => None) cs Hcsnum), Hfs in Hfs'.
    injection Hfs' as <-. simpl. clear -Hcs2 Hall. revert fs Hall.
    induction Hcs2 as [|n [m c] ns cs [Hm Hc] _ IH]; intros fs Hall;
      inversion Hall as [|? lf ? fs' (Hf & Hcast & _) Hrest]; subst; constructor.
    + simpl in *. split; [congruence|]. exists c. subst m. now split.
    + now apply IH.
Qed.

Lemma create_corrmat_numeric_witness :
  exists floats,
    index floats = index sample_measures /\
    labels floats = ["age"; "region_a"] /\
    Forall (fun lc => col_dtype (snd lc) = float64) (columns floats) /\
    forall corr float_of_string,
      create_corrmat corr float_of_string sample_measures (Some ["age"; "region_a"])
        "spearman" = corr "spearman" floats /\
      Forall2 (fun n lf => fst lf = n /\
                           exists c, In (n, c) (columns sample_measures) /\
                                     col_astype_float float_of_string c = Ok (snd lf))
              ["age"; "region_a"] (columns floats).
Proof.
  apply (create_corrmat_numeric sample_measures ["age"; "region_a"] "spearman").
  - literal_nodup.
  - reflexivity.
  - repeat (apply List.Forall_cons; [simpl; intuition|]). apply List.Forall_nil.
Defined.

Lemma astype_float_identity fos df :
  Forall (fun lc => col_dtype (snd lc) = float64) (columns df) ->
  astype_float fos df = Ok df.
Proof.
  intros H. unfold astype_float.
  assert (map_result (fun lc => c ← col_astype_float fos (snd lc); Ok (fst lc, c))
                     (columns df) = Ok (columns df)) as ->.
  { induction H as [|[n c] cs Hc _ IH]; simpl; [reflexivity|].
    rewrite IH. destruct c; simpl in Hc; try discriminate; reflexivity. }
  simpl. now destruct df.
Qed.

Lemma select_columns_from df names cs :
  select_columns df names = Ok cs -> forall lc, In lc cs -> In lc (columns df).
Proof.
  revert cs. induction names as [|n names IH]; simpl; intros cs H lc Hin.
  - injection H as <-. contradiction.
  - destruct (columns_labelled df n) as [|l0 l] eqn:E; [discriminate|].
    destruct (select_columns df names) as [rest|e]; [|discriminate].
    simpl in H. injection H as <-. change (In lc ((l0 :: l) ++ rest)) in Hin.
    apply in_app_or in Hin as [Hin|Hin].
    + rewrite <- E in Hin. unfold columns_labelled in Hin.
      now apply List.filter_In in Hin as [Hin _].
    + now apply (IH rest).
Qed.

(** X9: on a frame of float columns, the newer [create_corrmat] and the
    older scripts version do the same thing for every list of names, valid
    or not: the validation finds nothing, the cast to float changes nothing,
    and a missing name fails both in the same way. *)
Theorem create_corrmat_versions_agree :
  forall corr float_of_string df_res names method,
    Forall (fun lc => col_dtype (snd lc) = float64) (columns df_res) ->
    create_corrmat corr float_of_string df_res (Some names) method
    = Scripts.create_corrmat corr df_res names method.
Proof.
  intros corr fos df names method H.
  assert (get_non_numeric_cols df = []) as Hnum.
  { apply get_non_numeric_cols_nil. eapply List.Forall_impl; [|exact H].
    intros lc E. now rewrite E. }
  unfold create_corrmat, Scripts.create_corrmat. rewrite Hnum. simpl.
  unfold getitem_list. destruct (select_columns df names) as [cs|e] eqn:E; [|reflexivity].
  simpl. rewrite astype_float_identity; [reflexivity|]. simpl.
  rewrite List.Forall_forall in H. apply List.Forall_forall. intros lc Hin.
  apply H. exact (select_columns_from df names cs E lc Hin).
Qed.

Lemma create_corrmat_versions_agree_witness :
  create_corrmat echo_corr (fun _ => None) residual_sample (Some ["region_b"]) "pearson"
  = Scripts.create_corrmat echo_corr residual_sample ["region_b"] "pearson".
Proof.
  apply (create_corrmat_versions_agree echo_corr (fun _ => None) residual_sample
           ["region_b"] "pearson").
  repeat constructor.
Defined.

Lemma select_map_names (g : string -> column) idx names : forall part,
  List.NoDup names ->
  (forall n, In n part -> In n names) ->
  select_columns (mkDataFrame idx (map (fun n => (n, g n)) names)) part
  = Ok (map (fun n => (n, g n)) part).
Proof.
  intros part Hnd. induction part as [|n part IH]; intros H; [reflexivity|]. simpl.
  rewrite (columns_labelled_unique _ n (g n)).
  - rewrite IH; [reflexivity|]. intros m Hm. apply H. now right.
  - unfold labels. simpl. rewrite map_map. simpl. now rewrite map_id.
  - simpl. apply List.in_map_iff. exists n. split; [reflexivity|]. apply H. now left.
Qed.

(** X10: the two steps of [corrmat_from_regionalmeasures] fit together.
    With distinct region names, a frame that [create_residuals_df] accepts
    and a regression routine that returns float arrays, the validation of
    [create_corrmat] finds nothing, its selection and its cast to float
    change nothing, and the result is the cells of what [DataFrame.corr]
    makes of exactly the frame of residuals. *)
Theorem corrmat_from_regionalmeasures_composes :
  forall residuals corr float_of_string df names covars method,
    well_formed df ->
    List.NoDup (labels df) ->
    List.NoDup names ->
    names <> [] ->
    Forall (fun n => exists c, In (n, c) (columns df) /\
                               issubdtype_number (col_dtype c) = true)
           (names ++ covars) ->
    (forall x n y, In n names -> loc_col df n = Ok y ->
                   exists v, residuals x y = Ok (Float64 v) /\ length v = col_length y) ->
    exists df_res,
      create_residuals_df residuals df names (Some covars) = Ok df_res /\
      create_corrmat corr float_of_string df_res (Some names) method = corr method df_res /\
      corrmat_from_regionalmeasures residuals corr float_of_string df names (Some covars)
        method
      = (M ← corr method df_res; Ok (frame_values M)).
Proof.
  intros residuals corr fos df names covars method Hwf Hnd Hnames Hne Hreq Hfloat.
  assert (forall x n y, In n names -> loc_col df n = Ok y ->
                        exists r, residuals x y = Ok r /\ col_length r = col_length y) as Hres.
  { intros x n y Hn Hy. destruct (Hfloat x n y Hn Hy) as (v & Hv & Hlen).
    exists (Float64 v). split; [exact Hv|]. unfold col_length in *. simpl.
    now rewrite length_map. }
  destruct (scona_residuals_closed_form residuals df names covars Hwf Hnd Hne Hnames
              Hreq Hres) as (x & _ & Hrun).
  set (g := residual_of residuals df (transpose x)) in *.
  set (df_res := mkDataFrame (index df) (map (fun n => (n, g n)) names)) in *.
  assert (Forall (fun lc => col_dtype (snd lc) = float64) (columns df_res)) as Hfl.
  { unfold df_res. simpl. apply List.Forall_map. apply List.Forall_forall. intros n Hn. simpl.
    pose proof (numeric_columns_exist _ _ Hreq) as Hex.
    apply List.Forall_app in Hex as [Hex_n _]. rewrite List.Forall_forall in Hex_n.
    destruct (Hex_n n Hn) as [c Hc].
    pose proof (loc_col_unique _ _ _ Hnd Hc) as Hy.
    destruct (Hfloat (transpose x) n c Hn Hy) as (v & Hv & _).
    unfold g, residual_of. now rewrite Hy, Hv. }
  assert (create_corrmat corr fos df_res (Some names) method = corr method df_res) as Hcorr.
  { apply create_corrmat_delegates with (selected := df_res).
    - apply get_non_numeric_cols_nil. eapply List.Forall_impl; [|exact Hfl].
      intros lc E. now rewrite E.
    - unfold getitem_list, df_res.
      rewrite (select_map_names g (index df) names names Hnames); [reflexivity|auto].
    - now apply astype_float_identity. }
  exists df_res. split; [exact Hrun|]. split; [exact Hcorr|].
  unfold corrmat_from_regionalmeasures. rewrite Hrun. simpl. now rewrite Hcorr.
Qed.

Lemma corrmat_from_regionalmeasures_composes_witness :
  exists df_res,
    create_residuals_df perfect_fit sample_measures ["region_a"; "region_b"] (Some ["age"])
    = Ok df_res /\
    create_corrmat echo_corr sample_float_of_string df_res (Some ["region_a"; "region_b"])
      "pearson" = echo_corr "pearson" df_res /\
    corrmat_from_regionalmeasures perfect_fit echo_corr sample_float_of_string
      sample_measures ["region_a"; "region_b"] (Some ["age"]) "pearson"
    = (M ← echo_corr "pearson" df_res; Ok (frame_values M)).
Proof.
  apply (corrmat_from_regionalmeasures_composes perfect_fit echo_corr sample_float_of_string
           sample_measures ["region_a"; "region_b"] ["age"] "pearson").
  - repeat constructor.
  - literal_nodup.
  - literal_nodup.
  - discriminate.
  - literal_columns.
  - intros x n y _ _. eexists. split; [reflexivity|].
    unfold col_length. now rewrite !length_map.
Defined.

(** X11: the validation tests the truth value of the array of offending
    labels, and an array holding one empty string is false. A frame whose
    only column is text under the empty label therefore passes the
    validation of [create_corrmat]: when its cells parse as numbers,
    [DataFrame.corr] is run on the parsed column instead of [TypeError]
    being raised. *)
Theorem create_corrmat_empty_label_escapes :
  forall corr float_of_string idx cells parsed method,
    map_result (parse_float float_of_string) cells = Ok parsed ->
    get_non_numeric_cols (unlabelled_text idx cells) = [EmptyString] /\
    create_corrmat corr float_of_string (unlabelled_text idx cells) None method
    = corr method (mkDataFrame idx [(EmptyString, Float64 parsed)]).
Proof.
  intros corr fos idx cells parsed method H. split; [reflexivity|].
  unfold create_corrmat, getitem_list, astype_float. simpl. rewrite H. reflexivity.
Qed.

Lemma create_corrmat_empty_label_escapes_witness :
  get_non_numeric_cols (unlabelled_text (RangeIndex 2) ["1.0"; "0.5"]) = [EmptyString] /\
  create_corrmat echo_corr sample_float_of_string (unlabelled_text (RangeIndex 2) ["1.0"; "0.5"])
    None "pearson"
  = echo_corr "pearson" (mkDataFrame (RangeIndex 2) [(EmptyString, Float64 [f_one; f_half])]).
Proof.
  apply (create_corrmat_empty_label_escapes echo_corr sample_float_of_string
           (RangeIndex 2) ["1.0"; "0.5"] [f_one; f_half] "pearson").
  reflexivity.
Defined.

(** ** The correlation matrix *)


















(** ** The command-line wrapper *)

(** X12: the command-line wrapper hands its output name to [save_mat]
    unchanged, so with an output name that has no directory part it never
    writes: whatever the reader, the regression and the correlation do,
    the run ends in an exception and the file system is as it was. *)
Theorem wrapper_bare_output_name_never_writes :
  forall read_in_data residuals corr isurl fs regional_measures_file names_file
         output_name covars_file names_308_style method,
    has_slash output_name = false ->
    exists e,
      Wrappers.corrmat_from_regionalmeasures read_in_data residuals corr isurl fs
        regional_measures_file names_file output_name covars_file names_308_style method
      = (Raise e, fs).
Proof.
  intros read residuals corr isurl fs rm nf out cf style method H.
  unfold Wrappers.corrmat_from_regionalmeasures.
  destruct (read fs rm nf cf style) as [[[df names] covars]|e]; [|now exists e].
  destruct (Scripts.create_residuals_df residuals df names covars) as [df_res|e];
    [|now exists e].
  destruct (Scripts.create_corrmat corr df_res names method) as [M|e]; [|now exists e].
  exists (FileNotFoundError EmptyString).
  unfold save_mat. rewrite (dirname_no_slash _ H). reflexivity.
Qed.

Lemma wrapper_bare_output_name_never_writes_witness :
  exists e,
    Wrappers.corrmat_from_regionalmeasures sample_reader perfect_fit echo_corr no_url
      empty_fs "measures.csv" "names.txt" "corrmat.txt" None false "pearson"
    = (Raise e, empty_fs).
Proof.
  apply (wrapper_bare_output_name_never_writes sample_reader perfect_fit echo_corr no_url
           empty_fs "measures.csv" "names.txt" "corrmat.txt" None false "pearson").
  reflexivity.
Defined.

(** ** Group partitioning: failures, shapes and the shuffled column *)

Lemma loc_col_present df g : In g (labels df) -> exists c, loc_col df g = Ok c.
Proof.
  intros H. unfold loc_col. destruct (columns_labelled df g) as [|lc l] eqn:E.
  - apply columns_labelled_nil in E. contradiction.
  - now exists (snd lc).
Qed.

Lemma loc_col_absent df g : ~ In g (labels df) -> loc_col df g = Raise (KeyError g).
Proof. intros H. unfold loc_col. now rewrite (proj2 (columns_labelled_nil df g) H). Qed.

Lemma set_column_index df name c df' :
  set_column df name c = Ok df' -> index df' = index df.
Proof.
  unfold set_column. destruct (negb _); [discriminate|].
  destruct (columns_labelled df name); intros H; injection H as <-; reflexivity.
Qed.

Lemma set_column_others df name c df' n :
  set_column df name c = Ok df' -> n <> name ->
  columns_labelled df' n = columns_labelled df n.
Proof.
  unfold set_column. destruct (negb _); [discriminate|]. intros H Hne.
  unfold columns_labelled in *.
  destruct (List.filter _ (columns df)) as [|lc l]; injection H as <-; simpl.
  - rewrite List.filter_app. simpl.
    destruct (String.eqb_spec name n) as [E|_]; [now subst|]. now rewrite app_nil_r.
  - induction (columns df) as [|[m c'] cols IH]; simpl; [reflexivity|].
    destruct (String.eqb_spec m name) as [->|Hm]; simpl.
    + destruct (String.eqb_spec name n) as [E|_]; [now subst|]. exact IH.
    + now rewrite IH.
Qed.

Lemma set_column_labels df name c df' :
  set_column df name c = Ok df' ->
  labels df' = if existsb (String.eqb name) (labels df) then labels df
               else labels df ++ [name].
Proof.
  unfold set_column. destruct (negb _); [discriminate|]. intros H.
  destruct (columns_labelled df name) as [|lc l] eqn:E; injection H as <-.
  - apply columns_labelled_nil in E.
    destruct (existsb (String.eqb name) (labels df)) eqn:Ex.
    + apply existsb_eqb_In in Ex. contradiction.
    + unfold labels. simpl. now rewrite map_app.
  - assert (In name (labels df)) as Hin.
    { destruct (in_dec String.eq_dec name (labels df)) as [Hin|Hout]; [exact Hin|].
      apply columns_labelled_nil in Hout. congruence. }
    rewrite (proj2 (existsb_eqb_In name (labels df)) Hin).
    unfold labels. simpl. rewrite map_map. apply map_ext. intros [m c']. simpl.
    now destruct (String.eqb_spec m name).
Qed.

Lemma length_py_set vs : (length (py_set vs) <= length vs)%nat.
Proof.
  unfold py_set.
  assert (forall acc, (length (fold_left set_add vs acc) <= length acc + length vs)%nat) as H.
  { induction vs as [|x vs IH]; intros acc; simpl; [lia|].
    specialize (IH (set_add acc x)). unfold set_add in *.
    destruct (existsb _ _); [lia|]. rewrite length_app in IH. simpl in IH. lia. }
  apply (H []).
Qed.

Lemma sublist_mask_select {A : Type} mask : forall l : list A,
  sublist (mask_select mask l) l.
Proof.
  induction mask as [|b mask IH]; intros [|x l]; simpl; try apply sublist_nil_l.
  destruct b; [apply sublist_skip|apply sublist_cons]; apply IH.
Qed.

Lemma length_mask_select_same {A B : Type} mask : forall (l : list A) (l' : list B),
  length l = length l' -> length (mask_select mask l) = length (mask_select mask l').
Proof.
  induction mask as [|b mask IH]; intros [|x l] [|y l'] H; simpl in *; try discriminate;
    try reflexivity.
  destruct b; simpl; rewrite (IH l l') by lia; reflexivity.
Qed.

Lemma well_formed_loc_rows mask df : well_formed df -> well_formed (loc_rows mask df).
Proof.
  unfold well_formed, loc_rows, nrows. simpl. intros H. apply List.Forall_map.
  eapply List.Forall_impl; [|exact H]. intros [n c] Hc. simpl in *.
  unfold col_length in *. rewrite col_values_mask.
  now apply length_mask_select_same.
Qed.

Lemma size_assign_all {A V : Type} (key : A -> string) (item : A -> V) vs :
  forall d : gmap string V, (size (assign_all key item vs d) <= size d + length vs)%nat.
Proof.
  unfold assign_all. induction vs as [|v vs IH]; intros d; simpl; [lia|].
  etransitivity; [apply IH|].
  destruct (d !! key v) eqn:E.
  - rewrite map_size_insert_Some by eauto. lia.
  - rewrite map_size_insert_None by exact E. lia.
Qed.

Section GroupShapes.

Variable float_repr : spec_float -> string.

(** What a run of [split_groups] does, in either mode: the frame it leaves
    behind, the column it partitions on and the dictionary it returns. *)
Lemma split_groups_run rng df g c shuffle :
  well_formed df -> loc_col df g = Ok c ->
  exists rng' df' c',
    let g' := if shuffle : bool then g +:+ "_rand" else g in
    split_groups float_repr rng df g shuffle
    = Ok (mkOutcome rng' df'
            (assign_all (group_key float_repr g') (fun v => loc_rows (eq_mask c' v) df')
                        (py_set (col_values c')) ∅)) /\
    well_formed df' /\
    index df' = index df /\
    loc_col df' g' = Ok c' /\
    col_values c' ≡ₚ col_values c.
Proof.
  intros Hwf Hc. destruct shuffle.
  - destruct (split_groups_shuffle float_repr rng df g c Hwf Hc)
      as (shuffled & rng' & df' & Hshuf & Hset & Hwf' & _ & Hread & Hrun).
    destruct (np_random_permutation_values rng c) as [Hperm _].
    rewrite Hshuf in Hperm. simpl in Hperm.
    exists rng', df', shuffled. cbv zeta. split; [exact Hrun|]. split; [exact Hwf'|].
    split; [exact (set_column_index _ _ _ _ Hset)|]. split; [exact Hread|exact Hperm].
  - exists rng, df, c. cbv zeta. split; [now apply split_groups_no_shuffle|].
    repeat split; auto.
Qed.

Lemma split_dict_entries g df c k sub :
  assign_all (group_key float_repr g) (fun v => loc_rows (eq_mask c v) df)
             (py_set (col_values c)) ∅ !! k = Some sub ->
  exists v, In v (col_values c) /\ k = group_key float_repr g v /\
            sub = loc_rows (eq_mask c v) df.
Proof.
  intros H. apply assign_all_inv in H as [H|(v & Hv & Hk & Hsub)].
  - rewrite lookup_empty in H. discriminate.
  - exists v. split; [now apply py_set_incl|]. now split.
Qed.

(** X13: on a well-formed frame with unique labels [split_groups]
    succeeds, with or without shuffling, exactly when the group variable is
    a column label; otherwise it raises [KeyError] for the group variable,
    and it raises nothing else. *)
Theorem split_groups_fails_only_on_missing_column :
  forall rng df g shuffle,
    well_formed df ->
    List.NoDup (labels df) ->
    (is_ok (split_groups float_repr rng df g shuffle) = true <-> In g (labels df)) /\
    (forall e, split_groups float_repr rng df g shuffle = Raise e -> e = KeyError g).
Proof.
  intros rng df g shuffle Hwf _.
  destruct (in_dec String.eq_dec g (labels df)) as [Hin|Hout].
  - destruct (loc_col_present df g Hin) as [c Hc].
    destruct (split_groups_run rng df g c shuffle Hwf Hc) as (rng' & df' & c' & Hrun & _).
    cbv zeta in Hrun. rewrite Hrun. split; [tauto|]. intros e He. discriminate.
  - assert (split_groups float_repr rng df g shuffle = Raise (KeyError g)) as ->.
    { unfold split_groups.
      destruct shuffle; simpl; rewrite (loc_col_absent df g Hout); reflexivity. }
    split; [|congruence]. simpl. split; [discriminate|contradiction].
Qed.

(** X14: on a well-formed frame with unique labels, every subset that
    [split_groups] returns, with or without shuffling, is a well-formed
    frame with the labels of the frame that the
    call leaves behind, and its index is a subsequence of the index of the
    input: rows are selected in their original order, never repeated; the
    dictionary has at most one entry per row. *)
Theorem split_groups_subsets_shape :
  forall rng df g c shuffle,
    well_formed df ->
    List.NoDup (labels df) ->
    loc_col df g = Ok c ->
    exists out,
      split_groups float_repr rng df g shuffle = Ok out /\
      index (df_after out) = index df /\
      (size (split_dict out) <= nrows df)%nat /\
      forall k sub, split_dict out !! k = Some sub ->
                    well_formed sub /\
                    labels sub = labels (df_after out) /\
                    sublist (index sub) (index df).
Proof.
  intros rng df g c shuffle Hwf _ Hc.
  destruct (split_groups_run rng df g c shuffle Hwf Hc)
    as (rng' & df' & c' & Hrun & Hwf' & Hidx & Hread & Hperm).
  cbv zeta in Hrun. eexists. split; [exact Hrun|]. cbn [df_after split_dict].
  split; [exact Hidx|]. split.
  - etransitivity; [apply size_assign_all|]. rewrite map_size_empty. simpl.
    etransitivity; [apply length_py_set|].
    pose proof (loc_col_length _ _ _ Hwf' Hread) as Hlen.
    unfold col_length in Hlen. rewrite Hlen. unfold nrows. now rewrite Hidx.
  - intros k sub H. apply split_dict_entries in H as (v & _ & _ & ->).
    split; [now apply well_formed_loc_rows|]. split; [apply labels_loc_rows|].
    rewrite index_loc_rows, Hidx. apply sublist_mask_select.
Qed.

(** X15: on a well-formed frame with unique labels, when [==] is identity
    on the values of the group column (no NaN among them), no subset that
    [split_groups] returns is empty, with or without shuffling. *)
Theorem split_groups_subsets_not_empty :
  forall rng df g c shuffle,
    well_formed df ->
    List.NoDup (labels df) ->
    loc_col df g = Ok c ->
    eq_is_identity (col_values c) ->
    exists out,
      split_groups float_repr rng df g shuffle = Ok out /\
      forall k sub, split_dict out !! k = Some sub -> (0 < nrows sub)%nat.
Proof.
  intros rng df g c shuffle Hwf _ Hc Hid.
  destruct (split_groups_run rng df g c shuffle Hwf Hc)
    as (rng' & df' & c' & Hrun & Hwf' & Hidx & Hread & Hperm).
  cbv zeta in Hrun. eexists. split; [exact Hrun|]. cbn [split_dict].
  intros k sub H. apply split_dict_entries in H as (v & Hv & _ & ->).
  assert (value_eqb v v = true) as Hvv.
  { apply Hid; [| |reflexivity]; apply (Permutation_in _ Hperm Hv). }
  pose proof (loc_col_length _ _ _ Hwf' Hread) as Hlen.
  unfold nrows at 1. rewrite index_loc_rows. unfold eq_mask.
  rewrite (length_mask_select_filter (fun x => value_eqb x v));
    [|unfold col_length, nrows in Hlen; congruence].
  assert (In v (List.filter (fun x => value_eqb x v) (col_values c'))) as Hf
    by (apply List.filter_In; now split).
  destruct (List.filter _ _); [contradiction|simpl; lia].
Qed.

(** X16: on a well-formed frame with unique labels, shuffling writes the
    shuffled group column into the caller's frame under the label [group_var + "_rand"] and touches nothing else:
    the index and every column under another label stay as they were. When
    the frame already has a column under that label, it is overwritten in
    place (the labels stay the same); otherwise the label is appended. *)
Theorem split_groups_shuffle_writes_one_column :
  forall rng df g c,
    well_formed df ->
    List.NoDup (labels df) ->
    loc_col df g = Ok c ->
    exists out shuffled,
      split_groups float_repr rng df g true = Ok out /\
      index (df_after out) = index df /\
      (forall n, n <> g +:+ "_rand" ->
                 columns_labelled (df_after out) n = columns_labelled df n) /\
      labels (df_after out)
      = (if existsb (String.eqb (g +:+ "_rand")) (labels df) then labels df
         else labels df ++ [g +:+ "_rand"]) /\
      loc_col (df_after out) (g +:+ "_rand") = Ok shuffled /\
      col_values shuffled ≡ₚ col_values c /\
      col_dtype shuffled = col_dtype c.
Proof.
  intros rng df g c Hwf _ Hc.
  destruct (split_groups_shuffle float_repr rng df g c Hwf Hc)
    as (shuffled & rng' & df' & Hshuf & Hset & Hwf' & _ & Hread & Hrun).
  destruct (np_random_permutation_values rng c) as [Hperm Hdt].
  rewrite Hshuf in Hperm, Hdt. simpl in Hperm, Hdt.
  eexists. exists shuffled. split; [exact Hrun|]. cbn [df_after].
  split; [exact (set_column_index _ _ _ _ Hset)|].
  split; [intros n Hn; exact (set_column_others _ _ _ _ n Hset Hn)|].
  split; [exact (set_column_labels _ _ _ _ Hset)|]. now repeat split.
Qed.

End GroupShapes.

Lemma split_groups_subsets_shape_witness :
  exists out,
    split_groups fixed_repr (fun i => i) sample_groups "group" true = Ok out /\
    index (df_after out) = index sample_groups /\
    (size (split_dict out) <= nrows sample_groups)%nat /\
    forall k sub, split_dict out !! k = Some sub ->
                  well_formed sub /\
                  labels sub = labels (df_after out) /\
                  sublist (index sub) (index sample_groups).
Proof.
  apply (split_groups_subsets_shape fixed_repr (fun i => i) sample_groups "group"
           (Object ["A"; "A"; "B"; "B"; "B"]) true).
  - repeat constructor.
  - literal_nodup.
  - reflexivity.
Defined.

Lemma split_groups_fails_only_on_missing_column_witness :
  (is_ok (split_groups fixed_repr (fun i => i) sample_groups "sex" false) = true
   <-> In "sex" (labels sample_groups)) /\
  (forall e, split_groups fixed_repr (fun i => i) sample_groups "sex" false = Raise e ->
             e = KeyError "sex").
Proof.
  apply (split_groups_fails_only_on_missing_column fixed_repr (fun i => i) sample_groups
           "sex" false).
  - repeat constructor.
  - literal_nodup.
Defined.

Lemma split_groups_subsets_not_empty_witness :
  exists out,
    split_groups fixed_repr (fun i => i) sample_groups "group" false = Ok out /\
    forall k sub, split_dict out !! k = Some sub -> (0 < nrows sub)%nat.
Proof.
  apply (split_groups_subsets_not_empty fixed_repr (fun i => i) sample_groups "group"
           (Object ["A"; "A"; "B"; "B"; "B"]) false).
  - repeat constructor.
  - literal_nodup.
  - reflexivity.
  - apply (categorical_plain fixed_repr (Object ["A"; "A"; "B"; "B"; "B"])). discriminate.
Defined.

Lemma split_groups_shuffle_writes_one_column_witness :
  exists out shuffled,
    split_groups fixed_repr (fun i => i) taken_rand_label "group" true = Ok out /\
    index (df_after out) = index taken_rand_label /\
    (forall n, n <> "group" +:+ "_rand" ->
               columns_labelled (df_after out) n = columns_labelled taken_rand_label n) /\
    labels (df_after out)
    = (if existsb (String.eqb ("group" +:+ "_rand")) (labels taken_rand_label)
       then labels taken_rand_label
       else labels taken_rand_label ++ ["group" +:+ "_rand"]) /\
    loc_col (df_after out) ("group" +:+ "_rand") = Ok shuffled /\
    col_values shuffled ≡ₚ col_values (Object ["A"; "B"; "A"]) /\
    col_dtype shuffled = col_dtype (Object ["A"; "B"; "A"]).
Proof.
  apply (split_groups_shuffle_writes_one_column fixed_repr (fun i => i) taken_rand_label
           "group" (Object ["A"; "B"; "A"])).
  - repeat constructor.
  - literal_nodup.
  - reflexivity.
Defined.

(** ** Saving: what is touched, and how it fails *)

(** [make_each] keeps every entry and adds directories only, on the way
    it walks. *)
Lemma make_each_frame name todo : forall done (fs : FileSystem) r fs',
  make_each name fs done todo = (r, fs') ->
  (forall l n, fs !! l = Some n -> fs' !! l = Some n) /\
  (forall l n, fs' !! l = Some n ->
               fs !! l = Some n \/
               (n = Dir /\ exists k, (1 <= k <= length todo)%nat /\ l = done ++ take k todo)).
Proof.
  induction todo as [|c todo IH]; intros done fs r fs' H; simpl in H.
  - injection H as <- <-. split; [auto|]. intros l n Hl. now left.
  - assert (forall k, (done ++ [c]) ++ take k todo = done ++ take (S k) (c :: todo)) as Hstep.
    { intros k. simpl. now rewrite <- app_assoc. }
    destruct (node_at fs (done ++ [c])) as [[|t]|] eqn:E.
    + destruct (IH _ _ _ _ H) as [Hkeep Hnew]. split; [exact Hkeep|].
      intros l n Hl. destruct (Hnew l n Hl) as [Hold|(-> & k & Hk & ->)]; [now left|].
      right. split; [reflexivity|]. exists (S k). split; [simpl; lia|apply Hstep].
    + injection H as <- <-. split; [auto|]. intros l n Hl. now left.
    + destruct (IH _ _ _ _ H) as [Hkeep Hnew].
      assert (fs !! (done ++ [c]) = None) as Hfree.
      { unfold node_at in E. destruct (is_base (done ++ [c])); [discriminate|exact E]. }
      split.
      * intros l n Hl. apply Hkeep. rewrite lookup_insert_ne; [exact Hl|].
        intros <-. congruence.
      * intros l n Hl. destruct (Hnew l n Hl) as [Hold|(-> & k & Hk & ->)].
        -- destruct (decide (done ++ [c] = l)) as [<-|Hne].
           ++ rewrite lookup_insert_eq in Hold. injection Hold as <-.
              right. split; [reflexivity|]. exists 1%nat. split; [simpl; lia|reflexivity].
           ++ rewrite lookup_insert_ne in Hold by exact Hne. now left.
        -- right. split; [reflexivity|]. exists (S k). split; [simpl; lia|apply Hstep].
Qed.

(** When [make_each] succeeds, the directory it was asked for is there. *)
Lemma make_each_ok name todo : forall done (fs fs' : FileSystem),
  node_at fs done = Some Dir ->
  make_each name fs done todo = (Ok tt, fs') ->
  node_at fs' (done ++ todo) = Some Dir.
Proof.
  induction todo as [|c todo IH]; intros done fs fs' Hdone H; simpl in H.
  - injection H as <-. now rewrite app_nil_r.
  - change (done ++ c :: todo) with (done ++ [c] ++ todo). rewrite app_assoc.
    destruct (node_at fs (done ++ [c])) as [[|t]|] eqn:E.
    + now apply (IH _ fs).
    + discriminate.
    + apply (IH _ (<[done ++ [c] := Dir]> fs)); [apply node_at_insert_dir|exact H].
Qed.

Lemma is_base_base_of p : is_base (base_of p) = true.
Proof. unfold base_of. now destruct (is_absolute p). Qed.

(** What the first half of [save_mat] leaves behind when it succeeds. *)
Lemma directory_stage_ok (fs fs1 : FileSystem) dn :
  (if negb (os_path_isdir fs dn) then os_makedirs fs dn else (Ok tt, fs)) = (Ok tt, fs1) ->
  exists dir, resolve dn = Some dir /\ node_at fs1 dir = Some Dir.
Proof.
  unfold os_path_isdir, os_makedirs. destruct (resolve dn) as [dir|] eqn:Hdir; simpl.
  - destruct (node_at fs dir) as [[|t]|] eqn:E; simpl; intros H.
    + injection H as <-. now exists dir.
    + destruct (ends_in_dot dn); discriminate.
    + exists dir. split; [reflexivity|].
      assert (dir = base_of dn ++ components dn) as ->.
      { unfold resolve in Hdir. destruct (is_empty dn); [discriminate|]. now injection Hdir. }
      apply (make_each_ok dn _ _ fs); [|exact H].
      unfold node_at. now rewrite is_base_base_of.
  - discriminate.
Qed.

Lemma directory_stage_frame (fs fs1 : FileSystem) dn r :
  (if negb (os_path_isdir fs dn) then os_makedirs fs dn else (Ok tt, fs)) = (r, fs1) ->
  (forall l n, fs !! l = Some n -> fs1 !! l = Some n) /\
  (forall l n, fs1 !! l = Some n ->
               fs !! l = Some n \/
               (n = Dir /\ exists dir k, resolve dn = Some dir /\ l = take k dir)).
Proof.
  assert ((forall l n, fs !! l = Some n -> fs !! l = Some n) /\
          (forall l n, fs !! l = Some n ->
               fs !! l = Some n \/
               (n = Dir /\ exists dir k, resolve dn = Some dir /\ l = take k dir))) as Hsame
    by (split; auto).
  destruct (negb (os_path_isdir fs dn)); [|intros H; injection H as <- <-; exact Hsame].
  unfold os_makedirs. destruct (resolve dn) as [dir|] eqn:Hdir;
    [|intros H; injection H as <- <-; exact Hsame].
  destruct (node_at fs dir) as [[|t]|];
    [intros H; injection H as <- <-; exact Hsame
    |destruct (ends_in_dot dn); intros H; injection H as <- <-; exact Hsame|].
  intros H. destruct (make_each_frame _ _ _ _ _ _ H) as [Hkeep Hnew].
  split; [exact Hkeep|]. intros l n Hl.
  destruct (Hnew l n Hl) as [Hold|(-> & k & Hk & ->)]; [now left|].
  right. split; [reflexivity|]. exists dir, (length (base_of dn) + k)%nat.
  split; [reflexivity|].
  assert (dir = base_of dn ++ components dn) as ->.
  { unfold resolve in Hdir. destruct (is_empty dn); [discriminate|]. now injection Hdir. }
  now rewrite take_app_add.
Qed.

Lemma write_file_inv (fs fs' : FileSystem) name content r :
  write_file fs name content = (r, fs') ->
  (fs' = fs /\ r <> Ok tt) \/
  (r = Ok tt /\ exists loc, resolve name = Some loc /\
                            proper (os_path_basename name) = true /\
                            node_at fs loc <> Some Dir /\
                            node_at fs (removelast loc) = Some Dir /\
                            fs' = <[loc := File content]> fs).
Proof.
  unfold write_file. destruct (resolve name) as [loc|];
    [|intros H; injection H as <- <-; left; split; [reflexivity|discriminate]].
  destruct (proper (os_path_basename name)) eqn:Hb.
  - assert (node_at fs loc <> Some Dir ->
            match node_at fs (removelast loc) with
            | Some Dir => (Ok tt, <[loc := File content]> fs)
            | Some (File _) => (Raise (NotADirectoryError name), fs)
            | None => (Raise (FileNotFoundError name), fs)
            end = (r, fs') ->
            (fs' = fs /\ r <> Ok tt) \/
            (r = Ok tt /\ exists loc0, Some loc = Some loc0 /\ true = true /\
                            node_at fs loc0 <> Some Dir /\
                            node_at fs (removelast loc0) = Some Dir /\
                            fs' = <[loc0 := File content]> fs)) as Hparent.
    { intros Hnd. destruct (node_at fs (removelast loc)) as [[|t]|] eqn:E;
        intros H; injection H as <- <-;
        try (left; split; [reflexivity|discriminate]).
      right. split; [reflexivity|]. exists loc. repeat split; assumption. }
    destruct (node_at fs loc) as [[|t]|] eqn:E.
    + intros H; injection H as <- <-. left. split; [reflexivity|discriminate].
    + apply Hparent. discriminate.
    + apply Hparent. discriminate.
  - destruct (node_at fs loc) as [[|t]|]; [| |destruct (is_empty _)];
      intros H; injection H as <- <-; left; (split; [reflexivity|discriminate]).
Qed.

(** How [np.savetxt] can end: the file cannot be created and nothing
    changes; or it is created and written; or it is created and numpy
    refuses the name, which leaves it empty. *)
Lemma np_savetxt_inv (isurl : string -> result bool) (fs fs' : FileSystem) name M
    delimiter newline r :
  np_savetxt isurl fs name M delimiter newline = (r, fs') ->
  (fs' = fs /\ r <> Ok tt) \/
  (exists loc, resolve name = Some loc /\
               proper (os_path_basename name) = true /\
               node_at fs loc <> Some Dir /\
               node_at fs (removelast loc) = Some Dir /\
               (r = Ok tt /\ isurl name = Ok false /\
                fs' = <[loc := File (written name (savetxt_text delimiter newline M))]> fs \/
                r <> Ok tt /\ isurl name <> Ok false /\
                fs' = <[loc := File (Text EmptyString)]> fs)).
Proof.
  unfold np_savetxt.
  destruct (write_file fs name (Text EmptyString)) as [created fs1] eqn:E.
  pose proof E as Hagain.
  apply write_file_inv in E as [[-> Hne]|(-> & loc & Hloc & Hb & Hnd & Hparent & ->)].
  - destruct created as [[]|e]; [now elim Hne|].
    intros H. injection H as <- <-. left. split; [reflexivity|discriminate].
  - intros H. right. exists loc. repeat (split; [assumption|]).
    destruct (isurl name) as [[|]|e] eqn:Hurl.
    + injection H as <- <-. right. repeat split; discriminate.
    + left. rewrite (write_file_again _ _ _ _ _ Hagain) in H.
      unfold write_file in H. rewrite Hloc, Hb, Hparent in H.
      destruct (node_at fs loc) as [[|t]|]; [contradiction| |];
        injection H as <- <-; now repeat split.
    + injection H as <- <-. right. repeat split; discriminate.
Qed.

Lemma save_mat_stages (isurl : string -> result bool) (fs fs' : FileSystem) M name r :
  save_mat isurl fs M name = (r, fs') ->
  exists made fs1,
    (if negb (os_path_isdir fs (os_path_dirname name))
     then os_makedirs fs (os_path_dirname name) else (Ok tt, fs)) = (made, fs1) /\
    ((exists e, made = Raise e /\ r = Raise e /\ fs' = fs1) \/
     (made = Ok tt /\ np_savetxt isurl fs1 name M tab newline = (r, fs'))).
Proof.
  unfold save_mat. cbv zeta.
  destruct (if negb (os_path_isdir fs (os_path_dirname name))
            then os_makedirs fs (os_path_dirname name) else (Ok tt, fs)) as [made fs1].
  intros H. exists made, fs1. split; [reflexivity|].
  destruct made as [[]|e].
  - right. split; [reflexivity|exact H].
  - injection H as <- <-. left. now exists e.
Qed.

(** X17: whatever [save_mat] is given (a destination without [..], which
    the model of paths does not interpret) and however it ends, it keeps
    every directory, keeps every file other than its destination with its
    content, creates no file other than its destination (which holds the
    text of the matrix, compressed when the extension of the name asks for
    it, when the call succeeds, and is left empty when numpy has created
    it and then refuses the name as a URL), and creates directories only
    on the way to the directory part of the destination. *)
Theorem save_mat_touches_only_its_path :
  forall isurl (fs fs' : FileSystem) M name r,
    ~ In ".." (components name) ->
    save_mat isurl fs M name = (r, fs') ->
    (forall l, fs !! l = Some Dir -> fs' !! l = Some Dir) /\
    (forall l t, fs !! l = Some (File t) -> resolve name <> Some l ->
                 fs' !! l = Some (File t)) /\
    (forall l t, fs' !! l = Some (File t) ->
                 fs !! l = Some (File t) \/
                 (resolve name = Some l /\
                  (r = Ok tt /\ isurl name = Ok false /\
                   t = match file_opener name with
                       | None => Text (savetxt_text tab newline M)
                       | Some c => Compressed c (savetxt_text tab newline M)
                       end \/
                   r <> Ok tt /\ isurl name <> Ok false /\ t = Text EmptyString))) /\
    (forall l, fs' !! l = Some Dir ->
               fs !! l = Some Dir \/
               exists dir k, resolve (os_path_dirname name) = Some dir /\ l = take k dir).
Proof.
  intros isurl fs fs' M name r _ H.
  destruct (save_mat_stages _ _ _ _ _ _ H) as (made & fs1 & Hstage & Hrest).
  destruct (directory_stage_frame _ _ _ _ Hstage) as [Hkeep Hnew].
  assert (fs' = fs1 \/
          (exists loc t0, resolve name = Some loc /\
                          node_at fs1 loc <> Some Dir /\
                          fs' = <[loc := File t0]> fs1 /\
                          (r = Ok tt /\ isurl name = Ok false /\
                           t0 = written name (savetxt_text tab newline M) \/
                           r <> Ok tt /\ isurl name <> Ok false /\ t0 = Text EmptyString)))
    as [->|(loc & t0 & Hloc & Hnd & -> & Hhow)].
  { destruct Hrest as [(e & _ & _ & ->)|[_ Hw]]; [now left|].
    apply np_savetxt_inv in Hw as [[-> _]|(loc & Hloc & _ & Hnd & _ & Hhow)];
      [now left|].
    right. exists loc.
    destruct Hhow as [(-> & Hurl & ->)|(Hr & Hurl & ->)]; eexists;
      (split; [exact Hloc|]); (split; [exact Hnd|]); (split; [reflexivity|]);
      [left|right]; now repeat split. }
  - split; [intros l; apply Hkeep|]. split; [intros l t Hl _; now apply Hkeep|].
    split.
    + intros l t Hl. destruct (Hnew l _ Hl) as [Hold|[Hd _]]; [now left|discriminate].
    + intros l Hl. destruct (Hnew l _ Hl) as [Hold|(_ & dir & k & Hd & ->)]; [now left|].
      right. now exists dir, k.
  - assert (fs1 !! loc <> Some Dir) as Hnd'.
    { intros E. apply Hnd. unfold node_at. rewrite E. now destruct (is_base loc). }
    split.
    { intros l Hl. apply Hkeep in Hl. rewrite lookup_insert_ne; [exact Hl|].
      intros <-. contradiction. }
    split.
    { intros l t Hl Hne. apply Hkeep in Hl. rewrite lookup_insert_ne; [exact Hl|].
      intros <-. now apply Hne. }
    split.
    + intros l t Hl. destruct (decide (loc = l)) as [<-|Hne].
      * rewrite lookup_insert_eq in Hl. injection Hl as <-. right.
        split; [exact Hloc|exact Hhow].
      * rewrite lookup_insert_ne in Hl by exact Hne.
        destruct (Hnew l _ Hl) as [Hold|[Hd _]]; [now left|discriminate].
    + intros l Hl. destruct (decide (loc = l)) as [<-|Hne].
      * rewrite lookup_insert_eq in Hl. discriminate.
      * rewrite lookup_insert_ne in Hl by exact Hne.
        destruct (Hnew l _ Hl) as [Hold|(_ & dir & k & Hd & ->)]; [now left|].
        right. now exists dir, k.
Qed.

Lemma save_mat_touches_only_its_path_witness :
  (forall l, blocked_fs !! l = Some Dir ->
             (save_mat no_url blocked_fs sample_matrix "data/m.txt").2 !! l = Some Dir) /\
  (forall l t, blocked_fs !! l = Some (File t) -> resolve "data/m.txt" <> Some l ->
               (save_mat no_url blocked_fs sample_matrix "data/m.txt").2 !! l = Some (File t)) /\
  (forall l t, (save_mat no_url blocked_fs sample_matrix "data/m.txt").2 !! l = Some (File t) ->
               blocked_fs !! l = Some (File t) \/
               (resolve "data/m.txt" = Some l /\
                ((save_mat no_url blocked_fs sample_matrix "data/m.txt").1 = Ok tt /\
                 no_url "data/m.txt" = Ok false /\
                 t = match file_opener "data/m.txt" with
                     | None => Text (savetxt_text tab newline sample_matrix)
                     | Some c => Compressed c (savetxt_text tab newline sample_matrix)
                     end \/
                 (save_mat no_url blocked_fs sample_matrix "data/m.txt").1 <> Ok tt /\
                 no_url "data/m.txt" <> Ok false /\ t = Text EmptyString))) /\
  (forall l, (save_mat no_url blocked_fs sample_matrix "data/m.txt").2 !! l = Some Dir ->
             blocked_fs !! l = Some Dir \/
             exists dir k, resolve (os_path_dirname "data/m.txt") = Some dir /\
                           l = take k dir).
Proof.
  apply (save_mat_touches_only_its_path no_url blocked_fs
           (save_mat no_url blocked_fs sample_matrix "data/m.txt").2 sample_matrix "data/m.txt"
           (save_mat no_url blocked_fs sample_matrix "data/m.txt").1).
  - simpl. intuition discriminate.
  - apply surjective_pairing.
Defined.

(** X18: a destination that ends in a slash or in [/.] (and has no [..])
    names a directory.
    [save_mat] first creates that directory and its missing ancestors, and
    only then fails with [IsADirectoryError] when it opens the destination:
    the directories stay behind, and no file is written or changed. *)
Theorem save_mat_directory_destination :
  forall isurl (fs : FileSystem) M name dir,
    resolve (os_path_dirname name) = Some dir ->
    proper (os_path_basename name) = false ->
    ~ In ".." dir ->
    (forall k t, node_at fs (take k dir) <> Some (File t)) ->
    exists fs1,
      save_mat isurl fs M name = (Raise (IsADirectoryError name), fs1) /\
      os_path_isdir fs1 (os_path_dirname name) = true /\
      (forall l t, fs1 !! l = Some (File t) <-> fs !! l = Some (File t)).
Proof.
  intros isurl fs M name dir Hdir Hb _ Hfree.
  pose proof (resolve_dirname_slash _ _ Hdir) as Hs.
  pose proof Hdir as Edir. rewrite (resolve_dirname _ Hs) in Edir. injection Edir as Edir.
  assert (resolve name = Some dir) as Hloc.
  { unfold resolve. destruct name as [|c name]; [discriminate|]. simpl is_empty. cbv iota.
    rewrite (components_head _ Hs), Hb, app_nil_r. unfold base_of in *. now rewrite Edir. }
  set (dn := os_path_dirname name) in *.
  assert (exists fs1,
            (if negb (os_path_isdir fs dn) then os_makedirs fs dn else (Ok tt, fs))
            = (Ok tt, fs1)) as [fs1 Hstage].
  { unfold os_path_isdir, os_makedirs. rewrite Hdir.
    destruct (node_at fs dir) as [[|t]|] eqn:E; simpl.
    - now exists fs.
    - exfalso. apply (Hfree (length dir) t). now rewrite firstn_all.
    - assert (base_of dn ++ components dn = dir) as Ed.
      { unfold resolve in Hdir. destruct (is_empty dn); [discriminate|]. now injection Hdir. }
      destruct (make_each_spec dn (components dn) (base_of dn) fs) as (fs1 & Hrun & _).
      { intros k t Hk. specialize (Hfree (length (base_of dn) + k)%nat t).
        rewrite <- Ed, take_app_add in Hfree. exact Hfree. }
      now exists fs1. }
  destruct (directory_stage_ok _ _ _ Hstage) as (dir' & Hdir' & Hd).
  assert (dir' = dir) as -> by congruence.
  destruct (directory_stage_frame _ _ _ _ Hstage) as [Hkeep Hnew].
  exists fs1. split.
  { unfold save_mat. cbv zeta. fold dn. rewrite Hstage.
    apply np_savetxt_not_created with (c := Text EmptyString).
    unfold write_file. now rewrite Hloc, Hb, Hd. }
  split.
  { unfold os_path_isdir. now rewrite Hdir, Hd. }
  intros l t. split; [|apply Hkeep].
  intros Hl. destruct (Hnew l _ Hl) as [Hold|[Hn _]]; [exact Hold|discriminate].
Qed.

Lemma save_mat_directory_destination_witness :
  exists fs1,
    save_mat no_url empty_fs sample_matrix "out/subdir/"
    = (Raise (IsADirectoryError "out/subdir/"), fs1) /\
    os_path_isdir fs1 (os_path_dirname "out/subdir/") = true /\
    (forall l t, fs1 !! l = Some (File t) <-> empty_fs !! l = Some (File t)).
Proof.
  apply (save_mat_directory_destination no_url empty_fs sample_matrix "out/subdir/"
           ["out"; "subdir"]).
  - reflexivity.
  - reflexivity.
  - simpl. intuition discriminate.
  - intros [|[|[|k]]] t; simpl; unfold node_at, empty_fs; simpl; try discriminate;
      rewrite lookup_empty; discriminate.
Defined.

Lemma entry_prefixes (fs : FileSystem) l n :
  tree_closed fs -> fs !! l = Some n ->
  forall j, (j < length l)%nat -> node_at fs (take j l) = Some Dir.
Proof.
  intros Hclosed Hl j Hj.
  pose proof (closed_prefixes fs (removelast l) Hclosed (Hclosed _ _ Hl) j) as H.
  rewrite removelast_firstn_len, take_take in H.
  now replace (j `min` Init.Nat.pred (length l))%nat with j in H by lia.
Qed.

(** A regular file on the way stops [make_each] before it creates
    anything. *)
Lemma make_each_blocked name todo : forall done (fs : FileSystem) k t,
  tree_closed fs ->
  (1 <= k <= length todo)%nat ->
  node_at fs (done ++ take k todo) = Some (File t) ->
  exists s, make_each name fs done todo = (Raise (NotADirectoryError s), fs).
Proof.
  induction todo as [|c todo IH]; intros done fs k t Hclosed Hk Hfile; simpl in Hk; [lia|].
  destruct k as [|[|k]]; [lia| |].
  - simpl in *. rewrite take_0 in Hfile. rewrite Hfile. now eexists.
  - assert (done ++ take (S (S k)) (c :: todo) = (done ++ [c]) ++ take (S k) todo) as E
      by (simpl; now rewrite <- app_assoc).
    rewrite E in Hfile.
    assert (node_at fs (done ++ [c]) = Some Dir) as Hdir.
    { assert (fs !! ((done ++ [c]) ++ take (S k) todo) = Some (File t)) as Hl.
      { unfold node_at in Hfile. destruct (is_base _); [discriminate|exact Hfile]. }
      pose proof (entry_prefixes fs _ _ Hclosed Hl (length (done ++ [c]))) as H.
      rewrite take_app_length in H. apply H.
      rewrite !length_app, length_take. destruct todo; simpl in *; lia. }
    simpl. rewrite Hdir. apply (IH _ fs (S k) t Hclosed); [lia|exact Hfile].
Qed.

(** X19: on a file system where every entry lies in a directory, when a
    regular file stands where [save_mat] needs a directory, the directory
    part of the destination (without [..]) or one of its ancestors, the
    call fails in [os.makedirs] and leaves the file system as it was.  The
    exception is [FileExistsError] when the directory part itself leads to
    the file and does not end in [.]; it is [NotADirectoryError] when the
    file is an ancestor, or when the directory part ends in [.] and so
    asks for a directory below the file. *)
Theorem save_mat_blocked_by_file :
  forall isurl (fs : FileSystem) M name dir k t,
    tree_closed fs ->
    resolve (os_path_dirname name) = Some dir ->
    ~ In ".." dir ->
    node_at fs (take k dir) = Some (File t) ->
    exists e,
      save_mat isurl fs M name = (Raise e, fs) /\
      ((length dir <= k)%nat /\ ends_in_dot (os_path_dirname name) = false /\
       e = FileExistsError (os_path_dirname name) \/
       ((k < length dir)%nat \/ ends_in_dot (os_path_dirname name) = true) /\
       exists s, e = NotADirectoryError s).
Proof.
  intros isurl fs M name dir k t Hclosed Hdir _ Hfile.
  set (dn := os_path_dirname name) in *.
  assert (base_of dn ++ components dn = dir) as Ed.
  { unfold resolve in Hdir. destruct (is_empty dn); [discriminate|]. now injection Hdir. }
  unfold save_mat. cbv zeta. fold dn. unfold os_path_isdir, os_makedirs. rewrite Hdir.
  destruct (node_at fs dir) as [[|t']|] eqn:E; simpl.
  - pose proof (closed_prefixes fs dir Hclosed E k) as H. congruence.
  - destruct (Nat.le_gt_cases (length dir) k) as [Hle|Hgt].
    + destruct (ends_in_dot dn) eqn:Edot; eexists; (split; [reflexivity|]).
      * right. split; [now right|]. now eexists.
      * left. now repeat split.
    + exfalso.
      assert (fs !! dir = Some (File t')) as Hl.
      { unfold node_at in E. destruct (is_base dir); [discriminate|exact E]. }
      pose proof (entry_prefixes fs _ _ Hclosed Hl k Hgt) as H. congruence.
  - assert (k < length dir)%nat as Hlt.
    { destruct (Nat.le_gt_cases (length dir) k) as [Hle|Hgt]; [|exact Hgt].
      rewrite take_ge in Hfile by exact Hle. congruence. }
    assert (length (base_of dn) < k)%nat as Hbase.
    { destruct (Nat.le_gt_cases k (length (base_of dn))) as [Hle|Hgt]; [|exact Hgt].
      exfalso. rewrite <- Ed, take_app_le in Hfile by exact Hle.
      unfold node_at in Hfile. rewrite take_base_of in Hfile. discriminate. }
    destruct (make_each_blocked dn (components dn) (base_of dn) fs
                (k - length (base_of dn)) t Hclosed) as [s Hs].
    + rewrite <- Ed, length_app in Hlt. lia.
    + rewrite <- Ed, take_app, (take_ge (base_of dn)) in Hfile by lia. exact Hfile.
    + rewrite Hs. eexists. split; [reflexivity|]. right. split; [now left|]. now eexists.
Qed.

Lemma save_mat_blocked_by_file_witness :
  exists e,
    save_mat no_url blocked_fs sample_matrix "out/./m.txt" = (Raise e, blocked_fs) /\
    ((length ["out"] <= 1)%nat /\ ends_in_dot (os_path_dirname "out/./m.txt") = false /\
     e = FileExistsError (os_path_dirname "out/./m.txt") \/
     ((1 < length ["out"])%nat \/ ends_in_dot (os_path_dirname "out/./m.txt") = true) /\
     exists s, e = NotADirectoryError s).
Proof.
  apply (save_mat_blocked_by_file no_url blocked_fs sample_matrix "out/./m.txt"
           ["out"] 1%nat (Text "notes")).
  - intros loc n H. unfold blocked_fs in H. apply lookup_singleton_Some in H as [<- _].
    reflexivity.
  - reflexivity.
  - simpl. intuition discriminate.
  - reflexivity.
Defined.

(** X20: once [save_mat] has succeeded for a destination (without [..])
    whose extension asks for no compression, the file it wrote holds the
    text of the matrix, saving the same matrix again to the same
    destination changes nothing, and saving another matrix there succeeds
    and replaces the content of that file only. *)
Theorem save_mat_again :
  forall isurl (fs fs1 : FileSystem) M M' name,
    ~ In ".." (components name) ->
    file_opener name = None ->
    save_mat isurl fs M name = (Ok tt, fs1) ->
    exists loc,
      resolve name = Some loc /\
      fs1 !! loc = Some (File (Text (savetxt_text tab newline M))) /\
      read_text fs1 name = Some (savetxt_text tab newline M) /\
      save_mat isurl fs1 M name = (Ok tt, fs1) /\
      save_mat isurl fs1 M' name
      = (Ok tt, <[loc := File (Text (savetxt_text tab newline M'))]> fs1).
Proof.
  intros isurl fs fs1 M M' name _ Hplain H.
  destruct (save_mat_stages _ _ _ _ _ _ H) as (made & fs0 & Hstage & Hrest).
  destruct Hrest as [(e & _ & He & _)|[-> Hw]]; [discriminate|].
  destruct (directory_stage_ok _ _ _ Hstage) as (dir & Hdir & Hd).
  apply np_savetxt_inv in Hw
    as [[_ Hne]|(loc & Hloc & Hb & Hnd & Hparent & [(_ & Hurl & ->)|(Hne & _)])];
    [congruence| |congruence].
  assert (forall T, written name T = Text T) as Hwritten
    by (intros T; unfold written; now rewrite Hplain).
  rewrite Hwritten.
  pose proof (resolve_dirname_slash _ _ Hdir) as Hs.
  pose proof Hdir as Edir. rewrite (resolve_dirname _ Hs) in Edir. injection Edir as Edir.
  pose proof Hloc as Eloc. rewrite (resolve_file _ Hs Hb), Edir in Eloc.
  injection Eloc as Eloc.
  pose proof (proper_not_base _ (has_slash_basename name) dir) as Hnb. rewrite Eloc in Hnb.
  assert (dir <> loc) as Hne.
  { intros E. apply (f_equal length) in E. rewrite <- Eloc, length_app in E.
    simpl in E. lia. }
  assert (removelast loc = dir) as Hrl by (rewrite <- Eloc; apply removelast_last).
  assert (forall T (fs2 : FileSystem),
            fs2 = <[loc := File (Text (savetxt_text tab newline M))]> fs0 ->
            save_mat isurl fs2 T name
            = (Ok tt, <[loc := File (Text (savetxt_text tab newline T))]> fs2))
    as Hsave.
  { intros T fs2 ->. unfold save_mat. cbv zeta. unfold os_path_isdir.
    rewrite Hdir, node_at_insert_ne by exact Hne. rewrite Hd. simpl.
    rewrite (np_savetxt_no_url _ _ _ _ _ _ Hurl). unfold write_file.
    rewrite Hloc, Hb, Hrl, node_at_insert_file by exact Hnb.
    rewrite node_at_insert_ne by exact Hne. now rewrite Hd, Hwritten. }
  exists loc. split; [exact Hloc|]. split; [apply lookup_insert_eq|]. split.
  { unfold read_text. now rewrite Hloc, node_at_insert_file by exact Hnb. }
  split; [|now apply Hsave].
  rewrite (Hsave M _ eq_refl). f_equal. apply insert_id, lookup_insert_eq.
Qed.

Lemma save_mat_again_witness :
  exists loc,
    resolve "out/m.txt" = Some loc /\
    (save_mat no_url empty_fs sample_matrix "out/m.txt").2 !! loc
    = Some (File (Text (savetxt_text tab newline sample_matrix))) /\
    read_text (save_mat no_url empty_fs sample_matrix "out/m.txt").2 "out/m.txt"
    = Some (savetxt_text tab newline sample_matrix) /\
    save_mat no_url (save_mat no_url empty_fs sample_matrix "out/m.txt").2 sample_matrix "out/m.txt"
    = (Ok tt, (save_mat no_url empty_fs sample_matrix "out/m.txt").2) /\
    save_mat no_url (save_mat no_url empty_fs sample_matrix "out/m.txt").2 [[f_two]] "out/m.txt"
    = (Ok tt, <[loc := File (Text (savetxt_text tab newline [[f_two]]))]>
                (save_mat no_url empty_fs sample_matrix "out/m.txt").2).
Proof.
  apply (save_mat_again no_url empty_fs (save_mat no_url empty_fs sample_matrix "out/m.txt").2
           sample_matrix [[f_two]] "out/m.txt").
  - simpl. intuition discriminate.
  - reflexivity.
  - reflexivity.
Defined.
